(** * Project Nimbus: quota-enforced message dispatch and invitation acceptance

    A shallow embedding of [sendMessage] / [translateMessage] (the message
    dispatcher), of the free-tier limits table of [PricingPlan.tsx] and of the
    [AcceptInvitation] component's [handleAcceptInvitation], together with
    the properties the design document states about them.  Further on, the
    handlers of the [CreateNewChat] dialog, the day grouping of
    [MessageList], the handlers of [MessageInput] and the recording time of
    [VoiceRecorder], with properties read off their code.

    JavaScript strings are modelled as [string] (sequences of 8-bit code
    units, the Latin-1 range of the UTF-16 code units), byte sizes and
    counters as [N], JS objects used as dictionaries as [gmap string _],
    arrays as [list].  An [async] function is a state transformer over the
    durable stores that also records the external calls it makes.  Where the
    code has requests in flight at the same time (the callbacks of the group
    fan-out under [Promise.all], the acceptance runs of several visitors),
    the function is cut at its [await]s and the requests settle one at a
    time, in an order given by the environment; the properties hold for
    every such order unless they say otherwise.

    The dispatcher imports its quota functions from [@/lib/usageTracking],
    which is not among the sources: they are taken as parameters (the class
    [UsageTracking]), so that every property of the dispatcher holds for any
    ledger.  The ledger the design document describes is given as an
    instance, for the worked scenarios and for the corollaries about counter
    values. *)

From Stdlib Require Import NArith Ascii String.
From stdpp Require Import base strings gmap list pretty.

Local Open Scope N_scope.

(** ** JavaScript string primitives used by the dispatcher *)

(** White space removed by [String.prototype.trim], restricted to the code
    units below 256: TAB, LF, VT, FF, CR, SPACE and NO-BREAK SPACE. *)
Definition isWhiteSpace (c : ascii) : bool :=
  let n := N_of_ascii c in
  ((9 <=? n) && (n <=? 13)) || (n =? 32) || (n =? 160).

Fixpoint trimStart (s : string) : string :=
  match s with
  | EmptyString => EmptyString
  | String c r => if isWhiteSpace c then trimStart r else s
  end.

Fixpoint trimEnd (s : string) : string :=
  match s with
  | EmptyString => EmptyString
  | String c r =>
      match trimEnd r with
      | EmptyString => if isWhiteSpace c then EmptyString else String c EmptyString
      | r' => String c r'
      end
  end.

Definition trim (s : string) : string := trimEnd (trimStart s).

(** Truthiness of a JS string: only the empty string is falsy. *)
Definition truthy (s : string) : bool :=
  match s with
  | EmptyString => false
  | String _ _ => true
  end.

(** [a || b] on strings where [a] may be [undefined] / [null]. *)
Definition orElse (a : option string) (b : string) : string :=
  match a with
  | Some s => if truthy s then s else b
  | None => b
  end.

(** [s.startsWith(p)] *)
Definition startsWith (p s : string) : bool := String.prefix p s.

(** ** Plan limits ([PricingPlan.tsx]) *)

Record TierLimits := {
  messages : N;
  translations : N;
  aiInteractions : N;
  fileStorage : N;
  groupChats : N;
  maxGroupMembers : N
}.

Definition FREE_TIER_LIMITS : TierLimits := {|
  messages := 100;
  translations := 50;
  aiInteractions := 20;
  fileStorage := 50 * 1024 * 1024;
  groupChats := 3;
  maxGroupMembers := 5
|}.

(** ** Quota ledger interface ([@/lib/usageTracking]) *)

(** The metered resources [sendMessage] names in its calls to
    [checkAndIncrementUsage]: ["messages"], ["translations"],
    ["aiInteractions"]. *)
Inductive Resource := Messages | Translations | AiInteractions.

Definition resourceName (r : Resource) : string :=
  match r with
  | Messages => "messages"
  | Translations => "translations"
  | AiInteractions => "aiInteractions"
  end.

(** The three functions [sendMessage] imports, over the ledger state [L]
    they read and write: [checkAndIncrementUsage(userId, resource)] answers
    and updates, [checkFileStorageLimit(userId, bytes)] only answers,
    [incrementFileStorage(userId, bytes)] only updates. *)
Class UsageTracking (L : Type) := {
  ledgerCheckAndIncrementUsage : string -> Resource -> L -> bool * L;
  ledgerCheckFileStorageLimit : string -> N -> L -> bool;
  ledgerIncrementFileStorage : string -> N -> L -> L
}.

(** ** Data model of the dispatcher *)

Module Blob.
(** A browser [Blob]: only its byte size and MIME type are observed. *)
Record t := { size : N; type : string }.
End Blob.

Module File.
(** A browser [File]. *)
Record t := { name : string; size : N; type : string }.
End File.

Inductive MessageType := MsgText | MsgImage | MsgFile | MsgAudio.

Definition typeName (t : MessageType) : string :=
  match t with
  | MsgText => "text"
  | MsgImage => "image"
  | MsgFile => "file"
  | MsgAudio => "audio"
  end.

(** [content] is a string, or (group chats) an object keyed by language. *)
Inductive Content :=
  | Plain (s : string)
  | PerLanguage (translations : gmap string string).

(** The sentinel returned by [serverTimestamp()]. *)
Inductive Timestamp := serverTimestamp.

(** [Partial<Message>] as [sendMessage] fills it in: the first three fields
    are set when the object is created, the others by the payload branch. *)
Record Message := {
  senderId : string;
  timestamp : Timestamp;
  chatId : string;
  type : option MessageType;
  content : option Content;
  fileUrl : option string;
  originalContent : option string
}.

Inductive ChatType := private | group | ai.

Record ChatData := {
  chatType : ChatType;
  participants : list string
}.

Record UserData := { preferredLang : option string }.

(** The durable stores the dispatcher reads and writes; [L] is the state of
    the quota ledger. *)
Record World (L : Type) := {
  usage : L;                                (* quota ledger *)
  blobs : gmap string N;                    (* blob store: path to byte size *)
  users : gmap string UserData;             (* collection "users" *)
  collections : gmap string (list Message)  (* message collections, by path *)
}.

Arguments usage {L} _.
Arguments blobs {L} _.
Arguments users {L} _.
Arguments collections {L} _.

(** The environment of one dispatch: the external services, and the order
    in which the requests of the group fan-out settle.  An entry of
    [settleOrder] names, by its index in [participantLanguages], the callback
    whose pending request settles next. *)
Record Services := {
  dateNow : N;                                      (* Date.now() *)
  downloadURLOf : string -> string;                 (* blob store URL of a path *)
  speechToText : Blob.t -> option string;           (* None: the call fails *)
  translateApi : string -> string -> option string; (* None: the call fails *)
  settleOrder : list nat
}.

(** External calls, in the order they are made, each with the answer it
    gets. *)
Inductive Event :=
  | CheckAndIncrementUsage (userId : string) (r : Resource) (allowed : bool)
  | CheckFileStorageLimit (userId : string) (bytes : N) (allowed : bool)
  | IncrementFileStorage (userId : string) (bytes : N)
  | UploadBytes (path : string) (bytes : N)
  | GetDownloadURL (path : string)
  | Transcribe (audio : Blob.t) (ok : bool)
  | GetUserDoc (id : string) (found : bool)
  | Translate (text targetLang : string) (ok : bool)
  | AddDoc (path : string) (m : Message).

(** The errors [sendMessage] throws. *)
Inductive SendError :=
  | MessageLimitReached
  | FileStorageLimitReached
  | FileTooLarge
  | AiInteractionLimitReached.

Definition errorMessage (e : SendError) : string :=
  match e with
  | MessageLimitReached =>
      "You've reached your message limit for the free tier. Please upgrade to send more messages."
  | FileStorageLimitReached =>
      "You've reached your file storage limit for the free tier. Please upgrade to upload more files."
  | FileTooLarge => "File size exceeds the maximum limit of 10MB."
  | AiInteractionLimitReached =>
      "You've reached your AI interaction limit for the free tier. Please upgrade to continue using AI chat."
  end.

(** ** The monad of [async] functions

    An [async] computation runs from a state of the stores to a rejection or
    a value, the new state, and the external calls made on the way. *)
Definition Async (L A : Type) : Type :=
  World L -> (SendError + A) * World L * list Event.

Definition ret {L A} (a : A) : Async L A := fun w => (inr a, w, []).

Definition throw {L A} (e : SendError) : Async L A := fun w => (inl e, w, []).

Definition bind {L A B} (m : Async L A) (k : A -> Async L B) : Async L B := fun w =>
  match m w with
  | (inr a, w1, t1) =>
      match k a w1 with
      | (r, w2, t2) => (r, w2, t1 ++ t2)
      end
  | (inl e, w1, t1) => (inl e, w1, t1)
  end.

Notation "x <- c ;; k" := (bind c (fun x => k))
  (at level 100, c at next level, right associativity).
Notation "c ;;; k" := (bind c (fun _ => k))
  (at level 100, right associativity).

Definition outcome {L A} (r : (SendError + A) * World L * list Event) : SendError + A :=
  r.1.1.
Definition final {L A} (r : (SendError + A) * World L * list Event) : World L := r.1.2.
Definition calls {L A} (r : (SendError + A) * World L * list Event) : list Event := r.2.

Definition setUsage {L} (l : L) (w : World L) : World L :=
  {| usage := l; blobs := blobs w; users := users w; collections := collections w |}.

Definition setBlobs {L} (b : gmap string N) (w : World L) : World L :=
  {| usage := usage w; blobs := b; users := users w; collections := collections w |}.

Definition setCollections {L} (c : gmap string (list Message)) (w : World L) : World L :=
  {| usage := usage w; blobs := blobs w; users := users w; collections := c |}.

(** [messageData.f = v] and [{...messageData, f: v}] *)
Definition withBody (t : MessageType) (c : string) (url : option string)
    (m : Message) : Message :=
  {| senderId := senderId m; timestamp := timestamp m; chatId := chatId m;
     type := Some t; content := Some (Plain c); fileUrl := url;
     originalContent := originalContent m |}.

Definition withContent (c : Content) (m : Message) : Message :=
  {| senderId := senderId m; timestamp := timestamp m; chatId := chatId m;
     type := type m; content := Some c; fileUrl := fileUrl m;
     originalContent := originalContent m |}.

Definition withOriginalContent (s : string) (m : Message) : Message :=
  {| senderId := senderId m; timestamp := timestamp m; chatId := chatId m;
     type := type m; content := content m; fileUrl := fileUrl m;
     originalContent := Some s |}.

(** [`chats/${chatId}/messages`], [`voice_${Date.now()}.webm`] and
    [`chats/${chatId}/${fileName}`] *)
Definition messagesPath (chatId : string) : string :=
  "chats/" +:+ chatId +:+ "/messages".

Definition voiceFileName (now : N) : string :=
  "voice_" +:+ pretty now +:+ ".webm".

Definition storagePath (chatId fileName : string) : string :=
  "chats/" +:+ chatId +:+ "/" +:+ fileName.

#[global] Arguments messagesPath : simpl never.
#[global] Arguments voiceFileName : simpl never.
#[global] Arguments storagePath : simpl never.

Definition messagesOf {L} (chatId : string) (w : World L) : list Message :=
  default [] (collections w !! messagesPath chatId).

(** ** The callbacks of the group fan-out *)

(** Where a callback of [participantLanguages.map(async (lang) => ...)]
    stands: its charge is requested (line 129); the ledger has answered the
    charge and the callback has not resumed yet; it has resumed on a granted
    charge and its translation is requested (line 131); it has written its
    key and returned. *)
Inductive Callback :=
  | Charging (lang : string)
  | Answered (lang : string) (canTranslate : bool)
  | Translating (lang : string)
  | Completed (lang : string) (canTranslate : bool).

Definition langOf (c : Callback) : string :=
  match c with
  | Charging lang | Answered lang _ | Translating lang | Completed lang _ => lang
  end.

(** The answer to a callback's charge, once the ledger has given it. *)
Definition answerOf (c : Callback) : option bool :=
  match c with
  | Charging _ => None
  | Answered _ canTranslate | Completed _ canTranslate => Some canTranslate
  | Translating _ => Some true
  end.

(** The fan-out under way: the callbacks in array order, the shared
    [translations] object, the translation requests made so far, and the
    ledger. *)
Record FanOut (L : Type) := {
  callbacks : list Callback;
  written : gmap string string;
  requested : list Event;
  ledgerNow : L
}.

Arguments callbacks {L} _.
Arguments written {L} _.
Arguments requested {L} _.
Arguments ledgerNow {L} _.

(** [obj[key] = value] for a string [value], on an object created as [{}].
    ["__proto__"] names the accessor inherited from [Object.prototype], whose
    setter ignores a value that is neither an object nor [null]: no own
    property is created.  Any other key becomes, or stays, an own property
    with the new value. *)
Definition assign (key value : string) (obj : gmap string string)
  : gmap string string :=
  if decide (key = "__proto__") then obj else <[key := value]> obj.

(** The charges of the callbacks, as calls: one per callback, in array
    order. *)
Definition chargeCalls (userId : string) (cs : list Callback) : list Event :=
  omap (fun c => CheckAndIncrementUsage userId Translations <$> answerOf c) cs.

(** What [translateMessage] returns: the translation of the response, or the
    message itself when the request fails. *)
Definition translationOf (services : Services) (message targetLang : string)
  : string :=
  default message (translateApi services message targetLang).

(** ** The dispatcher ([sendMessage], [translateMessage]) *)

Section Dispatcher.

Context {L : Type} {ledger : UsageTracking L}.
Variable services : Services.

(** *** External calls *)

Definition checkAndIncrementUsage (userId : string) (r : Resource) : Async L bool :=
  fun w =>
    match ledgerCheckAndIncrementUsage userId r (usage w) with
    | (allowed, l) =>
        (inr allowed, setUsage l w, [CheckAndIncrementUsage userId r allowed])
    end.

Definition checkFileStorageLimit (userId : string) (bytes : N) : Async L bool :=
  fun w =>
    let allowed := ledgerCheckFileStorageLimit userId bytes (usage w) in
    (inr allowed, w, [CheckFileStorageLimit userId bytes allowed]).

Definition incrementFileStorage (userId : string) (bytes : N) : Async L unit :=
  fun w =>
    (inr tt, setUsage (ledgerIncrementFileStorage userId bytes (usage w)) w,
     [IncrementFileStorage userId bytes]).

Definition uploadBytes (path : string) (bytes : N) : Async L unit :=
  fun w => (inr tt, setBlobs (<[path := bytes]> (blobs w)) w, [UploadBytes path bytes]).

Definition getDownloadURL (path : string) : Async L string :=
  fun w => (inr (downloadURLOf services path), w, [GetDownloadURL path]).

(** [axios.post('/api/service?endpoint=stt', audioBlob, ...)] inside its own
    [try]: the transcript, or nothing when the call throws. *)
Definition transcribe (audioBlob : Blob.t) : Async L (option string) :=
  fun w =>
    (inr (speechToText services audioBlob), w,
     [Transcribe audioBlob (bool_decide (is_Some (speechToText services audioBlob)))]).

(** [getDoc(doc(db, "users", id))]: the snapshot's data when it exists. *)
Definition getUserDoc (id : string) : Async L (option UserData) :=
  fun w => (inr (users w !! id), w, [GetUserDoc id (bool_decide (is_Some (users w !! id)))]).

(** [addDoc(collection(db, `chats/${chatId}/messages`), messageData)] *)
Definition addDoc (path : string) (m : Message) : Async L unit :=
  fun w =>
    (inr tt,
     setCollections (<[path := default [] (collections w !! path) ++ [m]]> (collections w)) w,
     [AddDoc path m]).

(** [translateMessage]: the first translation of the response, or the
    original message when the request fails in any way. *)
Definition translateMessage (message targetLang : string) : Async L string :=
  fun w =>
    match translateApi services message targetLang with
    | Some translatedText => (inr translatedText, w, [Translate message targetLang true])
    | None => (inr message, w, [Translate message targetLang false])
    end.

(** *** Group fan-out

    [Promise.all(participantLanguages.map(async (lang) => ...))].  [map]
    calls the callbacks in array order and each runs up to its first
    [await], so all the charges are requested, in array order, before
    anything else happens.  From then on a callback advances when the request
    it awaits settles, in an order the code does not decide: the ledger
    answers a charge, the callback resumes on the answer, a translation
    arrives.  Neither request rejects: the ledger functions are total and
    [translateMessage] catches. *)

(** One step of the callback of index [i] (lines 127-136). *)
Definition advance (userId textToTranslate : string) (s : FanOut L) (i : nat)
  : FanOut L :=
  match callbacks s !! i with
  | Some (Charging lang) =>
      (* the ledger serves [checkAndIncrementUsage(userId, "translations")] *)
      let answer := ledgerCheckAndIncrementUsage userId Translations (ledgerNow s) in
      {| callbacks := <[i := Answered lang answer.1]> (callbacks s);
         written := written s; requested := requested s; ledgerNow := answer.2 |}
  | Some (Answered lang true) =>
      (* [canTranslate]: [translateMessage(textToTranslate, lang)] is called *)
      {| callbacks := <[i := Translating lang]> (callbacks s);
         written := written s;
         requested :=
           requested s
           ++ [Translate textToTranslate lang
                 (bool_decide (is_Some (translateApi services textToTranslate lang)))];
         ledgerNow := ledgerNow s |}
  | Some (Answered lang false) =>
      (* [translations[lang] = textToTranslate] *)
      {| callbacks := <[i := Completed lang false]> (callbacks s);
         written := assign lang textToTranslate (written s);
         requested := requested s; ledgerNow := ledgerNow s |}
  | Some (Translating lang) =>
      (* [translations[lang] = await translateMessage(textToTranslate, lang)] *)
      {| callbacks := <[i := Completed lang true]> (callbacks s);
         written := assign lang (translationOf services textToTranslate lang) (written s);
         requested := requested s; ledgerNow := ledgerNow s |}
  | Some (Completed _ _) | None => s
  end.

(** [Promise.all] resolves when every callback has completed: the requests
    the environment's order leaves pending settle afterwards, callback by
    callback. *)
Definition untilAllSettled (n : nat) : list nat :=
  settleOrder services ++ (seq 0 n ≫= fun i => [i; i; i]).

(** The fan-out of lines 125-137, from the call of [map] to the resolution
    of [Promise.all]: the [translations] object, the ledger as the charges
    leave it, and the calls made: the charges in array order, then the
    translation requests in the order the callbacks resumed. *)
Definition translateInParallel (userId textToTranslate : string)
    (participantLanguages : list string) : Async L (gmap string string) :=
  fun w =>
    let s :=
      foldl (advance userId textToTranslate)
            {| callbacks := Charging <$> participantLanguages; written := ∅;
               requested := []; ledgerNow := usage w |}
            (untilAllSettled (length participantLanguages)) in
    (inr (written s), setUsage (ledgerNow s) w,
     chargeCalls userId (callbacks s) ++ requested s).

Definition MAX_FILE_SIZE : N := 10 * 1024 * 1024.

Definition isTextOrAudio (t : option MessageType) : bool :=
  match t with
  | Some MsgText | Some MsgAudio => true
  | _ => false
  end.

(** Lines 36-96: the payload branch; at most one of audio, file, text. *)
Definition payload (content : string) (file : option File.t)
    (audioBlob : option Blob.t) (chatId userId : string) (messageData : Message)
  : Async L Message :=
  match audioBlob, file with
  | Some audioBlob, _ =>
      let fileName := voiceFileName (dateNow services) in
      let storageRef := storagePath chatId fileName in
      uploadBytes storageRef (Blob.size audioBlob) ;;;
      downloadURL <- getDownloadURL storageRef ;;
      let messageData := withBody MsgAudio fileName (Some downloadURL) messageData in
      incrementFileStorage userId (Blob.size audioBlob) ;;;
      transcriptionResponse <- transcribe audioBlob ;;
      match transcriptionResponse with
      | Some text => ret (withOriginalContent text messageData)
      | None => ret (withOriginalContent "Transcription failed" messageData)
      end
  | None, Some file =>
      canUploadFile <- checkFileStorageLimit userId (File.size file) ;;
      if negb canUploadFile then throw FileStorageLimitReached else
      if MAX_FILE_SIZE <? File.size file then throw FileTooLarge else
      let storageRef := storagePath chatId (File.name file) in
      uploadBytes storageRef (File.size file) ;;;
      downloadURL <- getDownloadURL storageRef ;;
      let messageData :=
        withBody (if startsWith "image/" (File.type file) then MsgImage else MsgFile)
                 (File.name file) (Some downloadURL) messageData in
      incrementFileStorage userId (File.size file) ;;;
      ret messageData
  | None, None =>
      ret (withBody MsgText content (fileUrl messageData) messageData)
  end.

(** Lines 98-148: translation of text messages and transcribed audio. *)
Definition translateStage (content userId : string) (chatData : option ChatData)
    (participantLanguages : list string) (messageData : Message)
  : Async L Message :=
  if isTextOrAudio (type messageData) then
    let textToTranslate :=
      match type messageData with
      | Some MsgAudio => default "" (originalContent messageData)
      | _ => content
      end in
    match chatData with
    | Some chat =>
        match chatType chat with
        | private =>
            match find (fun p => negb (String.eqb p userId)) (participants chat) with
            | Some otherParticipantId =>
                if truthy otherParticipantId then
                  userDoc <- getUserDoc otherParticipantId ;;
                  match userDoc with
                  | Some userData =>
                      canTranslate <- checkAndIncrementUsage userId Translations ;;
                      if canTranslate : bool then
                        translatedContent <-
                          translateMessage textToTranslate
                                           (orElse (preferredLang userData) "en") ;;
                        ret (withContent (Plain translatedContent) messageData)
                      else ret (withContent (Plain textToTranslate) messageData)
                  | None => ret messageData
                  end
                else ret messageData
            | None => ret messageData
            end
        | group =>
            translations <-
              translateInParallel userId textToTranslate participantLanguages ;;
            ret (withContent (PerLanguage translations) messageData)
        | ai =>
            let messageData := withContent (Plain textToTranslate) messageData in
            canUseAI <- checkAndIncrementUsage userId AiInteractions ;;
            if negb canUseAI then throw AiInteractionLimitReached else ret messageData
        end
    | None => ret messageData
    end
  else ret messageData.

(** [sendMessage].  The outer [try ... catch] logs and rethrows, so a
    rejection is the error thrown inside. *)
Definition sendMessage (content : string) (file : option File.t)
    (audioBlob : option Blob.t) (chatId userId : string)
    (chatData : option ChatData) (participantLanguages : list string)
  : Async L unit :=
  if (negb (truthy (trim content)) && negb (bool_decide (is_Some file))
        && negb (bool_decide (is_Some audioBlob)))
     || negb (truthy userId)
  then ret tt
  else
    canSendMessage <- checkAndIncrementUsage userId Messages ;;
    if negb canSendMessage then throw MessageLimitReached else
    let messageData :=
      {| senderId := userId; timestamp := serverTimestamp; chatId := chatId;
         type := None; content := None; fileUrl := None;
         originalContent := None |} in
    messageData <- payload content file audioBlob chatId userId messageData ;;
    messageData <-
      translateStage content userId chatData participantLanguages messageData ;;
    addDoc (messagesPath chatId) messageData.

End Dispatcher.

(** ** The ledger of the design document *)

(** Modelled from the spec: the per-user usage counters of
    [@/lib/usageTracking], which is not among the sources (design 3,
    [UsageCounters]).  One counter per metered resource, for the active
    period. *)
Record UsageCounters := {
  usedMessages : N;
  usedTranslations : N;
  usedAiInteractions : N;
  fileStorageBytes : N
}.

(** Modelled from the spec: the counters of a user the ledger has no record
    of yet (design 3: counters start at zero). *)
Definition noUsage : UsageCounters :=
  {| usedMessages := 0; usedTranslations := 0; usedAiInteractions := 0;
     fileStorageBytes := 0 |}.

(** Modelled from the spec: the counter of a resource. *)
Definition used (r : Resource) (u : UsageCounters) : N :=
  match r with
  | Messages => usedMessages u
  | Translations => usedTranslations u
  | AiInteractions => usedAiInteractions u
  end.

(** Modelled from the spec: the plan's limit for a resource, read from the
    limits table. *)
Definition limitOf (r : Resource) (plan : TierLimits) : N :=
  match r with
  | Messages => messages plan
  | Translations => translations plan
  | AiInteractions => aiInteractions plan
  end.

(** Modelled from the spec: one more unit of a resource. *)
Definition increment (r : Resource) (u : UsageCounters) : UsageCounters :=
  match r with
  | Messages =>
      {| usedMessages := usedMessages u + 1;
         usedTranslations := usedTranslations u;
         usedAiInteractions := usedAiInteractions u;
         fileStorageBytes := fileStorageBytes u |}
  | Translations =>
      {| usedMessages := usedMessages u;
         usedTranslations := usedTranslations u + 1;
         usedAiInteractions := usedAiInteractions u;
         fileStorageBytes := fileStorageBytes u |}
  | AiInteractions =>
      {| usedMessages := usedMessages u;
         usedTranslations := usedTranslations u;
         usedAiInteractions := usedAiInteractions u + 1;
         fileStorageBytes := fileStorageBytes u |}
  end.

(** Modelled from the spec: [bytes] more stored. *)
Definition addStorage (bytes : N) (u : UsageCounters) : UsageCounters :=
  {| usedMessages := usedMessages u;
     usedTranslations := usedTranslations u;
     usedAiInteractions := usedAiInteractions u;
     fileStorageBytes := fileStorageBytes u + bytes |}.

(** Modelled from the spec: the ledger maps a user id to the user's
    counters; a user without a record has used nothing yet. *)
Definition usageOf (userId : string) (l : gmap string UsageCounters)
  : UsageCounters :=
  default noUsage (l !! userId).

(** Modelled from the spec: [checkAndIncrementUsage] of
    [@/lib/usageTracking] (design 4.1): if the counter is below the plan's
    limit for the resource, increment it and allow; otherwise deny and leave
    the counter unchanged.  The read-modify-write is one atomic step. *)
Definition designCheckAndIncrement (plan : string -> TierLimits) (userId : string)
    (r : Resource) (l : gmap string UsageCounters)
  : bool * gmap string UsageCounters :=
  let u := usageOf userId l in
  if used r u <? limitOf r (plan userId)
  then (true, <[userId := increment r u]> l)
  else (false, l).

(** Modelled from the spec: [checkFileStorageLimit] of
    [@/lib/usageTracking] (design 4.1): a read-only comparison, allowed
    when the prospective total does not exceed the storage limit. *)
Definition designCheckFileStorage (plan : string -> TierLimits) (userId : string)
    (bytes : N) (l : gmap string UsageCounters) : bool :=
  fileStorageBytes (usageOf userId l) + bytes <=? fileStorage (plan userId).

(** Modelled from the spec: [incrementFileStorage] of
    [@/lib/usageTracking] (design 4.1): an unconditional add. *)
Definition designIncrementFileStorage (userId : string) (bytes : N)
    (l : gmap string UsageCounters) : gmap string UsageCounters :=
  <[userId := addStorage bytes (usageOf userId l)]> l.

(** Modelled from the spec: the ledger of design 4.1, for users on the given
    plans. *)
Definition designLedger (plan : string -> TierLimits)
  : UsageTracking (gmap string UsageCounters) :=
  {| ledgerCheckAndIncrementUsage := designCheckAndIncrement plan;
     ledgerCheckFileStorageLimit := designCheckFileStorage plan;
     ledgerIncrementFileStorage := designIncrementFileStorage |}.

(** Modelled from the spec: what design 3 and 4.1 promise of any ledger, in
    terms of the counters it keeps: a check is granted exactly below the
    limit, a granted check adds one to its own counter, a denied one changes
    nothing, the storage check compares the prospective total with the
    storage limit, and the storage increment adds the bytes. *)
Class UsageContract (L : Type) {ledger : UsageTracking L} := {
  usedOf : string -> Resource -> L -> N;
  storedBytesOf : string -> L -> N;
  limitFor : string -> Resource -> N;
  storageLimitFor : string -> N;
  check_allowed : forall u r l,
    (ledgerCheckAndIncrementUsage u r l).1 = (usedOf u r l <? limitFor u r);
  check_denied : forall u r l,
    (ledgerCheckAndIncrementUsage u r l).1 = false ->
    (ledgerCheckAndIncrementUsage u r l).2 = l;
  check_granted : forall u r l,
    (ledgerCheckAndIncrementUsage u r l).1 = true ->
    usedOf u r (ledgerCheckAndIncrementUsage u r l).2 = usedOf u r l + 1;
  check_other : forall u r l u' r',
    (u', r') <> (u, r) ->
    usedOf u' r' (ledgerCheckAndIncrementUsage u r l).2 = usedOf u' r' l;
  check_stored : forall u r l u',
    storedBytesOf u' (ledgerCheckAndIncrementUsage u r l).2 = storedBytesOf u' l;
  storage_allowed : forall u n l,
    ledgerCheckFileStorageLimit u n l = (storedBytesOf u l + n <=? storageLimitFor u);
  add_stored : forall u n l,
    storedBytesOf u (ledgerIncrementFileStorage u n l) = storedBytesOf u l + n;
  add_stored_other : forall u n l u',
    u' <> u -> storedBytesOf u' (ledgerIncrementFileStorage u n l) = storedBytesOf u' l;
  add_used : forall u n l u' r,
    usedOf u' r (ledgerIncrementFileStorage u n l) = usedOf u' r l
}.

(** ** Notions used to state the properties *)

(** *** Kinds of external calls *)

Definition isMessagesCheck (e : Event) : bool :=
  match e with
  | CheckAndIncrementUsage _ Messages _ => true
  | _ => false
  end.

Definition isTranslationsCheck (e : Event) : bool :=
  match e with
  | CheckAndIncrementUsage _ Translations _ => true
  | _ => false
  end.

Definition isAiInteractionsCheck (e : Event) : bool :=
  match e with
  | CheckAndIncrementUsage _ AiInteractions _ => true
  | _ => false
  end.

Definition isUpload (e : Event) : bool :=
  match e with
  | UploadBytes _ _ => true
  | _ => false
  end.

Definition isAddDoc (e : Event) : bool :=
  match e with
  | AddDoc _ _ => true
  | _ => false
  end.

Definition isStorageCheck (e : Event) : bool :=
  match e with
  | CheckFileStorageLimit _ _ _ => true
  | _ => false
  end.

Definition isTranscribe (e : Event) : bool :=
  match e with
  | Transcribe _ _ => true
  | _ => false
  end.

Definition isTranslate (e : Event) : bool :=
  match e with
  | Translate _ _ _ => true
  | _ => false
  end.

Definition isIncrementFileStorage (e : Event) : bool :=
  match e with
  | IncrementFileStorage _ _ => true
  | _ => false
  end.

(** Calls made by the group fan-out: translation charges and translation
    requests. *)
Definition isFanOutCall (e : Event) : bool :=
  match e with
  | CheckAndIncrementUsage _ Translations _
  | Translate _ _ _ => true
  | _ => false
  end.

(** Calls made by the translation step: translation and AI charges, the
    profile read and the translation requests. *)
Definition isTranslationStageCall (e : Event) : bool :=
  match e with
  | CheckAndIncrementUsage _ Translations _
  | CheckAndIncrementUsage _ AiInteractions _
  | GetUserDoc _ _
  | Translate _ _ _ => true
  | _ => false
  end.

(** Calls made by the payload branch. *)
Definition isPayloadCall (e : Event) : bool :=
  match e with
  | CheckFileStorageLimit _ _ _
  | IncrementFileStorage _ _
  | UploadBytes _ _
  | GetDownloadURL _
  | Transcribe _ _ => true
  | _ => false
  end.

(** The results of the charges of one resource, in the order made. *)
Definition chargesOf (p : Event -> bool) (t : list Event) : list bool :=
  omap (fun e => match e with
                 | CheckAndIncrementUsage _ _ allowed => if p e then Some allowed else None
                 | _ => None
                 end) t.

(** *** Texts *)

(** The transcript [sendMessage] stores for an audio blob. *)
Definition transcriptOf (services : Services) (audioBlob : Blob.t) : string :=
  default "Transcription failed" (speechToText services audioBlob).

(** The text handed to translation: the transcript for audio, the typed
    text otherwise. *)
Definition textToTranslateOf (content : string) (md : Message) : string :=
  match type md with
  | Some MsgAudio => default "" (originalContent md)
  | _ => content
  end.

(** The text a send hands to translation: the transcript (or its
    placeholder) for a voice note, the typed text otherwise. *)
Definition inputText (services : Services) (content : string)
    (audioBlob : option Blob.t) : string :=
  match audioBlob with
  | Some b => transcriptOf services b
  | None => content
  end.

(** *** States *)

(** The guard of line 21: nothing to send, or no sender. *)
Definition nothingToSend (content : string) (file : option File.t)
    (audioBlob : option Blob.t) (userId : string) : bool :=
  (negb (truthy (trim content)) && negb (bool_decide (is_Some file))
     && negb (bool_decide (is_Some audioBlob)))
  || negb (truthy userId).

(** [messageData] as created at line 30. *)
Definition newMessage (userId chatId : string) : Message :=
  {| senderId := userId; timestamp := serverTimestamp; chatId := chatId;
     type := None; content := None; fileUrl := None; originalContent := None |}.

(** The sender's message charge, as the ledger answers it in state [w]. *)
Definition messageCharge {L} {ledger : UsageTracking L} (userId : string) (w : World L)
  : bool * L :=
  ledgerCheckAndIncrementUsage userId Messages (usage w).

(** The state after the message charge. *)
Definition charged {L} {ledger : UsageTracking L} (userId : string) (w : World L)
  : World L :=
  setUsage (messageCharge userId w).2 w.


(** The ledger after those charges. *)
Fixpoint afterFanOut {L} {ledger : UsageTracking L} (userId : string) (n : nat)
    (l : L) : L :=
  match n with
  | O => l
  | S n => afterFanOut userId n (ledgerCheckAndIncrementUsage userId Translations l).2
  end.

(** The answer of the ledger to the [k]-th (from 0) of successive translation
    charges of a user, from ledger state [l]. *)
Definition nthCharge {L} {ledger : UsageTracking L} (userId : string) (k : nat) (l : L)
  : bool :=
  (ledgerCheckAndIncrementUsage userId Translations (afterFanOut userId k l)).1.

(** The callbacks of a fan-out over [n] languages in the order the ledger
    answers their charges: a callback's charge is answered at the first step
    the schedule gives the callback. *)
Fixpoint serveOrder (n : nat) (served schedule : list nat) : list nat :=
  match schedule with
  | [] => served
  | i :: rest =>
      serveOrder n (if decide (i ∈ served \/ (n <= i)%nat) then served else served ++ [i])
                 rest
  end.

Definition chargeOrder (services : Services) (n : nat) : list nat :=
  serveOrder n [] (untilAllSettled services n).

(** What a step makes of the callback it advances, [answer] being what the
    ledger would answer a charge at that moment. *)
Definition advanced (c : Callback) (answer : bool) : Callback :=
  match c with
  | Charging lang => Answered lang answer
  | Answered lang true => Translating lang
  | Answered lang false => Completed lang false
  | Translating lang => Completed lang true
  | Completed lang b => Completed lang b
  end.

(** What holds of a fan-out over [langs], started from ledger state [l0], at
    every moment; [served] lists the callbacks whose charge has been
    answered, in the order of the answers. *)
Record FanOutInv {L} {ledger : UsageTracking L} (services : Services)
    (userId text : string) (langs : list string) (l0 : L) (served : list nat)
    (s : FanOut L) : Prop := {
  inv_langs : langOf <$> callbacks s = langs;
  inv_served : forall i,
    i ∈ served <-> exists c, callbacks s !! i = Some c /\ is_Some (answerOf c);
  inv_nodup : NoDup served;
  inv_ledger : ledgerNow s = afterFanOut userId (length served) l0;
  inv_answers : forall k i,
    served !! k = Some i ->
    exists c, callbacks s !! i = Some c /\ answerOf c = Some (nthCharge userId k l0);
  inv_proto : written s !! "__proto__" = None;
  inv_values : forall lang v,
    written s !! lang = Some v ->
    exists i b, callbacks s !! i = Some (Completed lang b)
                /\ v = if b then translationOf services text lang else text;
  inv_keys : forall i lang b,
    callbacks s !! i = Some (Completed lang b) -> lang <> "__proto__" ->
    is_Some (written s !! lang);
  inv_requests : Forall (fun e => isTranslate e = true) (requested s)
}.

(** The callbacks of index below [a] have completed. *)
Definition completedBelow {L} (a : nat) (s : FanOut L) : Prop :=
  forall j, (j < a)%nat -> (j < length (callbacks s))%nat ->
    exists lang b, callbacks s !! j = Some (Completed lang b).

(** Ledger state [l'] is reached from [l] through translation and
    AI-interaction charges of the user, granted or denied, and nothing
    else. *)
Inductive chargedOn {L} {ledger : UsageTracking L} (userId : string) (l : L)
  : L -> Prop :=
  | chargedOn_refl : chargedOn userId l l
  | chargedOn_step (r : Resource) (l' : L) :
      r <> Messages -> chargedOn userId l l' ->
      chargedOn userId l (ledgerCheckAndIncrementUsage userId r l').2.

(** The state after the message is appended. *)
Definition appended {L} (chatId : string) (m : Message) (w : World L) : World L :=
  setCollections
    (<[messagesPath chatId := default [] (collections w !! messagesPath chatId) ++ [m]]>
       (collections w)) w.

(** [w'] differs from [w] at most in the ledger. *)
Definition storesKept {L} (w w' : World L) : Prop :=
  blobs w' = blobs w /\ users w' = users w /\ collections w' = collections w.

(** ** Invitation acceptance ([AcceptInvitation]) *)

(** The component's [state]: 'loading', 'accepting', 'redirecting',
    'error'. *)
Inductive PageState := Loading | Accepting | Redirecting | Error.

(** [status] of [useSession()]. *)
Inductive SessionStatus := SessionLoading | Authenticated | Unauthenticated.

(** The two [useState] cells of the component. *)
Record Page := { state : PageState; error : string }.

Definition initialPage : Page := {| state := Loading; error := "" |}.

(** Firestore's [arrayUnion]: add the element unless it is already there. *)
Definition arrayUnion (x : string) (l : list string) : list string :=
  if decide (x ∈ l) then l else l ++ [x].

Definition isPrivate (t : ChatType) : bool :=
  match t with private => true | _ => false end.

Definition isAi (t : ChatType) : bool :=
  match t with ai => true | _ => false end.

(** What a rejected request throws: an [Error] with its message, or a value
    that is not an [Error]. *)
Inductive Thrown := ErrorWith (message : string) | NotAnError.

(** [error instanceof Error ? error.message : 'Failed to accept invitation'] *)
Definition messageOf (e : Thrown) : string :=
  match e with
  | ErrorWith message => message
  | NotAnError => "Failed to accept invitation"
  end.

(** [catch (error)] (lines 834-838): show the text and move to 'error'. *)
Definition caught (e : Thrown) : Page :=
  {| state := Error; error := messageOf e |}.

(** Where a run of [handleAcceptInvitation] stands: suspended at
    [await getDoc(chatRef)] (line 807), suspended at [await updateDoc(...)]
    (line 824), or returned. *)
Inductive Run :=
  | AwaitingGetDoc (chatId userId : string)
  | AwaitingUpdateDoc (chatId userId : string)
  | Returned.

(** [handleAcceptInvitation] from the call to its first [await] (lines
    801-807): the guard, [setState('accepting')] and the read request.  The
    result is the page, where the run stands, and the states set. *)
Definition handleAcceptInvitation (chatId : option string)
    (sessionUserId : option string) (page : Page)
  : Page * Run * list PageState :=
  match chatId, sessionUserId with
  | Some chatId, Some userId =>
      if negb (truthy userId) then (page, Returned, []) else
      ({| state := Accepting; error := error page |},
       AwaitingGetDoc chatId userId, [Accepting])
  | _, _ => (page, Returned, [])
  end.

(** The run resumes when the request it awaits settles (lines 809-838).
    [fault] is what the store rejects the request with, when it does.
    Otherwise the store carries the request out on the collection "chats" as
    it is at that moment: [getDoc] reads the document, and [updateDoc] with
    [arrayUnion] adds the user to the participants the document has then,
    whatever the run has read before.  An [updateDoc] for a document that is
    not there is not carried out: the store rejects it, which is a
    [fault]. *)
Definition resume (fault : option Thrown) (run : Run) (page : Page)
    (chats : gmap string ChatData)
  : Page * Run * gmap string ChatData * list PageState :=
  match run, fault with
  | Returned, _ => (page, Returned, chats, [])
  | _, Some e => (caught e, Returned, chats, [Error])
  | AwaitingGetDoc chatId userId, None =>
      match chats !! chatId with
      | None => (caught (ErrorWith "Invalid invitation"), Returned, chats, [Error])
      | Some chatData =>
          if isPrivate (chatType chatData)
             && (2 <=? length (participants chatData))%nat
          then (caught (ErrorWith "This private chat already has two members"),
                Returned, chats, [Error])
          else if isAi (chatType chatData)
          then (caught (ErrorWith "AI chats do not support invitations"),
                Returned, chats, [Error])
          else (page, AwaitingUpdateDoc chatId userId, chats, [])
      end
  | AwaitingUpdateDoc chatId userId, None =>
      match chats !! chatId with
      | Some chatData =>
          ({| state := Redirecting; error := error page |}, Returned,
           <[chatId := {| chatType := chatType chatData;
                          participants := arrayUnion userId (participants chatData) |}]>
             chats,
           [Redirecting])
      | None => (page, run, chats, [])
      end
  end.

(** A started run to its end when no other request reaches the store in
    between: its two requests settle one right after the other, the store
    rejecting the read with [getDocFault] and the update with
    [updateDocFault], if with anything.  The result is the page after the
    run, the collection after the run, and the states set on the way. *)
Definition settled (getDocFault updateDocFault : option Thrown)
    (started : Page * Run * list PageState) (chats : gmap string ChatData)
  : Page * gmap string ChatData * list PageState :=
  let read := resume getDocFault started.1.2 started.1.1 chats in
  let update := resume updateDocFault read.1.1.2 read.1.1.1 read.1.2 in
  (update.1.1.1, update.1.2, started.2 ++ read.2 ++ update.2).

Definition acceptAlone (getDocFault updateDocFault : option Thrown)
    (chatId : option string) (sessionUserId : option string) (page : Page)
    (chats : gmap string ChatData)
  : Page * gmap string ChatData * list PageState :=
  settled getDocFault updateDocFault (handleAcceptInvitation chatId sessionUserId page)
          chats.

(** An 'error' outcome of a run that has not touched the collection. *)
Definition failWith (message : string) (chats : gmap string ChatData)
  : Page * gmap string ChatData * list PageState :=
  ({| state := Error; error := message |}, chats, [Accepting; Error]).

(** The [useEffect] on [status] and [chatId] (lines 791-798): it calls the
    handler, or shows that the visitor must sign in. *)
Definition acceptEffect (status : SessionStatus) (chatId : option string)
    (sessionUserId : option string) (page : Page)
  : Page * Run * list PageState :=
  match status with
  | Authenticated =>
      if truthy (default "" chatId)
      then handleAcceptInvitation chatId sessionUserId page
      else (page, Returned, [])
  | Unauthenticated =>
      ({| state := Error; error := "You must be signed in to accept an invitation" |},
       Returned, [Error])
  | SessionLoading => (page, Returned, [])
  end.

(** The effect and the run it starts, when no other request reaches the
    store in between. *)
Definition visitAlone (getDocFault updateDocFault : option Thrown)
    (status : SessionStatus) (chatId : option string)
    (sessionUserId : option string) (page : Page) (chats : gmap string ChatData)
  : Page * gmap string ChatData * list PageState :=
  settled getDocFault updateDocFault (acceptEffect status chatId sessionUserId page)
          chats.

(** *** Visitors whose runs overlap

    Every visitor has a page of their own; the collection is shared.  The
    handlers are called when the pages mount; from then on the requests
    settle one at a time, in an order the code does not decide. *)

Record Visit := { visitPage : Page; visitRun : Run }.

(** A signed-in visitor opens the link: the handler runs to its first
    [await]. *)
Definition opened (visitor : option string * option string) : Visit :=
  let started := handleAcceptInvitation visitor.1 visitor.2 initialPage in
  {| visitPage := started.1.1; visitRun := started.1.2 |}.

(** The pending request of visitor [i] settles. *)
Definition settle (s : list Visit * gmap string ChatData)
    (step : nat * option Thrown) : list Visit * gmap string ChatData :=
  match s.1 !! step.1 with
  | Some v =>
      let r := resume step.2 (visitRun v) (visitPage v) s.2 in
      (<[step.1 := {| visitPage := r.1.1.1; visitRun := r.1.1.2 |}]> s.1, r.1.2)
  | None => s
  end.

(** The visitors open their links, given as token and user id, and the
    requests settle as the schedule says: each entry names a visitor, by
    index, and what the store rejects the request with, if with anything. *)
Definition acceptOverlapping (visitors : list (option string * option string))
    (schedule : list (nat * option Thrown)) (chats : gmap string ChatData)
  : list Visit * gmap string ChatData :=
  foldl settle (opened <$> visitors, chats) schedule.

(** The schedule of runs that do not overlap: the two requests of a visitor
    settle one right after the other. *)
Definition oneAfterTheOther (order : list (nat * option Thrown * option Thrown))
  : list (nat * option Thrown) :=
  order ≫= fun o => [(o.1.1, o.1.2); (o.1.1, o.2)].

(** Every private chat of the collection has at most two participants. *)
Definition privateWithinTwo (chats : gmap string ChatData) : Prop :=
  forall id chat,
    chats !! id = Some chat -> chatType chat = private ->
    (length (participants chat) <= 2)%nat.

(** ** Worked scenarios *)

(** A translation service that answers ["[lang] text"], and a transcription
    service that is unreachable. *)
Definition stubServices : Services :=
  {| dateNow := 1700000000000;
     downloadURLOf := fun path => "https://blobs.test/" +:+ path;
     speechToText := fun _ => None;
     translateApi := fun text lang => Some ("[" +:+ lang +:+ "] " +:+ text);
     settleOrder := [] |}.

(** The ledger of the design document with every user on the free tier. *)
#[global] Instance freeTierLedger : UsageTracking (gmap string UsageCounters) :=
  designLedger (fun _ => FREE_TIER_LIMITS).

(** Alice with the given usage; Bob prefers French, Carol has no preference. *)
Definition worldOf (u : UsageCounters) : World (gmap string UsageCounters) :=
  {| usage := {["alice" := u]};
     blobs := ∅;
     users := {["bob" := {| preferredLang := Some "fr" |};
               "carol" := {| preferredLang := None |}]};
     collections := ∅ |}.

Definition usageWith (m t a s : N) : UsageCounters :=
  {| usedMessages := m; usedTranslations := t; usedAiInteractions := a;
     fileStorageBytes := s |}.

Definition privateChat : ChatData :=
  {| chatType := private; participants := ["alice"; "bob"] |}.
Definition groupChat : ChatData :=
  {| chatType := group; participants := ["alice"; "bob"; "carol"] |}.
Definition aiChat : ChatData :=
  {| chatType := ai; participants := ["alice"] |}.

Definition voiceNote : Blob.t := {| Blob.size := 2048; Blob.type := "audio/webm" |}.
Definition bigFile : File.t :=
  {| File.name := "video.mp4"; File.size := 12 * 1024 * 1024; File.type := "video/mp4" |}.

(** A 12 MiB voice note from a user whose 50 MiB of storage are used up. *)
Definition largeVoiceNote : Blob.t :=
  {| Blob.size := 12 * 1024 * 1024; Blob.type := "audio/webm" |}.

Definition fullPrivateChats : gmap string ChatData :=
  {["c1" := {| chatType := private; participants := ["alice"; "bob"] |}]}.

Definition fanOutMessage : Message :=
  {| senderId := "alice"; timestamp := serverTimestamp; chatId := "g1";
     type := Some MsgText;
     content := Some (PerLanguage {["fr" := "[fr] hi"; "de" := "hi"; "es" := "hi"]});
     fileUrl := None; originalContent := None |}.

(** Alice, at 100 of 100 messages, sends "hi" into the private chat. *)
Definition sendAtMessageLimit :=
  sendMessage stubServices "hi" None None "c1" "alice" (Some privateChat) []
              (worldOf (usageWith 100 0 0 0)).

Definition audioOverQuota :=
  sendMessage stubServices "" None (Some largeVoiceNote) "c1" "alice"
              (Some privateChat) [] (worldOf (usageWith 0 0 0 (50 * 1024 * 1024))).

(** A voice note into the AI chat when the 20 AI interactions are used up. *)
Definition audioIntoExhaustedAiChat :=
  sendMessage stubServices "" None (Some voiceNote) "c1" "alice" (Some aiChat) []
              (worldOf (usageWith 0 0 20 0)).

(** The same voice note into the private chat: the send completes. *)
Definition audioWithoutTranscript :=
  sendMessage stubServices "" None (Some voiceNote) "c1" "alice"
              (Some privateChat) [] (worldOf noUsage).

(** Alice, with her 20 AI interactions used up, writes to the AI chat. *)
Definition textIntoExhaustedAiChat :=
  sendMessage stubServices "hi" None None "c1" "alice" (Some aiChat) []
              (worldOf (usageWith 3 0 20 0)).

(** Alice, with one translation left, writes "hi" to a group whose members
    read French, German and Spanish. *)
Definition groupSendWithOneUnitLeft :=
  sendMessage stubServices "hi" None None "g1" "alice" (Some groupChat)
              ["fr"; "de"; "es"] (worldOf (usageWith 0 49 0 0)).



(** The services when every charge of a fan-out is answered, in the order
    made, before any callback resumes; the callbacks then resume in array
    order and the translations arrive last. *)
Definition overlappingServices : Services :=
  {| dateNow := 1700000000000;
     downloadURLOf := fun path => "https://blobs.test/" +:+ path;
     speechToText := fun _ => None;
     translateApi := fun text lang => Some ("[" +:+ lang +:+ "] " +:+ text);
     settleOrder := [0; 1; 2; 0; 1; 2; 0; 1; 2]%nat |}.

(** ** Further notions for the dispatcher *)

(** The type the payload branch gives the message: audio when a blob is
    supplied, else image or file by the file's MIME type, else text. *)
Definition payloadType (file : option File.t) (audioBlob : option Blob.t)
  : MessageType :=
  match audioBlob, file with
  | Some _, _ => MsgAudio
  | None, Some f => if startsWith "image/" (File.type f) then MsgImage else MsgFile
  | None, None => MsgText
  end.

(** The translation step finds nobody to translate for: there is no chat
    record, or the chat is private and either has no participant other than
    the sender, or that participant's id is empty, or has no profile. *)
Definition recipientUnknown {L} (userId : string) (chatData : option ChatData)
    (w : World L) : Prop :=
  match chatData with
  | None => True
  | Some chat =>
      chatType chat = private
      /\ match find (fun p => negb (String.eqb p userId)) (participants chat) with
         | None => True
         | Some other => other = "" \/ users w !! other = None
         end
  end.

(** A translation service that is down. *)
Definition offlineServices : Services :=
  {| dateNow := 1700000000000;
     downloadURLOf := fun path => "https://blobs.test/" +:+ path;
     speechToText := fun _ => None;
     translateApi := fun _ _ => None;
     settleOrder := [] |}.

(** A picture of exactly 10 MiB. *)
Definition tenMiBPicture : File.t :=
  {| File.name := "photo.png"; File.size := 10 * 1024 * 1024; File.type := "image/png" |}.

(** A private chat Alice is alone in, and one with a member who has no
    profile. *)
Definition soloChat : ChatData :=
  {| chatType := private; participants := ["alice"] |}.
Definition chatWithStranger : ChatData :=
  {| chatType := private; participants := ["alice"; "dave"] |}.

(** *** A series of sends *)

(** The arguments of one call of [sendMessage], with the services as they
    are at the time of the call. *)
Record SendArgs := {
  argServices : Services;
  argContent : string;
  argFile : option File.t;
  argAudioBlob : option Blob.t;
  argChatId : string;
  argUserId : string;
  argChatData : option ChatData;
  argParticipantLanguages : list string
}.

(** The sends one after the other, whether they complete or fail. *)
Fixpoint sendAll {L} {ledger : UsageTracking L} (sends : list SendArgs) (w : World L)
  : World L :=
  match sends with
  | [] => w
  | s :: rest =>
      sendAll rest
        (final (sendMessage (argServices s) (argContent s) (argFile s) (argAudioBlob s)
                  (argChatId s) (argUserId s) (argChatData s)
                  (argParticipantLanguages s) w))
  end.

(** No counter of a metered resource is above its limit. *)
Definition withinLimits {L} {ledger : UsageTracking L} {contract : UsageContract L}
    (l : L) : Prop :=
  forall userId r, usedOf userId r l <= limitFor userId r.

(** ** What the invitation page shows ([renderContent]) *)

Definition renderContent (page : Page) : string :=
  match state page with
  | Loading => "Loading..."
  | Accepting => "Accepting invitation..."
  | Redirecting => "Invitation accepted! Redirecting to chat..."
  | Error => error page
  end.


(** A visit is not suspended at its [updateDoc]: no write of its run is
    pending. *)
Definition betweenRuns (v : Visit) : Prop :=
  match visitRun v with
  | AwaitingUpdateDoc _ _ => False
  | _ => True
  end.

(** No write of the visit's run to chat [id] is pending. *)
Definition notUpdating (id : string) (v : Visit) : Prop :=
  forall uid, visitRun v <> AwaitingUpdateDoc id uid.


(** A group that already has the five members of the free tier's
    [maxGroupMembers], a private chat with its creator only, and an AI
    chat. *)
Definition invitationChats : gmap string ChatData :=
  {["g1" := {| chatType := group;
               participants := ["alice"; "bob"; "carol"; "dave"; "erin"] |};
    "p1" := {| chatType := private; participants := ["alice"] |};
    "a1" := {| chatType := ai; participants := ["alice"] |}]}.

(** Two visitors open the link of a private chat that has its creator only;
    both reads are answered before either update. *)
Definition twoVisitors : list (option string * option string) :=
  [(Some "p1", Some "bob"); (Some "p1", Some "carol")].

Definition bothReadFirst : list (nat * option Thrown) :=
  [(0, None); (1, None); (0, None); (1, None)]%nat.

(** ** Chat creation ([CreateNewChat]) *)

(** [s.split(sep)] for a one-character separator: the segments between the
    separators, at least one. *)
Fixpoint split (sep : ascii) (s : string) : list string :=
  match s with
  | EmptyString => [EmptyString]
  | String c r =>
      if Ascii.eqb c sep then EmptyString :: split sep r
      else match split sep r with
           | segment :: segments => String c segment :: segments
           | [] => [String c EmptyString]
           end
  end.

(** [array.pop()]: the last element, [undefined] for the empty array. *)
Definition pop (l : list string) : option string := last l.

Module User.
(** [interface User] of the dialog: a profile found by the search, with the
    id of its document (the profile data carry no [id] field of their
    own). *)
Record t := { id : string; username : string; email : string }.
End User.

Module ChatDoc.
(** A document of the collection "chats", as the dialog writes it: [name]
    is set for group chats and [aiModel] for AI chats only. *)
Record t := {
  type : ChatType;
  participants : list string;
  createdAt : Timestamp;
  createdBy : string;
  name : option string;
  aiModel : option string
}.
End ChatDoc.

Module Invitation.
(** A document of the collection "invitations". *)
Record t := { chatId : string; email : string; sentAt : Timestamp }.
End Invitation.

(** The searched field: 'username' or 'email'. *)
Inductive SearchType := ByUsername | ByEmail.

Module Dialog.
(** The [useState] cells of the dialog that its handlers read or write
    ([linkCopied], which only the clipboard button uses, is left out). *)
Record t := {
  searchTerm : string;
  searchType : SearchType;
  selectedUsers : list User.t;
  groupName : string;
  inviteEmail : string;
  showInvite : bool;
  chatLink : string;
  isLoading : bool;
  error : option string;
  createWithoutUsers : bool;
  successMessage : string
}.

(** The cells as [useState] initialises them. *)
Definition initial : t :=
  {| searchTerm := ""; searchType := ByUsername; selectedUsers := [];
     groupName := ""; inviteEmail := ""; showInvite := false; chatLink := "";
     isLoading := false; error := None; createWithoutUsers := false;
     successMessage := "" |}.
End Dialog.

Module Firestore.
(** The three collections the dialog works on.  The profiles are listed in
    the order a query returns them (by document id). *)
Record t := {
  users : list User.t;
  chats : gmap string ChatDoc.t;
  invitations : list Invitation.t
}.
End Firestore.

Module Props.
(** What the dialog is given: its [chatType] prop, the id of the session's
    user ([session?.user?.id]), [window.location.origin], and the id the
    client picks for a new chat document. *)
Record t := {
  chatType : ChatType;
  sessionUserId : option string;
  origin : string;
  newDocId : gmap string ChatDoc.t -> string
}.
End Props.

(** The dialog in its surroundings: its cells, the database, the outcome of
    the coming database requests ([true]: the request is rejected; when the
    list is used up, requests succeed), and how often [onClose] was called. *)
Record DialogWorld := {
  dialog : Dialog.t;
  db : Firestore.t;
  faults : list bool;
  closeCalls : nat
}.

Definition withDialog (f : Dialog.t -> Dialog.t) (w : DialogWorld) : DialogWorld :=
  {| dialog := f (dialog w); db := db w; faults := faults w;
     closeCalls := closeCalls w |}.

Definition withDb (f : Firestore.t -> Firestore.t) (w : DialogWorld) : DialogWorld :=
  {| dialog := dialog w; db := f (db w); faults := faults w;
     closeCalls := closeCalls w |}.

(** The [set...] functions of the cells. *)
Definition setSearchTerm (v : string) : DialogWorld -> DialogWorld :=
  withDialog (fun d =>
    {| Dialog.searchTerm := v; Dialog.searchType := Dialog.searchType d;
       Dialog.selectedUsers := Dialog.selectedUsers d;
       Dialog.groupName := Dialog.groupName d; Dialog.inviteEmail := Dialog.inviteEmail d;
       Dialog.showInvite := Dialog.showInvite d; Dialog.chatLink := Dialog.chatLink d;
       Dialog.isLoading := Dialog.isLoading d; Dialog.error := Dialog.error d;
       Dialog.createWithoutUsers := Dialog.createWithoutUsers d;
       Dialog.successMessage := Dialog.successMessage d |}).

Definition setSearchType (v : SearchType) : DialogWorld -> DialogWorld :=
  withDialog (fun d =>
    {| Dialog.searchTerm := Dialog.searchTerm d; Dialog.searchType := v;
       Dialog.selectedUsers := Dialog.selectedUsers d;
       Dialog.groupName := Dialog.groupName d; Dialog.inviteEmail := Dialog.inviteEmail d;
       Dialog.showInvite := Dialog.showInvite d; Dialog.chatLink := Dialog.chatLink d;
       Dialog.isLoading := Dialog.isLoading d; Dialog.error := Dialog.error d;
       Dialog.createWithoutUsers := Dialog.createWithoutUsers d;
       Dialog.successMessage := Dialog.successMessage d |}).

Definition setSelectedUsers (v : list User.t) : DialogWorld -> DialogWorld :=
  withDialog (fun d =>
    {| Dialog.searchTerm := Dialog.searchTerm d; Dialog.searchType := Dialog.searchType d;
       Dialog.selectedUsers := v;
       Dialog.groupName := Dialog.groupName d; Dialog.inviteEmail := Dialog.inviteEmail d;
       Dialog.showInvite := Dialog.showInvite d; Dialog.chatLink := Dialog.chatLink d;
       Dialog.isLoading := Dialog.isLoading d; Dialog.error := Dialog.error d;
       Dialog.createWithoutUsers := Dialog.createWithoutUsers d;
       Dialog.successMessage := Dialog.successMessage d |}).

Definition setGroupName (v : string) : DialogWorld -> DialogWorld :=
  withDialog (fun d =>
    {| Dialog.searchTerm := Dialog.searchTerm d; Dialog.searchType := Dialog.searchType d;
       Dialog.selectedUsers := Dialog.selectedUsers d;
       Dialog.groupName := v; Dialog.inviteEmail := Dialog.inviteEmail d;
       Dialog.showInvite := Dialog.showInvite d; Dialog.chatLink := Dialog.chatLink d;
       Dialog.isLoading := Dialog.isLoading d; Dialog.error := Dialog.error d;
       Dialog.createWithoutUsers := Dialog.createWithoutUsers d;
       Dialog.successMessage := Dialog.successMessage d |}).

Definition setInviteEmail (v : string) : DialogWorld -> DialogWorld :=
  withDialog (fun d =>
    {| Dialog.searchTerm := Dialog.searchTerm d; Dialog.searchType := Dialog.searchType d;
       Dialog.selectedUsers := Dialog.selectedUsers d;
       Dialog.groupName := Dialog.groupName d; Dialog.inviteEmail := v;
       Dialog.showInvite := Dialog.showInvite d; Dialog.chatLink := Dialog.chatLink d;
       Dialog.isLoading := Dialog.isLoading d; Dialog.error := Dialog.error d;
       Dialog.createWithoutUsers := Dialog.createWithoutUsers d;
       Dialog.successMessage := Dialog.successMessage d |}).

Definition setShowInvite (v : bool) : DialogWorld -> DialogWorld :=
  withDialog (fun d =>
    {| Dialog.searchTerm := Dialog.searchTerm d; Dialog.searchType := Dialog.searchType d;
       Dialog.selectedUsers := Dialog.selectedUsers d;
       Dialog.groupName := Dialog.groupName d; Dialog.inviteEmail := Dialog.inviteEmail d;
       Dialog.showInvite := v; Dialog.chatLink := Dialog.chatLink d;
       Dialog.isLoading := Dialog.isLoading d; Dialog.error := Dialog.error d;
       Dialog.createWithoutUsers := Dialog.createWithoutUsers d;
       Dialog.successMessage := Dialog.successMessage d |}).

Definition setChatLink (v : string) : DialogWorld -> DialogWorld :=
  withDialog (fun d =>
    {| Dialog.searchTerm := Dialog.searchTerm d; Dialog.searchType := Dialog.searchType d;
       Dialog.selectedUsers := Dialog.selectedUsers d;
       Dialog.groupName := Dialog.groupName d; Dialog.inviteEmail := Dialog.inviteEmail d;
       Dialog.showInvite := Dialog.showInvite d; Dialog.chatLink := v;
       Dialog.isLoading := Dialog.isLoading d; Dialog.error := Dialog.error d;
       Dialog.createWithoutUsers := Dialog.createWithoutUsers d;
       Dialog.successMessage := Dialog.successMessage d |}).

Definition setIsLoading (v : bool) : DialogWorld -> DialogWorld :=
  withDialog (fun d =>
    {| Dialog.searchTerm := Dialog.searchTerm d; Dialog.searchType := Dialog.searchType d;
       Dialog.selectedUsers := Dialog.selectedUsers d;
       Dialog.groupName := Dialog.groupName d; Dialog.inviteEmail := Dialog.inviteEmail d;
       Dialog.showInvite := Dialog.showInvite d; Dialog.chatLink := Dialog.chatLink d;
       Dialog.isLoading := v; Dialog.error := Dialog.error d;
       Dialog.createWithoutUsers := Dialog.createWithoutUsers d;
       Dialog.successMessage := Dialog.successMessage d |}).

Definition setError (v : option string) : DialogWorld -> DialogWorld :=
  withDialog (fun d =>
    {| Dialog.searchTerm := Dialog.searchTerm d; Dialog.searchType := Dialog.searchType d;
       Dialog.selectedUsers := Dialog.selectedUsers d;
       Dialog.groupName := Dialog.groupName d; Dialog.inviteEmail := Dialog.inviteEmail d;
       Dialog.showInvite := Dialog.showInvite d; Dialog.chatLink := Dialog.chatLink d;
       Dialog.isLoading := Dialog.isLoading d; Dialog.error := v;
       Dialog.createWithoutUsers := Dialog.createWithoutUsers d;
       Dialog.successMessage := Dialog.successMessage d |}).

Definition setCreateWithoutUsers (v : bool) : DialogWorld -> DialogWorld :=
  withDialog (fun d =>
    {| Dialog.searchTerm := Dialog.searchTerm d; Dialog.searchType := Dialog.searchType d;
       Dialog.selectedUsers := Dialog.selectedUsers d;
       Dialog.groupName := Dialog.groupName d; Dialog.inviteEmail := Dialog.inviteEmail d;
       Dialog.showInvite := Dialog.showInvite d; Dialog.chatLink := Dialog.chatLink d;
       Dialog.isLoading := Dialog.isLoading d; Dialog.error := Dialog.error d;
       Dialog.createWithoutUsers := v;
       Dialog.successMessage := Dialog.successMessage d |}).

Definition setSuccessMessage (v : string) : DialogWorld -> DialogWorld :=
  withDialog (fun d =>
    {| Dialog.searchTerm := Dialog.searchTerm d; Dialog.searchType := Dialog.searchType d;
       Dialog.selectedUsers := Dialog.selectedUsers d;
       Dialog.groupName := Dialog.groupName d; Dialog.inviteEmail := Dialog.inviteEmail d;
       Dialog.showInvite := Dialog.showInvite d; Dialog.chatLink := Dialog.chatLink d;
       Dialog.isLoading := Dialog.isLoading d; Dialog.error := Dialog.error d;
       Dialog.createWithoutUsers := Dialog.createWithoutUsers d;
       Dialog.successMessage := v |}).

(** [onClose()] *)
Definition onClose (w : DialogWorld) : DialogWorld :=
  {| dialog := dialog w; db := db w; faults := faults w;
     closeCalls := S (closeCalls w) |}.

(** *** Database requests

    A step inside a [try] block either yields a value or throws. *)
Definition Try (A : Type) : Type := DialogWorld -> option A * DialogWorld.

Definition tryBind {A B} (m : Try A) (k : A -> Try B) : Try B := fun w =>
  match m w with
  | (Some a, w1) => k a w1
  | (None, w1) => (None, w1)
  end.

Notation "x <~ c ;; k" := (tryBind c (fun x => k))
  (at level 100, c at next level, right associativity).
Notation "c ~;; k" := (tryBind c (fun _ => k))
  (at level 100, right associativity).

(** A state update, which cannot throw. *)
Definition does (f : DialogWorld -> DialogWorld) : Try unit :=
  fun w => (Some tt, f w).

(** Reading a field of [undefined] throws. *)
Definition throws {A} : Try A := fun w => (None, w).

(** The database answers or rejects the next request. *)
Definition request : Try unit := fun w =>
  match faults w with
  | [] => (Some tt, w)
  | rejected :: rest =>
      (if rejected : bool then None else Some tt,
       {| dialog := dialog w; db := db w; faults := rest; closeCalls := closeCalls w |})
  end.

(** [getDocs(query(collection(db, 'users'), where(field, '==', term)))] *)
Definition getUsersWhere (field : SearchType) (term : string) : Try (list User.t) :=
  request ~;;
  fun w =>
    (Some (List.filter (fun u => String.eqb (match field with
                                             | ByUsername => User.username u
                                             | ByEmail => User.email u
                                             end) term)
                       (Firestore.users (db w))), w).

(** [addDoc(collection(db, 'chats'), chatData)], yielding the new id. *)
Definition addChat (props : Props.t) (chatData : ChatDoc.t) : Try string :=
  request ~;;
  fun w =>
    let id := Props.newDocId props (Firestore.chats (db w)) in
    (Some id,
     withDb (fun s => {| Firestore.users := Firestore.users s;
                         Firestore.chats := <[id := chatData]> (Firestore.chats s);
                         Firestore.invitations := Firestore.invitations s |}) w).

(** [addDoc(collection(db, 'invitations'), invitation)] *)
Definition addInvitation (invitation : Invitation.t) : Try unit :=
  request ~;;
  does (withDb (fun s => {| Firestore.users := Firestore.users s;
                            Firestore.chats := Firestore.chats s;
                            Firestore.invitations :=
                              Firestore.invitations s ++ [invitation] |})).

(** [updateDoc(doc(db, 'chats', chatId), { participants: arrayUnion(userId) })];
    it is rejected when the document does not exist. *)
Definition addParticipant (chatId userId : string) : Try unit :=
  request ~;;
  fun w =>
    match Firestore.chats (db w) !! chatId with
    | Some c =>
        (Some tt,
         withDb (fun s =>
           {| Firestore.users := Firestore.users s;
              Firestore.chats :=
                <[chatId := {| ChatDoc.type := ChatDoc.type c;
                               ChatDoc.participants :=
                                 arrayUnion userId (ChatDoc.participants c);
                               ChatDoc.createdAt := ChatDoc.createdAt c;
                               ChatDoc.createdBy := ChatDoc.createdBy c;
                               ChatDoc.name := ChatDoc.name c;
                               ChatDoc.aiModel := ChatDoc.aiModel c |}]>
                  (Firestore.chats s);
              Firestore.invitations := Firestore.invitations s |}) w)
    | None => (None, w)
    end.

(** *** The handlers *)

Definition isGroup (t : ChatType) : bool :=
  match t with group => true | _ => false end.

(** The session's user id when it is present and not empty. *)
Definition signedIn (props : Props.t) : option string :=
  match Props.sessionUserId props with
  | Some id => if truthy id then Some id else None
  | None => None
  end.

(** [`${window.location.origin}/invite?token=${chatId}`] and
    [`${window.location.origin}/chat/${chatId}`] *)
Definition invitationLinkOf (props : Props.t) (chatId : string) : string :=
  Props.origin props +:+ "/invite?token=" +:+ chatId.

Definition chatLinkOf (props : Props.t) (chatId : string) : string :=
  Props.origin props +:+ "/chat/" +:+ chatId.

#[global] Arguments invitationLinkOf : simpl never.
#[global] Arguments chatLinkOf : simpl never.

(** [handleSelectUser] *)
Definition handleSelectUser (user : User.t) (w : DialogWorld) : DialogWorld :=
  let selectedUsers := Dialog.selectedUsers (dialog w) in
  let w :=
    if negb (existsb (fun u => String.eqb (User.id u) (User.id user)) selectedUsers)
    then setSelectedUsers (selectedUsers ++ [user]) w
    else w in
  setShowInvite false w.

(** [handleRemoveUser] *)
Definition handleRemoveUser (userId : string) (w : DialogWorld) : DialogWorld :=
  setSelectedUsers
    (List.filter (fun user => negb (String.eqb (User.id user) userId))
                 (Dialog.selectedUsers (dialog w))) w.

(** [handleSearch].  It has no [try]: a rejected query rejects the handler
    and leaves the cells as they were ([None]). *)
Definition handleSearch (props : Props.t) : Try unit := fun w =>
  let searchTerm := Dialog.searchTerm (dialog w) in
  let searchType := Dialog.searchType (dialog w) in
  if negb (truthy searchTerm) then (Some tt, w) else
  (docs <~ getUsersWhere searchType searchTerm ;;
   does (fun w =>
     let w :=
       match docs with
       | user :: _ =>
           if negb (bool_decide (Some (User.id user) = Props.sessionUserId props))
           then handleSelectUser user w
           else w
       | [] =>
           setInviteEmail (match searchType with
                           | ByEmail => searchTerm
                           | ByUsername => ""
                           end)
                          (setShowInvite true w)
       end in
     setSearchTerm "" w)) w.

(** [sendInvitation]: the invitation records the last segment of the link as
    its [chatId]. *)
Definition sendInvitation (link email : string) : Try unit :=
  addInvitation {| Invitation.chatId := default "" (pop (split "/" link));
                   Invitation.email := email;
                   Invitation.sentAt := serverTimestamp |}.

(** [handleInvite]: [try] / [catch] / [finally] around the two writes. *)
Definition handleInvite (props : Props.t) (w : DialogWorld) : DialogWorld :=
  let inviteEmail := Dialog.inviteEmail (dialog w) in
  match signedIn props with
  | None => w
  | Some me =>
      let w := setIsLoading true w in
      let attempt :=
        chatId <~ addChat props
                    {| ChatDoc.type := private; ChatDoc.participants := [me];
                       ChatDoc.createdAt := serverTimestamp; ChatDoc.createdBy := me;
                       ChatDoc.name := None; ChatDoc.aiModel := None |} ;;
        let invitationLink := invitationLinkOf props chatId in
        sendInvitation invitationLink inviteEmail ~;;
        does (setChatLink invitationLink) ~;;
        does (setShowInvite false) ~;;
        does onClose in
      let w :=
        match attempt w with
        | (Some _, w) => w
        | (None, w) => setError (Some "Failed to send invitation. Please try again.") w
        end in
      setIsLoading false w
  end.

(** [for (const user of selectedUsers) await sendInvitation(link, user.email)] *)
Fixpoint sendInvitations (link : string) (users : list User.t) : Try unit :=
  match users with
  | [] => does (fun w => w)
  | user :: rest => sendInvitation link (User.email user) ~;; sendInvitations link rest
  end.

(** [handleCreateChat] *)
Definition handleCreateChat (props : Props.t) (w : DialogWorld) : DialogWorld :=
  let chatType := Props.chatType props in
  let selectedUsers := Dialog.selectedUsers (dialog w) in
  let showInvite := Dialog.showInvite (dialog w) in
  let createWithoutUsers := Dialog.createWithoutUsers (dialog w) in
  let groupName := Dialog.groupName (dialog w) in
  match signedIn props with
  | None => w
  | Some me =>
      if isPrivate chatType && negb (length selectedUsers =? 1)%nat
         && negb showInvite && negb createWithoutUsers then w else
      if isGroup chatType && (length selectedUsers =? 0)%nat
         && negb createWithoutUsers then w else
      let w := setIsLoading true w in
      let attempt : Try unit :=
        if isPrivate chatType && showInvite then does (handleInvite props) else
        chatId <~ addChat props
                    {| ChatDoc.type := chatType; ChatDoc.participants := [me];
                       ChatDoc.createdAt := serverTimestamp; ChatDoc.createdBy := me;
                       ChatDoc.name :=
                         if isGroup chatType
                         then Some (orElse (Some groupName) "New Group Chat") else None;
                       ChatDoc.aiModel :=
                         if isAi chatType then Some "gpt-3.5-turbo" else None |} ;;
        let invitationLink := invitationLinkOf props chatId in
        (if isPrivate chatType && (length selectedUsers =? 1)%nat
            && negb createWithoutUsers
         then
           match selectedUsers !! 0%nat with
           | Some user => addParticipant chatId (User.id user)
           | None => throws
           end ~;;
           does (setChatLink (chatLinkOf props chatId))
         else
           does (setChatLink invitationLink) ~;;
           if negb createWithoutUsers
           then sendInvitations invitationLink selectedUsers
           else does (fun w => w)) ~;;
        does (setSuccessMessage "Chat created successfully!") in
      let w :=
        match attempt w with
        | (Some _, w) => w
        | (None, w) => setError (Some "Failed to create chat. Please try again.") w
        end in
      setIsLoading false w
  end.

(** *** The dialog's controls

    What the user can do in the dialog, and when the control for it is
    rendered (and enabled). *)
Inductive Action :=
  | TypeSearchTerm (text : string)
  | ChooseSearchType (field : SearchType)
  | TypeGroupName (text : string)
  | TypeInviteEmail (text : string)
  | TickCreateWithoutUsers (checked : bool)
  | ClickAdd
  | ClickRemove (userId : string)
  | ClickInvite
  | ClickCreate.

Definition rendered (props : Props.t) (d : Dialog.t) (a : Action) : bool :=
  match a with
  | TypeGroupName _ => isGroup (Props.chatType props)
  | TypeSearchTerm _ | ChooseSearchType _ | TickCreateWithoutUsers _ | ClickAdd =>
      negb (isAi (Props.chatType props))
  | TypeInviteEmail _ | ClickInvite =>
      negb (isAi (Props.chatType props)) && Dialog.showInvite d
  | ClickRemove userId =>
      negb (isAi (Props.chatType props))
      && existsb (fun user => String.eqb (User.id user) userId) (Dialog.selectedUsers d)
  | ClickCreate => negb (truthy (Dialog.chatLink d)) && negb (Dialog.isLoading d)
  end.

(** The event handler behind each control. *)
Definition perform (props : Props.t) (a : Action) (w : DialogWorld) : DialogWorld :=
  if rendered props (dialog w) a then
    match a with
    | TypeSearchTerm text => setSearchTerm text w
    | ChooseSearchType field => setSearchType field w
    | TypeGroupName text => setGroupName text w
    | TypeInviteEmail text => setInviteEmail text w
    | TickCreateWithoutUsers checked => setCreateWithoutUsers checked w
    | ClickAdd => (handleSearch props w).2
    | ClickRemove userId => handleRemoveUser userId w
    | ClickInvite => handleInvite props w
    | ClickCreate => handleCreateChat props w
    end
  else w.

(** A session with the dialog: the actions one after the other. *)
Definition interact (props : Props.t) (actions : list Action) (w : DialogWorld)
  : DialogWorld :=
  fold_left (fun w a => perform props a w) actions w.

(** *** Notions used to state the properties of the dialog *)

(** The character occurs in the string. *)
Fixpoint occurs (c : ascii) (s : string) : bool :=
  match s with
  | EmptyString => false
  | String c' r => Ascii.eqb c' c || occurs c r
  end.

(** No selected user occurs twice, and the session's user is not selected. *)
Definition cleanSelection (props : Props.t) (d : Dialog.t) : Prop :=
  NoDup (User.id <$> Dialog.selectedUsers d)
  /\ forall me, Props.sessionUserId props = Some me ->
                me ∉ User.id <$> Dialog.selectedUsers d.

(** The [ChatData] an invitation page reads from a chat document. *)
Definition chatDataOf (c : ChatDoc.t) : ChatData :=
  {| chatType := ChatDoc.type c; participants := ChatDoc.participants c |}.

(** The chat document [handleCreateChat] writes first. *)
Definition newChatDoc (props : Props.t) (me : string) (d : Dialog.t) : ChatDoc.t :=
  {| ChatDoc.type := Props.chatType props; ChatDoc.participants := [me];
     ChatDoc.createdAt := serverTimestamp; ChatDoc.createdBy := me;
     ChatDoc.name :=
       if isGroup (Props.chatType props)
       then Some (orElse (Some (Dialog.groupName d)) "New Group Chat") else None;
     ChatDoc.aiModel :=
       if isAi (Props.chatType props) then Some "gpt-3.5-turbo" else None |}.

(** The chat document [handleInvite] writes. *)
Definition invitedChatDoc (me : string) : ChatDoc.t :=
  {| ChatDoc.type := private; ChatDoc.participants := [me];
     ChatDoc.createdAt := serverTimestamp; ChatDoc.createdBy := me;
     ChatDoc.name := None; ChatDoc.aiModel := None |}.

(** [handleCreateChat] gets past its guards. *)
Definition createGuardsPass (props : Props.t) (d : Dialog.t) : bool :=
  bool_decide (is_Some (signedIn props))
  && negb (isPrivate (Props.chatType props)
           && negb (length (Dialog.selectedUsers d) =? 1)%nat
           && negb (Dialog.showInvite d) && negb (Dialog.createWithoutUsers d))
  && negb (isGroup (Props.chatType props)
           && (length (Dialog.selectedUsers d) =? 0)%nat
           && negb (Dialog.createWithoutUsers d)).

(** Every private chat document has at most two participants. *)
Definition privateDocsWithinTwo (chats : gmap string ChatDoc.t) : Prop :=
  forall id c,
    chats !! id = Some c -> ChatDoc.type c = private ->
    (length (ChatDoc.participants c) <= 2)%nat.

(** The invitation [sendInvitation] writes for a link and an address. *)
Definition invitationFor (link email : string) : Invitation.t :=
  {| Invitation.chatId := default "" (pop (split "/" link));
     Invitation.email := email;
     Invitation.sentAt := serverTimestamp |}.

(** What one run of a handler may have written: at most one chat document,
    under the id picked for it, created by [me] with [me] as its first
    participant and at most one more; and invitations, each for the link of
    that chat document. *)
Definition wroteAtMostOneChat (props : Props.t) (w w' : DialogWorld) : Prop :=
  let chatId := Props.newDocId props (Firestore.chats (db w)) in
  Firestore.users (db w') = Firestore.users (db w)
  /\ (Firestore.chats (db w') = Firestore.chats (db w)
      \/ exists me c,
           signedIn props = Some me
           /\ Firestore.chats (db w') = <[chatId := c]> (Firestore.chats (db w))
           /\ ChatDoc.createdBy c = me
           /\ (ChatDoc.participants c = [me]
               \/ exists other, ChatDoc.type c = private
                                /\ ChatDoc.participants c = arrayUnion other [me]))
  /\ exists sent,
       Firestore.invitations (db w')
       = Firestore.invitations (db w)
         ++ (invitationFor (invitationLinkOf props chatId) <$> sent)
       /\ (sent <> [] -> is_Some (Firestore.chats (db w') !! chatId)).

(** *** A dialog to work with

    Alice is signed in; Bob and Carol have profiles. *)
Definition bobProfile : User.t :=
  {| User.id := "bob"; User.username := "bob"; User.email := "bob@nimbus.test" |}.

Definition carolProfile : User.t :=
  {| User.id := "carol"; User.username := "carol"; User.email := "carol@nimbus.test" |}.

Definition dialogProps (chatType : ChatType) : Props.t :=
  {| Props.chatType := chatType; Props.sessionUserId := Some "alice";
     Props.origin := "https://nimbus.test"; Props.newDocId := fun _ => "c1" |}.

Definition openedDialog (faults : list bool) : DialogWorld :=
  {| dialog := Dialog.initial;
     db := {| Firestore.users := [bobProfile; carolProfile];
              Firestore.chats := ∅; Firestore.invitations := [] |};
     faults := faults; closeCalls := 0 |}.

(** Alice has searched for Bob and added him. *)
Definition bobSelected (faults : list bool) : DialogWorld :=
  interact (dialogProps private) [TypeSearchTerm "bob"; ClickAdd] (openedDialog faults).

(** Alice has added Bob and Carol to a group named "Team". *)
Definition teamSelected : DialogWorld :=
  interact (dialogProps group)
    [TypeGroupName "Team"; TypeSearchTerm "bob"; ClickAdd;
     ChooseSearchType ByEmail; TypeSearchTerm "carol@nimbus.test"; ClickAdd]
    (openedDialog []).

(** Alice has searched for an address nobody has: the invitation box is
    open, with the address filled in. *)
Definition strangerSearched : DialogWorld :=
  interact (dialogProps private)
    [ChooseSearchType ByEmail; TypeSearchTerm "dave@nimbus.test"; ClickAdd]
    (openedDialog []).

(** ** Grouping the messages of a chat by day ([MessageList]) *)

Section MessageList.

(** A listed message and a JS [Date]; [toDate] is
    [message.timestamp?.toDate()] (nothing while the timestamp is pending)
    and [format] is date-fns' [format(date, 'yyyy-MM-dd')]. *)
Context {M Date : Type}.
Variable toDate : M -> option Date.
Variable format : Date -> string.

(** [groups[key].push(message)], after [groups[key] = []] when the key is
    new.  The keys are day stamps such as "2024-05-01", not array indices,
    so the object's entries keep the order in which the keys were added. *)
Fixpoint pushTo (key : string) (message : M) (groups : list (string * list M))
  : list (string * list M) :=
  match groups with
  | [] => [(key, [message])]
  | (k, ms) :: rest =>
      if String.eqb k key then (k, ms ++ [message]) :: rest
      else (k, ms) :: pushTo key message rest
  end.

(** [groupMessagesByDay], as the list of [Object.entries(groups)]. *)
Definition groupMessagesByDay (messages : list M) : list (string * list M) :=
  fold_left (fun groups message =>
               match toDate message with
               | Some date => pushTo (format date) message groups
               | None => groups
               end) messages [].

(** The day a message is listed under, if it has a date. *)
Definition dayKey (message : M) : option string := format <$> toDate message.

Definition isOfDay (key : string) (message : M) : bool :=
  bool_decide (dayKey message = Some key).

Definition hasDate (message : M) : bool := bool_decide (is_Some (toDate message)).

(** The entries are those of the messages seen so far: the keys are
    distinct, each entry lists the messages of its day in the order they
    came, and every day seen has an entry. *)
Definition groupsOf (seen : list M) (groups : list (string * list M)) : Prop :=
  NoDup groups.*1
  /\ Forall (fun entry => entry.2 <> [] /\ entry.2 = List.filter (isOfDay entry.1) seen)
            groups
  /\ forall message key, message ∈ seen -> dayKey message = Some key -> key ∈ groups.*1.

End MessageList.

(** ** The message input ([MessageInput]) *)

Module MessageInput.
(** The cells of the input box, and the files chosen in its hidden file
    input ([fileInputRef.current?.files], empty while nothing is chosen). *)
Record t := {
  message : string;
  isSending : bool;
  isRecording : bool;
  isAudioSending : bool;
  audioSendingError : option string;
  files : list File.t
}.
End MessageInput.

Definition setMessage (v : string) (i : MessageInput.t) : MessageInput.t :=
  {| MessageInput.message := v; MessageInput.isSending := MessageInput.isSending i;
     MessageInput.isRecording := MessageInput.isRecording i;
     MessageInput.isAudioSending := MessageInput.isAudioSending i;
     MessageInput.audioSendingError := MessageInput.audioSendingError i;
     MessageInput.files := MessageInput.files i |}.

Definition setIsSending (v : bool) (i : MessageInput.t) : MessageInput.t :=
  {| MessageInput.message := MessageInput.message i; MessageInput.isSending := v;
     MessageInput.isRecording := MessageInput.isRecording i;
     MessageInput.isAudioSending := MessageInput.isAudioSending i;
     MessageInput.audioSendingError := MessageInput.audioSendingError i;
     MessageInput.files := MessageInput.files i |}.

Definition setIsAudioSending (v : bool) (i : MessageInput.t) : MessageInput.t :=
  {| MessageInput.message := MessageInput.message i;
     MessageInput.isSending := MessageInput.isSending i;
     MessageInput.isRecording := MessageInput.isRecording i;
     MessageInput.isAudioSending := v;
     MessageInput.audioSendingError := MessageInput.audioSendingError i;
     MessageInput.files := MessageInput.files i |}.

Definition setAudioSendingError (v : option string) (i : MessageInput.t)
  : MessageInput.t :=
  {| MessageInput.message := MessageInput.message i;
     MessageInput.isSending := MessageInput.isSending i;
     MessageInput.isRecording := MessageInput.isRecording i;
     MessageInput.isAudioSending := MessageInput.isAudioSending i;
     MessageInput.audioSendingError := v;
     MessageInput.files := MessageInput.files i |}.

(** [fileInputRef.current.value = ""]: the chosen files are dropped. *)
Definition clearFiles (i : MessageInput.t) : MessageInput.t :=
  {| MessageInput.message := MessageInput.message i;
     MessageInput.isSending := MessageInput.isSending i;
     MessageInput.isRecording := MessageInput.isRecording i;
     MessageInput.isAudioSending := MessageInput.isAudioSending i;
     MessageInput.audioSendingError := MessageInput.audioSendingError i;
     MessageInput.files := [] |}.

(** The arguments of one call of [onSendMessage]. *)
Record SendCall := {
  sentContent : string;
  sentFile : option File.t;
  sentAudio : option Blob.t
}.

Section MessageInputHandlers.

(** The parent's state [P]; its [onSendMessage], which resolves ([true]) or
    rejects ([false]); and the input's own request to the transcription
    endpoint, which yields the transcript or fails. *)
Context {P : Type}.
Variable onSendMessage : string -> option File.t -> option Blob.t -> P -> bool * P.
Variable transcribeUpload : Blob.t -> option string.

(** [handleSendMessage]: the new cells, the parent's state and the calls
    made of [onSendMessage].  A rejection is logged, not passed on. *)
Definition handleSendMessage (i : MessageInput.t) (p : P)
  : MessageInput.t * P * list SendCall :=
  if (negb (truthy (trim (MessageInput.message i)))
      && negb (0 <? length (MessageInput.files i))%nat)
     || MessageInput.isSending i
  then (i, p, [])
  else
    let sending := setIsSending true i in
    let call :=
      match head (MessageInput.files i) with
      | Some file => {| sentContent := ""; sentFile := Some file; sentAudio := None |}
      | None => {| sentContent := trim (MessageInput.message i); sentFile := None;
                   sentAudio := None |}
      end in
    match onSendMessage (sentContent call) (sentFile call) (sentAudio call) p with
    | (true, p') => (setIsSending false (clearFiles (setMessage "" sending)), p', [call])
    | (false, p') => (setIsSending false sending, p', [call])
    end.

(** [handleEmojiClick] *)
Definition handleEmojiClick (emoji : string) (i : MessageInput.t) : MessageInput.t :=
  setMessage (MessageInput.message i +:+ emoji) i.

(** [handleRecordingComplete] *)
Definition handleRecordingComplete (blob : Blob.t) (i : MessageInput.t) (p : P)
  : MessageInput.t * P * list SendCall :=
  let processing := setAudioSendingError None (setIsAudioSending true i) in
  let failed :=
    setAudioSendingError (Some "Failed to send audio message. Please try again.")
                         processing in
  match transcribeUpload blob with
  | Some transcribedText =>
      let call := {| sentContent := transcribedText; sentFile := None;
                     sentAudio := Some blob |} in
      match onSendMessage transcribedText None (Some blob) p with
      | (true, p') => (setIsAudioSending false processing, p', [call])
      | (false, p') => (setIsAudioSending false failed, p', [call])
      end
  | None => (setIsAudioSending false failed, p, [])
  end.

End MessageInputHandlers.

(** The string is empty or starts with a character that [trim] keeps. *)
Definition startsClean (s : string) : Prop :=
  match s with
  | EmptyString => True
  | String c _ => isWhiteSpace c = false
  end.

(** *** An input box to work with

    A chat page that passes what the input box hands it on to [sendMessage],
    for Alice in her private chat with Bob. *)
Definition pageSendMessage (content : string) (file : option File.t)
    (audioBlob : option Blob.t) (w : World (gmap string UsageCounters))
  : bool * World (gmap string UsageCounters) :=
  let r := sendMessage stubServices content file audioBlob "c1" "alice"
             (Some privateChat) [] w in
  (match outcome r with inr _ => true | inl _ => false end, final r).

(** The text " hello " typed, nothing chosen. *)
Definition typedHello : MessageInput.t :=
  {| MessageInput.message := " hello "; MessageInput.isSending := false;
     MessageInput.isRecording := false; MessageInput.isAudioSending := false;
     MessageInput.audioSendingError := None; MessageInput.files := [] |}.

(** ** The recording time of the voice recorder ([VoiceRecorder]) *)

Fixpoint repeatChar (n : nat) (c : ascii) : string :=
  match n with
  | O => EmptyString
  | S n => String c (repeatChar n c)
  end.

(** [s.padStart(n, c)] for a one-character pad. *)
Definition padStart (n : nat) (c : ascii) (s : string) : string :=
  repeatChar (n - String.length s) c +:+ s.

(** The time shown while recording, for [recordingTime] seconds:
    [Math.floor(recordingTime / 60)], a colon, and
    [(recordingTime % 60).toString().padStart(2, '0')]. *)
Definition recordingTimeShown (recordingTime : N) : string :=
  pretty (recordingTime / 60) +:+ ":" +:+ padStart 2 "0" (pretty (recordingTime mod 60)).

(** The seconds field for a number of seconds. *)
Definition secondsShown (seconds : nat) : string :=
  padStart 2 "0" (pretty (N.of_nat seconds)).

(** * Properties *)

(** ** Runs of [Async] computations *)

Section Runs.

Context {L A B : Type}.
Implicit Types (m : Async L A) (k : A -> Async L B) (w : World L).

Lemma bind_resolved m k w a w1 t1 :
  m w = (inr a, w1, t1) ->
  bind m k w = (outcome (k a w1), final (k a w1), t1 ++ calls (k a w1)).
Proof.
  intros Hm. unfold bind. rewrite Hm.
  by destruct (k a w1) as [[r w2] t2].
Qed.

Lemma bind_rejected m k w e w1 t1 :
  m w = (inl e, w1, t1) -> bind m k w = (inl e, w1, t1).
Proof. intros Hm. unfold bind. by rewrite Hm. Qed.

(** A property of every call made by both halves holds of the whole. *)
Lemma bind_calls_Forall (P : Event -> Prop) m k w :
  Forall P (calls (m w)) ->
  (forall a w1, Forall P (calls (k a w1))) ->
  Forall P (calls (bind m k w)).
Proof.
  intros Hm Hk. unfold bind.
  destruct (m w) as [[[e|a] w1] t1]; [done|].
  specialize (Hk a w1). destruct (k a w1) as [[r w2] t2].
  apply Forall_app. done.
Qed.

End Runs.

(** Unfolding the monad and the external calls of a run. *)
Create HintDb run.
#[global] Hint Unfold bind ret throw outcome final calls
  checkAndIncrementUsage checkFileStorageLimit incrementFileStorage
  uploadBytes getDownloadURL transcribe getUserDoc addDoc : run.

Ltac run := autounfold with run in *; simpl in *.

(** Membership of a call in a list of calls of other kinds is absurd. *)
Ltac absurd_elem H :=
  repeat (apply elem_of_cons in H as [H|H]; [discriminate H|]);
  by apply elem_of_nil in H.

Lemma setUsage_same {L} (w : World L) : setUsage (usage w) w = w.
Proof. by destruct w. Qed.

Lemma storesKept_refl {L} (w : World L) : storesKept w w.
Proof. by repeat split. Qed.

Lemma storesKept_trans {L} (w1 w2 w3 : World L) :
  storesKept w1 w2 -> storesKept w2 w3 -> storesKept w1 w3.
Proof. intros (?&?&?) (?&?&?). repeat split; congruence. Qed.

Lemma storesKept_setUsage {L} (l : L) (w : World L) : storesKept w (setUsage l w).
Proof. by repeat split. Qed.

Lemma messagesOf_appended {L} chatId m (w : World L) :
  messagesOf chatId (appended chatId m w) = messagesOf chatId w ++ [m].
Proof. unfold messagesOf, appended. simpl. by rewrite lookup_insert_eq. Qed.

Lemma messagesOf_kept {L} chatId (w w' : World L) :
  collections w' = collections w -> messagesOf chatId w' = messagesOf chatId w.
Proof. unfold messagesOf. by intros ->. Qed.

Lemma truthy_nonempty (s : string) : s <> "" -> truthy s = true.
Proof. by destruct s. Qed.

(** *** Kinds of calls *)

Lemma translation_stage_call_kinds e :
  isTranslationStageCall e = true ->
  isMessagesCheck e = false /\ isStorageCheck e = false /\ isUpload e = false
  /\ isTranscribe e = false /\ isAddDoc e = false
  /\ isIncrementFileStorage e = false.
Proof. by destruct e as [? [] ?| | | | | | | |]. Qed.

Lemma fan_out_call_kinds e :
  isFanOutCall e = true ->
  isTranslationStageCall e = true /\ isAiInteractionsCheck e = false.
Proof. by destruct e as [? [] ?| | | | | | | |]. Qed.

Lemma payload_call_kinds e :
  isPayloadCall e = true ->
  isMessagesCheck e = false /\ isTranslationsCheck e = false
  /\ isAiInteractionsCheck e = false /\ isTranslate e = false /\ isAddDoc e = false.
Proof. by destruct e. Qed.

Lemma filter_none (p : Event -> bool) (t : list Event) :
  Forall (fun e => p e = false) t -> List.filter p t = [].
Proof.
  induction 1 as [|e t He _ IH]; [done|]. simpl. by rewrite He.
Qed.

Lemma chargesOf_app p t1 t2 : chargesOf p (t1 ++ t2) = chargesOf p t1 ++ chargesOf p t2.
Proof. apply omap_app. Qed.

Lemma chargesOf_none p (t : list Event) :
  Forall (fun e => p e = false) t -> chargesOf p t = [].
Proof.
  induction 1 as [|e t He _ IH]; [done|].
  unfold chargesOf in *. simpl. destruct e; simpl; try done. by rewrite He.
Qed.

(** ** Runs of the dispatcher's steps *)

Section DispatcherRuns.

Context {L : Type} {ledger : UsageTracking L}.
Variable services : Services.
Implicit Types (w : World L).

Lemma translateMessage_run message targetLang w :
  translateMessage services message targetLang w
  = (inr (translationOf services message targetLang), w,
     [Translate message targetLang
        (bool_decide (is_Some (translateApi services message targetLang)))]).
Proof.
  unfold translateMessage, translationOf.
  by destruct (translateApi services message targetLang).
Qed.

Lemma checkAndIncrementUsage_run userId r w :
  checkAndIncrementUsage userId r w
  = (inr (ledgerCheckAndIncrementUsage userId r (usage w)).1,
     setUsage (ledgerCheckAndIncrementUsage userId r (usage w)).2 w,
     [CheckAndIncrementUsage userId r (ledgerCheckAndIncrementUsage userId r (usage w)).1]).
Proof.
  unfold checkAndIncrementUsage.
  by destruct (ledgerCheckAndIncrementUsage userId r (usage w)).
Qed.

(** *** The group fan-out, step by step *)

Lemma omap_lookup_all {A B} (f : A -> option B) (l : list A) (i : nat) :
  Forall (fun a => is_Some (f a)) l -> omap f l !! i = l !! i ≫= f.
Proof.
  intros Hall. revert i. induction Hall as [|a l [b Hb] _ IH]; intros i; [done|].
  cbn [omap list_omap]. rewrite Hb. destruct i as [|i]; [by simpl|]. apply IH.
Qed.

Lemma chargesOf_chargeCalls userId cs :
  chargesOf isTranslationsCheck (chargeCalls userId cs) = omap answerOf cs.
Proof.
  induction cs as [|c cs IH]; [done|].
  unfold chargesOf, chargeCalls in *. cbn [omap list_omap].
  destruct (answerOf c) as [b|]; cbn [fmap option_fmap option_map omap list_omap];
    by rewrite IH.
Qed.

Lemma chargeCalls_kind userId cs :
  Forall (fun e => isFanOutCall e = true) (chargeCalls userId cs).
Proof.
  induction cs as [|c cs IH]; [constructor|].
  unfold chargeCalls in *. cbn [omap list_omap].
  destruct (answerOf c); cbn [fmap option_fmap option_map]; [by constructor|done].
Qed.

Section FanOutRuns.

Variables (userId text : string).
Implicit Types (s : FanOut L) (l : L).

Lemma afterFanOut_S k l :
  afterFanOut userId (S k) l
  = (ledgerCheckAndIncrementUsage userId Translations (afterFanOut userId k l)).2.
Proof.
  revert l. induction k as [|k IH]; intros l; [done|].
  change (afterFanOut userId (S (S k)) l)
    with (afterFanOut userId (S k) (ledgerCheckAndIncrementUsage userId Translations l).2).
  by rewrite IH.
Qed.



(** *** One step *)

Lemma advance_other s i j :
  i <> j -> callbacks (advance services userId text s i) !! j = callbacks s !! j.
Proof.
  intros Hij. unfold advance.
  destruct (callbacks s !! i) as [[lang|lang []|lang|lang b]|];
    cbn [callbacks]; by rewrite ?list_lookup_insert_ne.
Qed.

Lemma advance_self s i c :
  callbacks s !! i = Some c ->
  callbacks (advance services userId text s i) !! i
  = Some (advanced c (ledgerCheckAndIncrementUsage userId Translations (ledgerNow s)).1).
Proof.
  intros Hi. pose proof (lookup_lt_Some _ _ _ Hi) as Hlt. unfold advance. rewrite Hi.
  destruct c as [lang|lang []|lang|lang b]; cbn [callbacks advanced];
    by rewrite ?list_lookup_insert_eq.
Qed.

Lemma advance_out_of_range s i :
  callbacks s !! i = None -> advance services userId text s i = s.
Proof. intros Hi. unfold advance. by rewrite Hi. Qed.

Lemma assign_lookup key value (obj : gmap string string) k :
  assign key value obj !! k
  = if decide (k = key /\ key <> "__proto__") then Some value else obj !! k.
Proof.
  unfold assign. destruct (decide (key = "__proto__")) as [->|Hkey].
  - rewrite decide_False; [done|]. by intros [_ ?].
  - destruct (decide (k = key)) as [->|Hk].
    + by rewrite decide_True, lookup_insert_eq.
    + rewrite decide_False, lookup_insert_ne; [done|done|]. by intros [? _].
Qed.

Lemma FanOutInv_start langs l0 :
  FanOutInv services userId text langs l0 []
    {| callbacks := Charging <$> langs; written := ∅; requested := []; ledgerNow := l0 |}.
Proof.
  split; cbn [callbacks written requested ledgerNow].
  - apply list_eq. intros i. rewrite !list_lookup_fmap. by destruct (langs !! i).
  - intros i. split; [by intros ?%elem_of_nil|].
    intros (c & Hc & Hans). rewrite list_lookup_fmap in Hc.
    destruct (langs !! i); simpl in Hc; simplify_eq. by destruct Hans as [? [=]].
  - constructor.
  - done.
  - by intros k i ?.
  - done.
  - by intros lang v ?.
  - intros i lang b Hc. rewrite list_lookup_fmap in Hc. by destruct (langs !! i).
  - constructor.
Qed.

Lemma FanOutInv_step langs l0 served s i :
  FanOutInv services userId text langs l0 served s ->
  FanOutInv services userId text langs l0
    (if decide (i ∈ served \/ (length langs <= i)%nat) then served else served ++ [i])
    (advance services userId text s i).
Proof.
  intros [Hlangs Hserved Hnodup Hledger Hanswers Hproto Hvalues Hkeys Hreq].
  assert (Hlen : length (callbacks s) = length langs) by (by rewrite <- Hlangs, length_fmap).
  destruct (callbacks s !! i) as [c|] eqn:Hi.
  2:{ rewrite advance_out_of_range by done.
      rewrite decide_True; [done|]. right. apply lookup_ge_None in Hi. lia. }
  pose proof (lookup_lt_Some _ _ _ Hi) as Hlt.
  pose proof (advance_self s i c Hi) as Hself.
  pose proof (advance_other s i) as Hother.
  assert (Hlangs' : langOf <$> callbacks (advance services userId text s i) = langs).
  { rewrite <- Hlangs. apply list_eq. intros j. rewrite !list_lookup_fmap.
    destruct (decide (i = j)) as [<-|Hij]; [|by rewrite Hother].
    rewrite Hself, Hi. by destruct c as [?|? []|?|? ?]. }
  destruct (answerOf c) as [b|] eqn:Hans.
  - (* the charge was answered before *)
    assert (Hin : i ∈ served) by (apply Hserved; eauto).
    rewrite decide_True by (by left).
    assert (Hkeep : forall j c0, callbacks s !! j = Some c0 ->
              exists c1, callbacks (advance services userId text s i) !! j = Some c1
                         /\ answerOf c1 = answerOf c0
                         /\ (is_Some (answerOf c0) -> True)).
    { intros j c0 Hj. destruct (decide (i = j)) as [<-|Hij].
      - simplify_eq. eexists. split; [exact Hself|].
        by destruct c as [?|? []|?|? ?]; simplify_eq.
      - eexists. by rewrite Hother. }
    assert (Hledger' : ledgerNow (advance services userId text s i) = ledgerNow s).
    { unfold advance. rewrite Hi. by destruct c as [?|? []|?|? ?]. }
    split; try done.
    + intros j. rewrite Hserved. split.
      * intros (c0 & Hj & Hs). destruct (Hkeep j c0 Hj) as (c1 & ? & Heq & _).
        exists c1. by rewrite Heq.
      * intros (c1 & Hj & Hs). destruct (decide (i = j)) as [<-|Hij].
        -- exists c. split; [done|]. by rewrite Hans.
        -- exists c1. by rewrite <- Hother.
    + by rewrite Hledger'.
    + intros k j Hk. destruct (Hanswers k j Hk) as (c0 & Hj & Ha).
      destruct (Hkeep j c0 Hj) as (c1 & ? & Heq & _). exists c1. by rewrite Heq.
    + unfold advance. rewrite Hi.
      destruct c as [?|? []|?|? ?]; cbn [written]; try done;
        rewrite assign_lookup; by rewrite decide_False by (by intros [? ?]).
    + intros lang v. unfold advance at 1. rewrite Hi.
      destruct c as [lang0|lang0 []|lang0|lang0 b0]; cbn [written];
        try discriminate Hans.
      * intros Hv. destruct (Hvalues lang v Hv) as (j & b' & Hj & ->).
        exists j, b'. split; [|done].
        destruct (decide (i = j)) as [<-|Hij]; [congruence|by rewrite Hother].
      * rewrite assign_lookup. case_decide as Hk.
        -- destruct Hk as [-> _]. intros [= <-]. exists i, false. by rewrite Hself.
        -- intros Hv. destruct (Hvalues lang v Hv) as (j & b' & Hj & ->).
           exists j, b'. split; [|done].
           destruct (decide (i = j)) as [<-|Hij]; [congruence|by rewrite Hother].
      * rewrite assign_lookup. case_decide as Hk.
        -- destruct Hk as [-> _]. intros [= <-]. exists i, true. by rewrite Hself.
        -- intros Hv. destruct (Hvalues lang v Hv) as (j & b' & Hj & ->).
           exists j, b'. split; [|done].
           destruct (decide (i = j)) as [<-|Hij]; [congruence|by rewrite Hother].
      * intros Hv. destruct (Hvalues lang v Hv) as (j & b' & Hj & ->).
        exists j, b'. split; [|done].
        destruct (decide (i = j)) as [<-|Hij]; [|by rewrite Hother].
        rewrite Hself. by simplify_eq.
    + intros j lang b' Hj Hlang.
      assert (Hmono : forall lang', is_Some (written s !! lang') ->
                is_Some (written (advance services userId text s i) !! lang')).
      { intros lang'. unfold advance. rewrite Hi.
        destruct c as [?|? []|?|? ?]; cbn [written]; try done;
          rewrite assign_lookup; case_decide; eauto. }
      destruct (decide (i = j)) as [<-|Hij].
      * rewrite Hself in Hj. unfold advance. rewrite Hi.
        destruct c as [lang0|lang0 []|lang0|lang0 b0]; cbn [advanced written] in *;
          simplify_eq.
        -- rewrite assign_lookup, decide_True by done. eauto.
        -- rewrite assign_lookup, decide_True by done. eauto.
        -- by eapply Hkeys.
      * rewrite Hother in Hj by done. apply Hmono. by eapply Hkeys.
    + unfold advance. rewrite Hi.
      destruct c as [?|? []|?|? ?]; cbn [requested]; try done.
      apply Forall_app. split; [done|]. by repeat constructor.
  - (* the ledger answers the charge now *)
    destruct c as [lang| | |]; try done.
    assert (Hnin : i ∉ served).
    { intros (c0 & Hc0 & Hs)%Hserved. simplify_eq. by destruct Hs. }
    rewrite decide_False by (intros [?|?]; [done|lia]).
    cbn [advanced] in Hself.
    assert (Hstate : written (advance services userId text s i) = written s
                     /\ requested (advance services userId text s i) = requested s
                     /\ ledgerNow (advance services userId text s i)
                        = (ledgerCheckAndIncrementUsage userId Translations (ledgerNow s)).2).
    { unfold advance. by rewrite Hi. }
    destruct Hstate as (Hw & Hr & Hl).
    split; try done.
    + intros j. rewrite elem_of_app, list_elem_of_singleton, Hserved.
      destruct (decide (i = j)) as [<-|Hij].
      * split; [|by right]. intros _. eexists. split; [exact Hself|]. by eexists.
      * rewrite Hother by done. split; [by intros [?|?]|by left].
    + apply NoDup_app. split_and!; [done| |apply NoDup_singleton].
      intros j Hj ->%list_elem_of_singleton. done.
    + rewrite Hl, Hledger, length_app. cbn [length].
      by rewrite Nat.add_1_r, afterFanOut_S.
    + intros k j Hk. apply lookup_app_Some in Hk as [Hk|[Hge Hk]].
      * destruct (Hanswers k j Hk) as (c0 & Hj & Ha).
        exists c0. split; [|done]. rewrite Hother; [done|].
        intros <-. apply Hnin. by eapply list_elem_of_lookup_2.
      * apply list_lookup_singleton_Some in Hk as [Hk <-].
        eexists. split; [exact Hself|]. cbn [answerOf]. unfold nthCharge.
        replace k with (length served) by lia. by rewrite Hledger.
    + by rewrite Hw.
    + intros lang' v. rewrite Hw. intros Hv.
      destruct (Hvalues lang' v Hv) as (j & b' & Hj & ->). exists j, b'. split; [|done].
      destruct (decide (i = j)) as [<-|Hij]; [congruence|by rewrite Hother].
    + intros j lang' b' Hj Hlang. rewrite Hw.
      destruct (decide (i = j)) as [<-|Hij]; [by rewrite Hself in Hj|].
      rewrite Hother in Hj by done. by eapply Hkeys.
    + by rewrite Hr.
Qed.

Lemma FanOutInv_run langs l0 schedule :
  forall served s,
    FanOutInv services userId text langs l0 served s ->
    FanOutInv services userId text langs l0 (serveOrder (length langs) served schedule)
      (foldl (advance services userId text) s schedule).
Proof.
  induction schedule as [|i rest IH]; intros served s Hinv; [done|].
  cbn [foldl serveOrder]. by apply IH, FanOutInv_step.
Qed.

(** *** Every callback completes *)

Lemma advance_length s i :
  length (callbacks (advance services userId text s i)) = length (callbacks s).
Proof.
  unfold advance. destruct (callbacks s !! i) as [[lang|lang []|lang|lang b]|];
    cbn [callbacks]; by rewrite ?length_insert.
Qed.

Lemma advance_completed_stays s i j lang b :
  callbacks s !! j = Some (Completed lang b) ->
  callbacks (advance services userId text s i) !! j = Some (Completed lang b).
Proof.
  intros Hj. destruct (decide (i = j)) as [<-|Hij].
  - by rewrite (advance_self _ _ _ Hj).
  - by rewrite advance_other.
Qed.

Lemma advance_thrice s i :
  (i < length (callbacks s))%nat ->
  exists lang b,
    callbacks (advance services userId text
                 (advance services userId text (advance services userId text s i) i) i)
      !! i = Some (Completed lang b).
Proof.
  intros Hlt. destruct (lookup_lt_is_Some_2 _ _ Hlt) as [c Hc].
  pose proof (advance_self _ _ _ Hc) as H1.
  pose proof (advance_self _ _ _ H1) as H2.
  pose proof (advance_self _ _ _ H2) as H3.
  rewrite H3.
  destruct c as [lang|lang []|lang|lang b]; cbn [advanced]; eauto;
    destruct (ledgerCheckAndIncrementUsage userId Translations (ledgerNow s)).1;
    cbn [advanced]; eauto.
Qed.

Lemma completedBelow_advance a s i :
  completedBelow a s -> completedBelow a (advance services userId text s i).
Proof.
  intros Hc j Hj Hlen. rewrite advance_length in Hlen.
  destruct (Hc j Hj Hlen) as (lang & b & Hcb).
  exists lang, b. by apply advance_completed_stays.
Qed.

Lemma drain_completes k :
  forall a s,
    completedBelow a s ->
    completedBelow (a + k)
      (foldl (advance services userId text) s (seq a k ≫= fun i => [i; i; i])).
Proof.
  induction k as [|k IH]; intros a s Hc.
  - by rewrite Nat.add_0_r.
  - cbn [seq mbind list_bind app foldl]. fold (@mbind list _ nat nat).
    replace (a + S k)%nat with (S a + k)%nat by lia. apply IH.
    intros j Hj Hlen. rewrite !advance_length in Hlen.
    destruct (decide (j = a)) as [->|Hne].
    + by apply advance_thrice.
    + assert (Hc3 : completedBelow a
                      (advance services userId text
                         (advance services userId text
                            (advance services userId text s a) a) a))
        by (by do 3 apply completedBelow_advance).
      apply Hc3; [lia|by rewrite !advance_length].
Qed.

(** *** The whole fan-out *)

Lemma translateInParallel_run langs w :
  exists tr t,
    translateInParallel services userId text langs w
    = (inr tr, setUsage (afterFanOut userId (length langs) (usage w)) w, t)
    /\ Forall (fun e => isFanOutCall e = true) t
    /\ length (chargesOf isTranslationsCheck t) = length langs
    /\ (forall lang, is_Some (tr !! lang) <-> lang ∈ langs /\ lang <> "__proto__")
    /\ (forall lang v,
          tr !! lang = Some v ->
          exists (i : nat) (b : bool),
            langs !! i = Some lang
            /\ chargesOf isTranslationsCheck t !! i = Some b
            /\ v = if b then translationOf services text lang else text)
    /\ (forall k i : nat,
          chargeOrder services (length langs) !! k = Some i ->
          chargesOf isTranslationsCheck t !! i = Some (nthCharge userId k (usage w))).
Proof.
  set (s0 := {| callbacks := Charging <$> langs; written := ∅; requested := [];
                ledgerNow := usage w |}).
  set (s := foldl (advance services userId text) s0 (untilAllSettled services (length langs))).
  assert (Hinv : FanOutInv services userId text langs (usage w) (chargeOrder services (length langs)) s).
  { apply FanOutInv_run, FanOutInv_start. }
  destruct Hinv as [Hlangs Hserved Hnodup Hledger Hanswers Hproto Hvalues Hkeys Hreq].
  assert (Hlen : length (callbacks s) = length langs) by (by rewrite <- Hlangs, length_fmap).
  assert (Hdone : forall j, (j < length langs)%nat ->
                    exists lang b, callbacks s !! j = Some (Completed lang b)).
  { intros j Hj.
    assert (Hc : completedBelow (0 + length langs) s).
    { subst s. unfold untilAllSettled. rewrite foldl_app.
      apply drain_completes. intros j' Hj'. lia. }
    apply Hc; [done|by rewrite Hlen]. }
  assert (Hall : Forall (fun c => is_Some (answerOf c)) (callbacks s)).
  { apply Forall_lookup. intros j c Hj.
    destruct (Hdone j) as (lang & b & Hcb);
      [rewrite <- Hlen; by eapply lookup_lt_Some|].
    simplify_eq. by eexists. }
  assert (Hcount : length (chargeOrder services (length langs)) = length langs).
  { transitivity (length (seq 0%nat (length langs))); [|apply length_seq].
    apply Permutation_length.
    apply NoDup_Permutation; [done|apply NoDup_seq|].
    intros i. rewrite Hserved, elem_of_seq. split.
    - intros (c & Hc & _). apply lookup_lt_Some in Hc. lia.
    - intros [_ Hi]. destruct (Hdone i) as (lang & b & Hcb); [lia|].
      eexists. split; [done|]. by eexists. }
  assert (Hcharges : chargesOf isTranslationsCheck
                       (chargeCalls userId (callbacks s) ++ requested s)
                     = omap answerOf (callbacks s)).
  { rewrite chargesOf_app, chargesOf_chargeCalls, (chargesOf_none _ (requested s)).
    - apply app_nil_r.
    - eapply Forall_impl; [exact Hreq|]. by intros [] ?. }
  assert (Hlookup : forall i c, callbacks s !! i = Some c ->
            chargesOf isTranslationsCheck
              (chargeCalls userId (callbacks s) ++ requested s) !! i = answerOf c).
  { intros i c Hc. by rewrite Hcharges, omap_lookup_all, Hc. }
  exists (written s), (chargeCalls userId (callbacks s) ++ requested s).
  split_and!.
  - unfold translateInParallel. fold s0. fold s. by rewrite Hledger, Hcount.
  - apply Forall_app. split; [apply chargeCalls_kind|].
    eapply Forall_impl; [exact Hreq|]. by intros [] ?.
  - rewrite Hcharges.
    assert (Hl : forall cs, Forall (fun c => is_Some (answerOf c)) cs ->
                            length (omap answerOf cs) = length cs).
    { induction 1 as [|c cs [b Hb] _ IH]; [done|].
      cbn [omap list_omap]. rewrite Hb. simpl. by rewrite IH. }
    by rewrite Hl, Hlen.
  - intros lang. split.
    + intros [v Hv]. destruct (Hvalues lang v Hv) as (i & b & Hi & _). split.
      * rewrite <- Hlangs. apply list_elem_of_fmap. eexists. split; [|by eapply list_elem_of_lookup_2].
        done.
      * intros ->. by rewrite Hproto in Hv.
    + intros [Hin Hne]. rewrite <- Hlangs in Hin.
      apply list_elem_of_fmap in Hin as (c & -> & Hc).
      apply list_elem_of_lookup in Hc as [i Hi].
      destruct (Hdone i) as (lang & b & Hcb);
        [rewrite <- Hlen; by eapply lookup_lt_Some|].
      simplify_eq. by eapply Hkeys.
  - intros lang v Hv. destruct (Hvalues lang v Hv) as (i & b & Hi & ->).
    exists i, b. split_and!; [|by rewrite (Hlookup _ _ Hi)|done].
    rewrite <- Hlangs, list_lookup_fmap, Hi. done.
  - intros k i Hk. destruct (Hanswers k i Hk) as (c & Hc & Ha).
    by rewrite (Hlookup _ _ Hc).
Qed.


End FanOutRuns.

(** *** The payload branch, case by case *)

Lemma payload_audio_run content file b chatId userId md w :
  let fileName := voiceFileName (dateNow services) in
  let storageRef := storagePath chatId fileName in
  payload services content file (Some b) chatId userId md w
  = (inr (withOriginalContent (transcriptOf services b)
            (withBody MsgAudio fileName (Some (downloadURLOf services storageRef)) md)),
     setUsage (ledgerIncrementFileStorage userId (Blob.size b) (usage w))
              (setBlobs (<[storageRef := Blob.size b]> (blobs w)) w),
     [UploadBytes storageRef (Blob.size b); GetDownloadURL storageRef;
      IncrementFileStorage userId (Blob.size b);
      Transcribe b (bool_decide (is_Some (speechToText services b)))]).
Proof.
  unfold payload, transcriptOf. run.
  by destruct (speechToText services b).
Qed.

Lemma payload_file_run content f chatId userId md w :
  let storageRef := storagePath chatId (File.name f) in
  let allowed := ledgerCheckFileStorageLimit userId (File.size f) (usage w) in
  payload services content (Some f) None chatId userId md w
  = if negb allowed
    then (inl FileStorageLimitReached, w,
          [CheckFileStorageLimit userId (File.size f) false])
    else if MAX_FILE_SIZE <? File.size f
    then (inl FileTooLarge, w, [CheckFileStorageLimit userId (File.size f) true])
    else (inr (withBody (if startsWith "image/" (File.type f) then MsgImage else MsgFile)
                 (File.name f) (Some (downloadURLOf services storageRef)) md),
          setUsage (ledgerIncrementFileStorage userId (File.size f) (usage w))
                   (setBlobs (<[storageRef := File.size f]> (blobs w)) w),
          [CheckFileStorageLimit userId (File.size f) true;
           UploadBytes storageRef (File.size f); GetDownloadURL storageRef;
           IncrementFileStorage userId (File.size f)]).
Proof.
  unfold payload. run.
  destruct (ledgerCheckFileStorageLimit _ _ _); simpl; [|done].
  by destruct (MAX_FILE_SIZE <? File.size f).
Qed.

Lemma payload_text_run content chatId userId md w :
  payload services content None None chatId userId md w
  = (inr (withBody MsgText content (fileUrl md) md), w, []).
Proof. done. Qed.

(** The payload branch leaves the message collections and the profiles
    alone; when it rejects it has changed nothing and has only consulted the
    storage limit, for a file. *)
Lemma payload_frame content file audioBlob chatId userId md w :
  let r := payload services content file audioBlob chatId userId md w in
  collections (final r) = collections w
  /\ users (final r) = users w
  /\ Forall (fun e => isPayloadCall e = true) (calls r)
  /\ (forall e, outcome r = inl e ->
        (e = FileStorageLimitReached \/ e = FileTooLarge) /\ final r = w
        /\ audioBlob = None
        /\ exists allowed, calls r = [CheckFileStorageLimit userId
                                        (default 0 (File.size <$> file)) allowed]).
Proof.
  intros r. subst r.
  destruct audioBlob as [b|]; [|destruct file as [f|]].
  - rewrite payload_audio_run. unfold outcome, final, calls. cbn [fst snd].
    split_and!; try done. repeat constructor.
  - rewrite payload_file_run. unfold outcome, final, calls.
    destruct (negb _); [|destruct (_ <? _)]; cbn [fst snd]; split_and!; try done;
      try (repeat constructor; fail).
    + intros e [= <-]. split_and!; eauto.
    + intros e [= <-]. split_and!; eauto.
  - rewrite payload_text_run. by split_and!.
Qed.

(** A text or audio payload never rejects; it yields a message of type text
    or audio. *)
Lemma payload_text_or_audio content file audioBlob chatId userId w :
  file = None \/ is_Some audioBlob ->
  exists md1 w2 t2,
    payload services content file audioBlob chatId userId (newMessage userId chatId) w
    = (inr md1, w2, t2)
    /\ isTextOrAudio (type md1) = true
    /\ textToTranslateOf content md1 = inputText services content audioBlob
    /\ Forall (fun e => isPayloadCall e = true) t2
    /\ collections w2 = collections w
    /\ users w2 = users w.
Proof.
  intros Hkind.
  pose proof (payload_frame content file audioBlob chatId userId
                (newMessage userId chatId) w) as (Hc & Hu & Hcalls & _).
  destruct audioBlob as [b|].
  - rewrite payload_audio_run in *. eexists _, _, _. split; [done|].
    by split_and!.
  - destruct Hkind as [->|[? [=]]].
    rewrite payload_text_run in *. eexists _, _, _. split; [done|].
    by split_and!.
Qed.

(** *** The translation step, case by case *)

Lemma translateStage_other content userId chatData langs md w :
  isTextOrAudio (type md) = false ->
  translateStage services content userId chatData langs md w = (inr md, w, []).
Proof. intros H. unfold translateStage. by rewrite H. Qed.

Lemma translateStage_private_run content userId chat langs md w other userData :
  isTextOrAudio (type md) = true ->
  chatType chat = private ->
  find (fun p => negb (String.eqb p userId)) (participants chat) = Some other ->
  truthy other = true ->
  users w !! other = Some userData ->
  let text := textToTranslateOf content md in
  let lang := orElse (preferredLang userData) "en" in
  let charge := ledgerCheckAndIncrementUsage userId Translations (usage w) in
  translateStage services content userId (Some chat) langs md w
  = (inr (withContent
            (Plain (if charge.1 then translationOf services text lang else text)) md),
     setUsage charge.2 w,
     GetUserDoc other true :: CheckAndIncrementUsage userId Translations charge.1
     :: (if charge.1
         then [Translate text lang
                 (bool_decide (is_Some (translateApi services text lang)))]
         else [])).
Proof.
  intros Hty Hchat Hfind Htruthy Huser text lang charge.
  unfold translateStage. rewrite Hty, Hchat, Hfind, Htruthy.
  fold (textToTranslateOf content md). fold text lang.
  assert (HgetDoc : getUserDoc other w = (inr (Some userData), w, [GetUserDoc other true])).
  { unfold getUserDoc. rewrite Huser.
    by rewrite bool_decide_eq_true_2 by (by eexists). }
  rewrite (bind_resolved _ _ _ _ _ _ HgetDoc).
  rewrite (bind_resolved _ _ _ _ _ _ (checkAndIncrementUsage_run _ _ _)).
  fold charge. destruct charge.1.
  - by rewrite (bind_resolved _ _ _ _ _ _ (translateMessage_run _ _ _)).
  - done.
Qed.

Lemma translateStage_ai_run content userId chat langs md w :
  isTextOrAudio (type md) = true ->
  chatType chat = ai ->
  let charge := ledgerCheckAndIncrementUsage userId AiInteractions (usage w) in
  translateStage services content userId (Some chat) langs md w
  = if charge.1
    then (inr (withContent (Plain (textToTranslateOf content md)) md),
          setUsage charge.2 w,
          [CheckAndIncrementUsage userId AiInteractions true])
    else (inl AiInteractionLimitReached, setUsage charge.2 w,
          [CheckAndIncrementUsage userId AiInteractions false]).
Proof.
  intros Hty Hchat charge.
  unfold translateStage. rewrite Hty, Hchat.
  fold (textToTranslateOf content md).
  rewrite (bind_resolved _ _ _ _ _ _ (checkAndIncrementUsage_run _ _ _)).
  fold charge. by destruct charge.1.
Qed.

Lemma translateStage_group_run content userId chat langs md w :
  isTextOrAudio (type md) = true ->
  chatType chat = group ->
  let text := textToTranslateOf content md in
  exists tr t,
    translateStage services content userId (Some chat) langs md w
    = (inr (withContent (PerLanguage tr) md),
       setUsage (afterFanOut userId (length langs) (usage w)) w, t)
    /\ translateInParallel services userId text langs w
       = (inr tr, setUsage (afterFanOut userId (length langs) (usage w)) w, t).
Proof.
  intros Hty Hchat text.
  destruct (translateInParallel_run userId text langs w) as (tr & t & Hrun & _).
  exists tr, t. split; [|done].
  unfold translateStage. rewrite Hty, Hchat.
  fold (textToTranslateOf content md). fold text.
  rewrite (bind_resolved _ _ _ _ _ _ Hrun). simpl.
  by rewrite app_nil_r.
Qed.

(** The four facts of [translateStage_frame] when the step returns the
    message as it got it, without a call. *)
Ltac untouched :=
  refine (conj _ (conj _ (conj _ _)));
  [apply storesKept_refl | done | done
  |intros ? [= <-]; split_and!; try done; apply not_elem_of_nil].

(** The translation step changes no store but the ledger and rewrites
    [content] only; it rejects only on a denied AI-interaction charge, and
    then that charge is its only call. *)
Lemma translateStage_frame content userId chatData langs md w :
  let r := translateStage services content userId chatData langs md w in
  storesKept w (final r)
  /\ Forall (fun e => isTranslationStageCall e = true) (calls r)
  /\ (forall e, outcome r = inl e ->
        e = AiInteractionLimitReached
        /\ calls r = [CheckAndIncrementUsage userId AiInteractions false]
        /\ chatType <$> chatData = Some ai)
  /\ (forall md2, outcome r = inr md2 ->
        senderId md2 = senderId md /\ type md2 = type md
        /\ originalContent md2 = originalContent md /\ fileUrl md2 = fileUrl md
        /\ (CheckAndIncrementUsage userId AiInteractions false ∉ calls r)).
Proof.
  intros r. subst r.
  destruct (isTextOrAudio (type md)) eqn:Hty;
    [|rewrite translateStage_other by done; untouched].
  destruct chatData as [chat|];
    [|unfold translateStage; rewrite Hty; untouched].
  destruct (chatType chat) eqn:Hchat.
  - destruct (find (fun p => negb (String.eqb p userId)) (participants chat))
      as [other|] eqn:Hfind;
      [destruct (truthy other) eqn:Htruthy;
       [destruct (users w !! other) as [userData|] eqn:Huser|]|].
    + rewrite (translateStage_private_run _ _ _ _ _ _ _ _ Hty Hchat Hfind Htruthy Huser).
      unfold outcome, final, calls; cbn [fst snd].
      refine (conj _ (conj _ (conj _ _))); [apply storesKept_setUsage| |done|].
      * destruct (_.1); repeat constructor.
      * intros md2 [= <-]. split_and!; try done.
        intros Hin. destruct (_.1); absurd_elem Hin.
    + unfold translateStage. rewrite Hty, Hchat, Hfind, Htruthy.
      run. rewrite Huser.
      refine (conj _ (conj _ (conj _ _))); [apply storesKept_refl| |done|].
      * repeat constructor.
      * intros md2 [= <-]. split_and!; try done. intros Hin. absurd_elem Hin.
    + unfold translateStage. rewrite Hty, Hchat, Hfind, Htruthy. untouched.
    + unfold translateStage. rewrite Hty, Hchat, Hfind. untouched.
  - destruct (translateStage_group_run content userId chat langs md w Hty Hchat)
      as (tr & t & -> & Hrun).
    destruct (translateInParallel_run userId (textToTranslateOf content md) langs w)
      as (tr2 & t2 & Hrun2 & Hcalls & _).
    rewrite Hrun in Hrun2. symmetry in Hrun2. simplify_eq.
    unfold outcome, final, calls; cbn [fst snd].
    refine (conj _ (conj _ (conj _ _))); [apply storesKept_setUsage| |done|].
    + eapply Forall_impl; [exact Hcalls|].
      intros e He. by apply fan_out_call_kinds in He as [? _].
    + intros md2 [= <-]. split_and!; try done.
      intros Hin. rewrite Forall_forall in Hcalls.
      by apply Hcalls, fan_out_call_kinds in Hin as [_ ?].
  - rewrite (translateStage_ai_run _ _ _ _ _ _ Hty Hchat).
    destruct (_.1); unfold outcome, final, calls; cbn [fst snd];
      (refine (conj _ (conj _ (conj _ _)));
       [apply storesKept_setUsage|repeat constructor| |]).
    + done.
    + intros md2 [= <-]. split_and!; try done. intros Hin. absurd_elem Hin.
    + intros e [= <-]. simpl. by rewrite Hchat.
    + done.
Qed.

(** *** The whole dispatch *)

Lemma sendMessage_run content file audioBlob chatId userId chatData langs w :
  sendMessage services content file audioBlob chatId userId chatData langs w
  = if nothingToSend content file audioBlob userId then (inr tt, w, [])
    else if (messageCharge userId w).1
    then
      match payload services content file audioBlob chatId userId
              (newMessage userId chatId) (charged userId w) with
      | (inl e, w2, t2) =>
          (inl e, w2, CheckAndIncrementUsage userId Messages true :: t2)
      | (inr md1, w2, t2) =>
          match translateStage services content userId chatData langs md1 w2 with
          | (inl e, w3, t3) =>
              (inl e, w3, CheckAndIncrementUsage userId Messages true :: t2 ++ t3)
          | (inr md2, w3, t3) =>
              (inr tt, appended chatId md2 w3,
               CheckAndIncrementUsage userId Messages true
               :: t2 ++ t3 ++ [AddDoc (messagesPath chatId) md2])
          end
      end
    else (inl MessageLimitReached, charged userId w,
          [CheckAndIncrementUsage userId Messages false]).
Proof.
  unfold sendMessage. fold (nothingToSend content file audioBlob userId).
  destruct (nothingToSend content file audioBlob userId); [done|].
  rewrite (bind_resolved _ _ _ _ _ _ (checkAndIncrementUsage_run _ _ _)).
  fold (messageCharge userId w). fold (charged userId w).
  destruct (messageCharge userId w).1; [|done]. cbn [negb].
  fold (newMessage userId chatId).
  unfold bind, outcome, final, calls.
  destruct (payload _ _ _ _ _ _ _ _) as [[[e|md1] w2] t2]; [done|].
  destruct (translateStage _ _ _ _ _ _ _) as [[[e|md2] w3] t3]; [done|].
  done.
Qed.

End DispatcherRuns.

(** ** Properties of [sendMessage], for any ledger *)

Section DispatcherProperties.

Context {L : Type} {ledger : UsageTracking L}.
Variable services : Services.
Implicit Types (w : World L).

(** *** The message-quota gate *)

(** Past the message charge no further message charge is made. *)
Lemma after_gate_no_messages_check content file audioBlob chatId userId
    chatData langs md w allowed :
  let p := payload services content file audioBlob chatId userId md w in
  (CheckAndIncrementUsage userId Messages allowed ∉ calls p)
  /\ forall md1 w2,
       CheckAndIncrementUsage userId Messages allowed
         ∉ calls (translateStage services content userId chatData langs md1 w2).
Proof.
  split.
  - intros Hin.
    pose proof (payload_frame services content file audioBlob chatId userId md w)
      as (_ & _ & Hall & _).
    rewrite Forall_forall in Hall.
    by apply Hall, payload_call_kinds in Hin as (? & _).
  - intros md1 w2 Hin.
    destruct (translateStage_frame services content userId chatData langs md1 w2)
      as (_ & Hall & _).
    rewrite Forall_forall in Hall.
    by apply Hall, translation_stage_call_kinds in Hin as (? & _).
Qed.

(** The message charge is made exactly when there is something to send, and
    it is the ledger's answer in the initial state. *)
Lemma message_check_iff content file audioBlob chatId userId chatData
    participantLanguages w (allowed : bool) :
  CheckAndIncrementUsage userId Messages allowed
    ∈ calls (sendMessage services content file audioBlob chatId userId chatData
               participantLanguages w)
  <-> nothingToSend content file audioBlob userId = false
      /\ (messageCharge userId w).1 = allowed.
Proof.
  rewrite sendMessage_run. split.
  - destruct (nothingToSend _ _ _ _); [by intros ?%elem_of_nil|].
    destruct (messageCharge userId w).1 eqn:Hcharge;
      [|unfold calls; simpl; by intros [= <-]%list_elem_of_singleton].
    destruct (after_gate_no_messages_check content file audioBlob chatId
                userId chatData participantLanguages (newMessage userId chatId)
                (charged userId w) allowed) as [Hp Ht].
    destruct (payload _ _ _ _ _ _ _ _) as [[[e|md1] w2] t2] eqn:Hpay;
      unfold calls in *; simpl in *.
    + intros [[= <-]|?]%elem_of_cons; [done|]. by destruct Hp.
    + specialize (Ht md1 w2).
      destruct (translateStage _ _ _ _ _ _ _) as [[[e|md2] w3] t3]; simpl in *.
      * rewrite elem_of_cons, elem_of_app. intros [[= <-]|[?|?]]; done.
      * rewrite elem_of_cons, !elem_of_app, list_elem_of_singleton.
        intros [[= <-]|[?|[?|?]]]; done.
  - intros [-> <-]. destruct (messageCharge userId w).1; [|apply list_elem_of_here].
    destruct (payload _ _ _ _ _ _ _ _) as [[[e|md1] w2] t2];
      [apply list_elem_of_here|].
    destruct (translateStage _ _ _ _ _ _ _) as [[[e|md2] w3] t3];
      apply list_elem_of_here.
Qed.

(** C1.  A call whose message-quota check is denied
    ([checkAndIncrementUsage(userId, "messages")] returns [false]) is rejected
    with the message-limit error; the denied check is the only external call,
    so nothing is uploaded, transcribed or translated, and every store but
    the ledger the check went through is exactly as it was: no message is
    appended. *)
Theorem message_quota_denial_is_a_hard_stop content file audioBlob chatId userId
    chatData participantLanguages w :
  let r := sendMessage services content file audioBlob chatId userId chatData
             participantLanguages w in
  CheckAndIncrementUsage userId Messages false ∈ calls r ->
  outcome r = inl MessageLimitReached
  /\ calls r = [CheckAndIncrementUsage userId Messages false]
  /\ messagesOf chatId (final r) = messagesOf chatId w
  /\ collections (final r) = collections w
  /\ blobs (final r) = blobs w
  /\ usage (final r) = (ledgerCheckAndIncrementUsage userId Messages (usage w)).2.
Proof.
  intros r [Hguard Hcharge]%message_check_iff. subst r.
  by rewrite sendMessage_run, Hguard, Hcharge.
Qed.

(** *** The input guard *)

(** C8, amended.  When the content is blank after trimming and neither a
    file nor an audio blob is supplied, or when the user id is absent, the
    call returns without raising an error, leaves the stores as they were
    and makes no external call (no quota check, no upload, no append). *)
Theorem nothing_to_send_is_a_silent_no_op content file audioBlob chatId userId
    chatData participantLanguages w :
  (trim content = "" /\ file = None /\ audioBlob = None) \/ userId = "" ->
  sendMessage services content file audioBlob chatId userId chatData
    participantLanguages w
  = (inr tt, w, []).
Proof.
  intros Hguard. rewrite sendMessage_run.
  assert (nothingToSend content file audioBlob userId = true) as ->; [|done].
  unfold nothingToSend. destruct Hguard as [(-> & -> & ->)| ->]; [done|].
  apply orb_true_r.
Qed.

(** *** File sends *)

(** After a send with an oversized file and no audio blob the ledger is the
    one the message check left. *)
Lemma oversized_file_ledger content f chatId userId chatData participantLanguages w :
  userId <> "" ->
  MAX_FILE_SIZE < File.size f ->
  usage (final (sendMessage services content (Some f) None chatId userId chatData
                  participantLanguages w))
  = (ledgerCheckAndIncrementUsage userId Messages (usage w)).2.
Proof.
  intros Huser Hbig. rewrite sendMessage_run.
  assert (nothingToSend content (Some f) None userId = false) as ->.
  { unfold nothingToSend. rewrite (truthy_nonempty _ Huser).
    rewrite bool_decide_eq_true_2 by (by eexists). simpl. by rewrite andb_false_r. }
  unfold messageCharge.
  destruct (ledgerCheckAndIncrementUsage userId Messages (usage w)).1 eqn:Hmsg.
  - rewrite payload_file_run. rewrite (proj2 (N.ltb_lt _ _) Hbig).
    unfold charged, messageCharge. cbn [usage setUsage].
    by destruct (ledgerCheckFileStorageLimit _ _ _).
  - done.
Qed.

(** C5, amended.  For every send by a present user id with no audio blob and
    a file strictly larger than 10 MiB, the call is rejected with an error
    whatever the ledger answers: nothing is uploaded, no message is appended,
    and [incrementFileStorage] is never called, the ledger being left as the
    message check left it.  When the message charge is granted and the
    storage check passes, the error is the absolute-size one. *)
Theorem oversized_file_is_rejected content f chatId userId chatData
    participantLanguages w :
  userId <> "" ->
  MAX_FILE_SIZE < File.size f ->
  let r := sendMessage services content (Some f) None chatId userId chatData
             participantLanguages w in
  (exists e, outcome r = inl e /\ e <> AiInteractionLimitReached)
  /\ Forall (fun e => isUpload e = false /\ isIncrementFileStorage e = false
                      /\ isAddDoc e = false) (calls r)
  /\ blobs (final r) = blobs w
  /\ collections (final r) = collections w
  /\ usage (final r) = (ledgerCheckAndIncrementUsage userId Messages (usage w)).2
  /\ ((ledgerCheckAndIncrementUsage userId Messages (usage w)).1 = true ->
      ledgerCheckFileStorageLimit userId (File.size f)
        (ledgerCheckAndIncrementUsage userId Messages (usage w)).2 = true ->
      outcome r = inl FileTooLarge).
Proof.
  intros Huser Hbig r. subst r. rewrite sendMessage_run.
  assert (nothingToSend content (Some f) None userId = false) as ->.
  { unfold nothingToSend. rewrite (truthy_nonempty _ Huser).
    rewrite bool_decide_eq_true_2 by (by eexists). simpl. by rewrite andb_false_r. }
  unfold messageCharge.
  destruct (ledgerCheckAndIncrementUsage userId Messages (usage w)).1 eqn:Hmsg.
  - rewrite payload_file_run. rewrite (proj2 (N.ltb_lt _ _) Hbig).
    unfold charged, messageCharge. cbn [usage setUsage].
    destruct (ledgerCheckFileStorageLimit _ _ _) eqn:Hcap;
      unfold outcome, final, calls; cbn [fst snd negb usage blobs collections setUsage];
      split_and!; eauto; try (repeat constructor; fail).
    done.
  - unfold outcome, final, calls; simpl. split_and!; eauto. done.
Qed.

(** *** Hard failures *)


(** *** Audio sends *)

(** What a dispatch with an audio blob does once the message charge is
    granted: the run of the payload branch, followed by the translation step
    and, unless that rejects, the append. *)
Lemma audio_send_run content file b chatId userId chatData participantLanguages w :
  nothingToSend content file (Some b) userId = false ->
  (messageCharge userId w).1 = true ->
  let fileName := voiceFileName (dateNow services) in
  let storageRef := storagePath chatId fileName in
  let md1 :=
    withOriginalContent (transcriptOf services b)
      (withBody MsgAudio fileName (Some (downloadURLOf services storageRef))
         (newMessage userId chatId)) in
  let w2 :=
    setUsage (ledgerIncrementFileStorage userId (Blob.size b) (usage (charged userId w)))
             (setBlobs (<[storageRef := Blob.size b]> (blobs (charged userId w)))
                (charged userId w)) in
  let t2 :=
    [UploadBytes storageRef (Blob.size b); GetDownloadURL storageRef;
     IncrementFileStorage userId (Blob.size b);
     Transcribe b (bool_decide (is_Some (speechToText services b)))] in
  let stage := translateStage services content userId chatData participantLanguages
                 md1 w2 in
  sendMessage services content file (Some b) chatId userId chatData
    participantLanguages w
  = match outcome stage with
    | inl e =>
        (inl e, final stage,
         CheckAndIncrementUsage userId Messages true :: t2 ++ calls stage)
    | inr md2 =>
        (inr tt, appended chatId md2 (final stage),
         CheckAndIncrementUsage userId Messages true
         :: t2 ++ calls stage ++ [AddDoc (messagesPath chatId) md2])
    end.
Proof.
  intros Hguard Hcharge. simpl.
  rewrite sendMessage_run, Hguard, Hcharge.
  rewrite payload_audio_run.
  by destruct (translateStage _ _ _ _ _ _ _) as [[[e|md2] w3] t3].
Qed.

(** An audio send that passes the message-quota check always uploads the
    blob and calls [incrementFileStorage(userId, audioBlob.size)], once,
    whatever the size and the state of the ledger: [checkFileStorageLimit] is
    never consulted, and the send is not rejected for storage or for size. *)
Lemma audio_send_calls content file b chatId userId chatData
    participantLanguages w :
  let r := sendMessage services content file (Some b) chatId userId chatData
             participantLanguages w in
  let storageRef := storagePath chatId (voiceFileName (dateNow services)) in
  CheckAndIncrementUsage userId Messages true ∈ calls r ->
  UploadBytes storageRef (Blob.size b) ∈ calls r
  /\ blobs (final r) !! storageRef = Some (Blob.size b)
  /\ List.filter isIncrementFileStorage (calls r)
     = [IncrementFileStorage userId (Blob.size b)]
  /\ Forall (fun e => isStorageCheck e = false) (calls r)
  /\ outcome r <> inl FileStorageLimitReached
  /\ outcome r <> inl FileTooLarge.
Proof.
  intros r storageRef [Hguard Hcharge]%message_check_iff. subst r.
  rewrite (audio_send_run _ _ _ _ _ _ _ _ Hguard Hcharge).
  fold storageRef.
  set (md1 := withOriginalContent _ _). set (w2 := setUsage _ _).
  pose proof (translateStage_frame services content userId chatData
                participantLanguages md1 w2) as ((Hb & _ & _) & Hcalls & Hrej & _).
  assert (Hstage : Forall (fun e => isStorageCheck e = false)
                          (calls (translateStage services content userId chatData
                                    participantLanguages md1 w2))).
  { eapply Forall_impl; [exact Hcalls|].
    intros e He. by apply translation_stage_call_kinds in He as (_ & ? & _). }
  assert (Hnone : List.filter isIncrementFileStorage
                    (calls (translateStage services content userId chatData
                              participantLanguages md1 w2)) = []).
  { apply filter_none. eapply Forall_impl; [exact Hcalls|].
    intros e He. by apply translation_stage_call_kinds in He as (_ & _ & _ & _ & _ & ?). }
  assert (Hblob : blobs w2 !! storageRef = Some (Blob.size b)).
  { subst w2. simpl. apply lookup_insert_eq. }
  unfold outcome, final, calls in *.
  destruct (translateStage _ _ _ _ _ _ _) as [[[e|md2] w3] t3]; cbn [fst snd] in *.
  - destruct (Hrej e eq_refl) as (-> & _).
    rewrite Hb. split_and!; try done.
    + apply list_elem_of_further, list_elem_of_here.
    + simpl. by rewrite Hnone.
    + repeat (constructor; [done|]). done.
  - simpl. rewrite Hb. split_and!; try done.
    + apply list_elem_of_further, list_elem_of_here.
    + by rewrite List.filter_app, Hnone.
    + repeat (constructor; [done|]). apply Forall_app. split; [done|].
      by repeat constructor.
Qed.

(** A failed transcription call is only made for the audio blob of a
    dispatch that passed the message charge. *)
Lemma failed_transcription_inv content file audioBlob chatId userId chatData
    participantLanguages w b :
  Transcribe b false
    ∈ calls (sendMessage services content file audioBlob chatId userId chatData
               participantLanguages w) ->
  audioBlob = Some b /\ speechToText services b = None
  /\ nothingToSend content file audioBlob userId = false
  /\ (messageCharge userId w).1 = true.
Proof.
  rewrite sendMessage_run.
  destruct (nothingToSend _ _ _ _); [by intros ?%elem_of_nil|].
  destruct (messageCharge userId w).1;
    [|unfold calls; simpl; by intros [=]%list_elem_of_singleton].
  assert (Hstage : forall md1 w2,
    Transcribe b false
      ∉ calls (translateStage services content userId chatData participantLanguages
                 md1 w2)).
  { intros md1 w2 Hin.
    pose proof (translateStage_frame services content userId chatData
                  participantLanguages md1 w2) as (_ & Hall & _).
    rewrite Forall_forall in Hall.
    by apply Hall, translation_stage_call_kinds in Hin as (_ & _ & _ & ? & _). }
  assert (Hrest : forall md1 w2 (t2 : list Event),
    Transcribe b false ∈
      calls (match translateStage services content userId chatData participantLanguages
                     md1 w2 with
             | (inl e, w3, t3) =>
                 (@inl SendError unit e, w3,
                  CheckAndIncrementUsage userId Messages true :: t2 ++ t3)
             | (inr md2, w3, t3) =>
                 (inr tt, appended chatId md2 w3,
                  CheckAndIncrementUsage userId Messages true
                  :: t2 ++ t3 ++ [AddDoc (messagesPath chatId) md2])
             end) ->
    Transcribe b false ∈ t2).
  { intros md1 w2 t2. specialize (Hstage md1 w2).
    destruct (translateStage _ _ _ _ _ _ _) as [[[e|md2] w3] t3];
      unfold calls in *; cbn [fst snd] in *.
    - rewrite elem_of_cons, elem_of_app. naive_solver.
    - rewrite elem_of_cons, !elem_of_app, list_elem_of_singleton. naive_solver. }
  destruct audioBlob as [b'|]; [|destruct file as [f|]].
  - rewrite payload_audio_run. intros Hin%Hrest.
    rewrite !elem_of_cons in Hin.
    destruct Hin as [?|[?|[?|[Heq|?%elem_of_nil]]]]; try done.
    injection Heq as <- Hfail. split_and!; try done.
    symmetry in Hfail. apply bool_decide_eq_false in Hfail.
    destruct (speechToText services b); [|done]. destruct Hfail. by eexists.
  - rewrite payload_file_run.
    destruct (negb _); [|destruct (_ <? _)].
    + unfold calls; simpl. intros Hin. absurd_elem Hin.
    + unfold calls; simpl. intros Hin. absurd_elem Hin.
    + intros Hin%Hrest. absurd_elem Hin.
  - rewrite payload_text_run. by intros ?%Hrest%elem_of_nil.
Qed.

(** For every audio send where the transcription call fails,
    [incrementFileStorage] has been called once, with the blob's byte size,
    and the dispatch completes, appending a message of type "audio" whose
    [originalContent] is "Transcription failed", unless the chat is an AI chat
    and the AI-interaction check is denied; in that case the send is rejected
    and no message is appended. *)
Lemma failed_transcription_run content file audioBlob chatId userId
    chatData participantLanguages w b :
  let r := sendMessage services content file audioBlob chatId userId chatData
             participantLanguages w in
  Transcribe b false ∈ calls r ->
  List.filter isIncrementFileStorage (calls r)
  = [IncrementFileStorage userId (Blob.size b)]
  /\ (((CheckAndIncrementUsage userId AiInteractions false ∉ calls r)
       /\ outcome r = inr tt
       /\ exists m,
            messagesOf chatId (final r) = messagesOf chatId w ++ [m]
            /\ type m = Some MsgAudio
            /\ originalContent m = Some "Transcription failed")
      \/ (CheckAndIncrementUsage userId AiInteractions false ∈ calls r
          /\ chatType <$> chatData = Some ai
          /\ outcome r = inl AiInteractionLimitReached
          /\ messagesOf chatId (final r) = messagesOf chatId w)).
Proof.
  intros r (-> & Hstt & Hguard & Hcharge)%failed_transcription_inv. subst r.
  rewrite (audio_send_run _ _ _ _ _ _ _ _ Hguard Hcharge).
  unfold transcriptOf. rewrite Hstt. cbn [default].
  set (md1 := withOriginalContent _ _). set (w2 := setUsage _ _).
  assert (Hcoll : collections w2 = collections w) by done.
  pose proof (translateStage_frame services content userId chatData
                participantLanguages md1 w2) as ((_ & _ & Htc) & Hcalls & Hrej & Hres).
  assert (Hnone : List.filter isIncrementFileStorage
                    (calls (translateStage services content userId chatData
                              participantLanguages md1 w2)) = []).
  { apply filter_none. eapply Forall_impl; [exact Hcalls|].
    intros e He. by apply translation_stage_call_kinds in He as (_ & _ & _ & _ & _ & ?). }
  unfold outcome, final, calls in *.
  destruct (translateStage _ _ _ _ _ _ _) as [[[e|md2] w3] t3]; cbn [fst snd] in *.
  - destruct (Hrej e eq_refl) as (-> & -> & Hai).
    split; [done|]. right. split_and!; try done.
    + do 5 apply list_elem_of_further. apply list_elem_of_here.
    + apply messagesOf_kept. by rewrite Htc.
  - destruct (Hres md2 eq_refl) as (_ & Htype & Horig & _ & Hnot).
    split; [by simpl; rewrite List.filter_app, Hnone|]. left. split_and!; try done.
    + intros Hin. simpl in Hin.
      repeat (apply elem_of_cons in Hin as [Hin|Hin]; [discriminate Hin|]).
      apply elem_of_app in Hin as [Hin|Hin]; [by apply Hnot|absurd_elem Hin].
    + exists md2. rewrite messagesOf_appended. split_and!; try done.
      f_equal. apply messagesOf_kept. by rewrite Htc.
Qed.

(** *** AI chats *)

(** C4, amended.  For every text or audio send into an AI chat that passes
    the message-quota check, no translation-quota charge is attempted and
    nothing is translated; exactly one
    [checkAndIncrementUsage(userId, "aiInteractions")] is performed, and if it
    is denied the whole send fails with the AI-limit error and no message is
    appended. *)
Theorem ai_chat_single_interaction_check content file audioBlob chatId userId chat
    participantLanguages w :
  let r := sendMessage services content file audioBlob chatId userId (Some chat)
             participantLanguages w in
  chatType chat = ai ->
  file = None \/ is_Some audioBlob ->
  CheckAndIncrementUsage userId Messages true ∈ calls r ->
  Forall (fun e => isTranslationsCheck e = false /\ isTranslate e = false) (calls r)
  /\ exists allowed : bool,
       List.filter isAiInteractionsCheck (calls r)
       = [CheckAndIncrementUsage userId AiInteractions allowed]
       /\ if allowed
          then outcome r = inr tt
          else outcome r = inl AiInteractionLimitReached
               /\ messagesOf chatId (final r) = messagesOf chatId w
               /\ collections (final r) = collections w.
Proof.
  intros r Hchat Hkind [Hguard Hcharge]%message_check_iff.
  subst r. rewrite sendMessage_run, Hguard, Hcharge.
  destruct (payload_text_or_audio services content file audioBlob chatId userId
              (charged userId w) Hkind)
    as (md1 & w2 & t2 & -> & Hty & _ & Ht2 & Hc & _).
  rewrite (translateStage_ai_run _ _ _ _ _ _ _ Hty Hchat).
  assert (Ht2' : Forall (fun e => isTranslationsCheck e = false /\ isTranslate e = false) t2).
  { eapply Forall_impl; [exact Ht2|].
    intros e He. by apply payload_call_kinds in He as (_ & ? & _ & ? & _). }
  assert (Ht2ai : List.filter isAiInteractionsCheck t2 = []).
  { apply filter_none. eapply Forall_impl; [exact Ht2|].
    intros e He. by apply payload_call_kinds in He as (_ & _ & ? & _). }
  destruct (ledgerCheckAndIncrementUsage userId AiInteractions (usage w2)).1;
    unfold outcome, final, calls; cbn [fst snd].
  - split.
    + constructor; [done|]. apply Forall_app. split; [done|]. by repeat constructor.
    + exists true. split; [|done]. by simpl; rewrite List.filter_app, Ht2ai.
  - split.
    + constructor; [done|]. apply Forall_app. split; [done|]. by repeat constructor.
    + exists false. split; [by simpl; rewrite List.filter_app, Ht2ai|].
      assert (Hcw : collections w2 = collections w) by (by rewrite Hc).
      split_and!; [done| |done].
      by apply messagesOf_kept.
Qed.

(** *** Private chats *)

(** C2.  For every text or audio send into a private chat where the other
    participant's profile is found: when the translation-quota check
    succeeds, the persisted message's content is the translation of the input
    text (the typed text, or the transcript of the voice note) into the
    recipient's preferred language, "en" when none is set; when the check is
    denied, the content is the input text unchanged.  In both cases the send
    completes without error. *)
Theorem private_chat_translation typedText file audioBlob chatId userId chat
    participantLanguages w other userData (allowed : bool) :
  let r := sendMessage services typedText file audioBlob chatId userId (Some chat)
             participantLanguages w in
  let text := inputText services typedText audioBlob in
  let lang := orElse (preferredLang userData) "en" in
  file = None \/ is_Some audioBlob ->
  chatType chat = private ->
  find (fun p => negb (String.eqb p userId)) (participants chat) = Some other ->
  users w !! other = Some userData ->
  CheckAndIncrementUsage userId Translations allowed ∈ calls r ->
  outcome r = inr tt
  /\ exists m,
       messagesOf chatId (final r) = messagesOf chatId w ++ [m]
       /\ content m
          = Some (Plain (if allowed then translationOf services text lang else text)).
Proof.
  intros r text lang Hkind Hchat Hfind Huser. subst r. rewrite sendMessage_run.
  destruct (nothingToSend _ _ _ _); [by intros ?%elem_of_nil|].
  destruct (messageCharge userId w).1;
    [|unfold calls; simpl; by intros [=]%list_elem_of_singleton].
  destruct (payload_text_or_audio services typedText file audioBlob chatId userId
              (charged userId w) Hkind)
    as (md1 & w2 & t2 & -> & Hty & Htext & Ht2 & Hc & Hu).
  assert (Hnot2 : CheckAndIncrementUsage userId Translations allowed ∉ t2).
  { intros Hin. rewrite Forall_forall in Ht2.
    by apply Ht2, payload_call_kinds in Hin as (_ & ? & _). }
  destruct (truthy other) eqn:Htruthy.
  - assert (Huser2 : users w2 !! other = Some userData) by (by rewrite Hu).
    rewrite (translateStage_private_run _ _ _ _ _ _ _ _ _ Hty Hchat Hfind Htruthy Huser2).
    rewrite Htext. fold text lang.
    unfold outcome, final, calls; cbn [fst snd].
    rewrite elem_of_cons, !elem_of_app, !elem_of_cons.
    intros [?|[?|[[?|[Heq|Hin]]|Hin]]]; try done.
    + injection Heq as ->. split; [done|].
      eexists. split.
      * rewrite messagesOf_appended. f_equal. apply messagesOf_kept.
        simpl. by rewrite Hc.
      * done.
    + destruct (_.1); [absurd_elem Hin|by apply elem_of_nil in Hin].
    + by destruct Hin as [?|?%elem_of_nil].
  - unfold translateStage. rewrite Hty, Hchat, Hfind, Htruthy.
    unfold calls, ret; cbn [fst snd].
    rewrite elem_of_cons, !elem_of_app. simpl.
    intros [?|[?|[Hin|Hin]]]; try done; absurd_elem Hin.
Qed.

(** *** Group chats *)


(** A text or audio send into a group chat that passes the message-quota
    check does persist a message. *)
Lemma group_chat_send_persists typedText file audioBlob chatId userId chat
    participantLanguages w :
  file = None \/ is_Some audioBlob ->
  chatType chat = group ->
  CheckAndIncrementUsage userId Messages true
    ∈ calls (sendMessage services typedText file audioBlob chatId userId (Some chat)
               participantLanguages w) ->
  exists m,
    AddDoc (messagesPath chatId) m
      ∈ calls (sendMessage services typedText file audioBlob chatId userId (Some chat)
                 participantLanguages w).
Proof.
  intros Hkind Hchat [Hguard Hcharge]%message_check_iff.
  rewrite sendMessage_run, Hguard, Hcharge.
  destruct (payload_text_or_audio services typedText file audioBlob chatId userId
              (charged userId w) Hkind) as (md1 & w2 & t2 & -> & Hty & _).
  destruct (translateStage_group_run services typedText userId chat participantLanguages
              md1 w2 Hty Hchat) as (tr & t3 & -> & _).
  eexists. unfold calls; cbn [fst snd].
  rewrite elem_of_cons, !elem_of_app, list_elem_of_singleton. eauto.
Qed.

End DispatcherProperties.

(** ** How the ledger evolves during a dispatch *)

Section LedgerEvolution.

Context {L : Type} {ledger : UsageTracking L}.
Variable services : Services.
Implicit Types (w : World L) (P : L -> Prop).

Lemma afterFanOut_invariant P userId n l :
  (forall l, P l -> P (ledgerCheckAndIncrementUsage userId Translations l).2) ->
  P l -> P (afterFanOut userId n l).
Proof.
  intros Hstep. revert l. induction n as [|n IH]; intros l Hl; [done|].
  simpl. by apply IH, Hstep.
Qed.

(** The translation step updates the ledger through translation and
    AI-interaction charges only. *)
Lemma translateStage_ledger_invariant P content userId chatData langs md w :
  (forall r l, r <> Messages -> P l -> P (ledgerCheckAndIncrementUsage userId r l).2) ->
  P (usage w) ->
  P (usage (final (translateStage services content userId chatData langs md w))).
Proof.
  intros Hstep Hw.
  destruct (isTextOrAudio (type md)) eqn:Hty;
    [|by rewrite translateStage_other by done].
  destruct chatData as [chat|]; [|unfold translateStage; by rewrite Hty].
  destruct (chatType chat) eqn:Hchat.
  - destruct (find (fun p => negb (String.eqb p userId)) (participants chat))
      as [other|] eqn:Hfind;
      [destruct (truthy other) eqn:Htruthy;
       [destruct (users w !! other) as [userData|] eqn:Huser|]|].
    + rewrite (translateStage_private_run _ _ _ _ _ _ _ _ _ Hty Hchat Hfind Htruthy Huser).
      by apply Hstep.
    + unfold translateStage. rewrite Hty, Hchat, Hfind, Htruthy.
      run. by rewrite Huser.
    + unfold translateStage. by rewrite Hty, Hchat, Hfind, Htruthy.
    + unfold translateStage. by rewrite Hty, Hchat, Hfind.
  - destruct (translateStage_group_run services content userId chat langs md w Hty Hchat)
      as (tr & t & -> & _).
    apply afterFanOut_invariant; [|done]. intros l. by apply Hstep.
  - rewrite (translateStage_ai_run _ _ _ _ _ _ _ Hty Hchat).
    destruct (_.1); by apply Hstep.
Qed.

(** The payload branch updates the ledger through [incrementFileStorage]
    only. *)
Lemma payload_ledger_invariant P content file audioBlob chatId userId md w :
  (forall n l, P l -> P (ledgerIncrementFileStorage userId n l)) ->
  P (usage w) ->
  P (usage (final (payload services content file audioBlob chatId userId md w))).
Proof.
  intros Hstep Hw.
  destruct audioBlob as [b|]; [|destruct file as [f|]].
  - rewrite payload_audio_run. by apply Hstep.
  - rewrite payload_file_run.
    destruct (negb _); [done|]. destruct (_ <? _); [done|]. by apply Hstep.
  - by rewrite payload_text_run.
Qed.

(** A dispatch past its message charge leaves the ledger in a state reached
    from the charged one through storage increments and translation and
    AI-interaction charges: no step takes the message charge back. *)
Lemma accepted_ledger_invariant P content file audioBlob chatId userId chatData
    langs w :
  nothingToSend content file audioBlob userId = false ->
  (messageCharge userId w).1 = true ->
  (forall n l, P l -> P (ledgerIncrementFileStorage userId n l)) ->
  (forall r l, r <> Messages -> P l -> P (ledgerCheckAndIncrementUsage userId r l).2) ->
  P (messageCharge userId w).2 ->
  P (usage (final (sendMessage services content file audioBlob chatId userId chatData
                     langs w))).
Proof.
  intros Hguard Hcharge Hadd Hcheck Hstart.
  rewrite sendMessage_run, Hguard, Hcharge.
  pose proof (payload_ledger_invariant P content file audioBlob chatId userId
                (newMessage userId chatId) (charged userId w) Hadd Hstart) as Hp.
  destruct (payload _ _ _ _ _ _ _ _) as [[[e|md1] w2] t2];
    unfold final in *; cbn [fst snd] in *; [done|].
  pose proof (translateStage_ledger_invariant P content userId chatData langs md1 w2
                Hcheck Hp) as Ht.
  by destruct (translateStage _ _ _ _ _ _ _) as [[[e|md2] w3] t3].
Qed.

(** An audio send past its message charge leaves the ledger as
    [incrementFileStorage(userId, audioBlob.size)] made it from the charged
    one, but for the translation and AI-interaction charges that follow. *)
Lemma audio_send_ledger content file b chatId userId chatData langs w :
  nothingToSend content file (Some b) userId = false ->
  (messageCharge userId w).1 = true ->
  chargedOn userId
    (ledgerIncrementFileStorage userId (Blob.size b) (messageCharge userId w).2)
    (usage (final (sendMessage services content file (Some b) chatId userId chatData
                     langs w))).
Proof.
  intros Hguard Hcharge.
  rewrite (audio_send_run _ _ _ _ _ _ _ _ _ Hguard Hcharge).
  set (md1 := withOriginalContent _ _). set (w2 := setUsage _ _).
  pose proof (translateStage_ledger_invariant
                (chargedOn userId
                   (ledgerIncrementFileStorage userId (Blob.size b)
                      (messageCharge userId w).2))
                content userId chatData langs md1 w2) as Hstage.
  unfold outcome, final in *.
  destruct (translateStage _ _ _ _ _ _ _) as [[[e|md2] w3] t3]; cbn [fst snd] in *;
    apply Hstage; try (by constructor); intros r l Hr Hl; by constructor.
Qed.

End LedgerEvolution.

(** ** Counter values, for a ledger that keeps the design's contract *)

Section CounterValues.

Context {L : Type} {ledger : UsageTracking L} {contract : UsageContract L}.
Variable services : Services.
Implicit Types (w : World L).

(** A denied message check changes nothing at all. *)
Lemma denied_message_check_changes_nothing content file audioBlob chatId userId
    chatData participantLanguages w :
  let r := sendMessage services content file audioBlob chatId userId chatData
             participantLanguages w in
  CheckAndIncrementUsage userId Messages false ∈ calls r ->
  final r = w
  /\ limitFor userId Messages <= usedOf userId Messages (usage w).
Proof.
  intros r [Hguard Hcharge]%message_check_iff. subst r.
  rewrite sendMessage_run, Hguard, Hcharge.
  unfold messageCharge in *. split.
  - unfold final, charged, messageCharge; cbn [fst snd].
    rewrite (check_denied _ _ _ Hcharge). apply setUsage_same.
  - rewrite check_allowed in Hcharge. by apply N.ltb_ge.
Qed.

(** A hard failure other than the message-quota denial leaves the sender's
    message counter one higher than it was. *)
Lemma hard_failure_keeps_message_charge content file audioBlob chatId userId
    chatData participantLanguages w e :
  let r := sendMessage services content file audioBlob chatId userId chatData
             participantLanguages w in
  outcome r = inl e ->
  e <> MessageLimitReached ->
  usedOf userId Messages (usage (final r)) = usedOf userId Messages (usage w) + 1.
Proof.
  intros r Hout He. subst r.
  assert (Hpassed : nothingToSend content file audioBlob userId = false
                    /\ (messageCharge userId w).1 = true).
  { rewrite sendMessage_run in Hout.
    destruct (nothingToSend _ _ _ _); [done|].
    destruct (messageCharge userId w).1; [done|].
    unfold outcome in Hout; simpl in Hout. congruence. }
  destruct Hpassed as [Hguard Hcharge].
  apply (accepted_ledger_invariant services
           (fun l => usedOf userId Messages l = usedOf userId Messages (usage w) + 1));
    try done.
  - intros n l <-. apply add_used.
  - intros r l Hr <-. apply check_other. congruence.
  - by apply check_granted.
Qed.

(** The rejected oversized file leaves every storage counter as it was. *)
Lemma oversized_file_keeps_storage_counter content f chatId userId chatData
    participantLanguages w u :
  userId <> "" ->
  MAX_FILE_SIZE < File.size f ->
  storedBytesOf u (usage (final (sendMessage services content (Some f) None chatId
                                   userId chatData participantLanguages w)))
  = storedBytesOf u (usage w).
Proof.
  intros Huser Hbig.
  rewrite (oversized_file_ledger services content f chatId userId chatData
             participantLanguages w Huser Hbig).
  apply check_stored.
Qed.

(** The audio send of C10 leaves the sender's storage counter higher by the
    blob's byte size. *)
Lemma audio_send_charges_storage content file b chatId userId chatData
    participantLanguages w :
  let r := sendMessage services content file (Some b) chatId userId chatData
             participantLanguages w in
  CheckAndIncrementUsage userId Messages true ∈ calls r ->
  storedBytesOf userId (usage (final r)) = storedBytesOf userId (usage w) + Blob.size b.
Proof.
  intros r [Hguard Hcharge]%message_check_iff. subst r.
  rewrite (audio_send_run _ _ _ _ _ _ _ _ _ Hguard Hcharge).
  set (md1 := withOriginalContent _ _). set (w2 := setUsage _ _).
  assert (Hw2 : storedBytesOf userId (usage w2)
                = storedBytesOf userId (usage w) + Blob.size b).
  { subst w2. cbn [usage setUsage]. rewrite add_stored.
    f_equal. apply check_stored. }
  pose proof (translateStage_ledger_invariant services
                (fun l => storedBytesOf userId l
                          = storedBytesOf userId (usage w) + Blob.size b)
                content userId chatData participantLanguages md1 w2) as Hstage.
  unfold outcome, final in *.
  destruct (translateStage _ _ _ _ _ _ _) as [[[e|md2] w3] t3]; cbn [fst snd] in *;
    apply Hstage; try done; intros r l _ <-; apply check_stored.
Qed.



End CounterValues.

(** ** Group chats *)

Section GroupChats.

Context {L : Type} {ledger : UsageTracking L}.
Variable services : Services.
Implicit Types (w : World L).


End GroupChats.

(** ** Audio sends and the storage counter *)

Section AudioSends.

Context {L : Type} {ledger : UsageTracking L}.
Variable services : Services.
Implicit Types (w : World L).

(** C10.  For every audio send that passes the message-quota check the
    file-storage counter is incremented by the blob's byte size,
    unconditionally: the ledger the send leaves is the one
    [incrementFileStorage(userId, audioBlob.size)] made of the charged
    ledger, but for translation and AI-interaction charges, so that under the
    contract of the design the sender's storage counter is higher by the
    blob's size, whatever the size and the state of the ledger.  The blob is
    uploaded, [checkFileStorageLimit] is never consulted, the 10 MiB cap is
    not applied, and the send is not rejected for storage or for size. *)
Theorem audio_is_charged_unconditionally content file b chatId userId chatData
    participantLanguages w :
  let r := sendMessage services content file (Some b) chatId userId chatData
             participantLanguages w in
  let storageRef := storagePath chatId (voiceFileName (dateNow services)) in
  CheckAndIncrementUsage userId Messages true ∈ calls r ->
  chargedOn userId
    (ledgerIncrementFileStorage userId (Blob.size b) (messageCharge userId w).2)
    (usage (final r))
  /\ (forall contract : UsageContract L,
        storedBytesOf userId (usage (final r))
        = storedBytesOf userId (usage w) + Blob.size b)
  /\ UploadBytes storageRef (Blob.size b) ∈ calls r
  /\ blobs (final r) !! storageRef = Some (Blob.size b)
  /\ List.filter isIncrementFileStorage (calls r)
     = [IncrementFileStorage userId (Blob.size b)]
  /\ Forall (fun e => isStorageCheck e = false) (calls r)
  /\ outcome r <> inl FileStorageLimitReached
  /\ outcome r <> inl FileTooLarge.
Proof.
  intros r storageRef Hpassed.
  split; [|split].
  - apply message_check_iff in Hpassed as [Hguard Hcharge].
    by apply audio_send_ledger.
  - intros contract. by apply audio_send_charges_storage.
  - by apply audio_send_calls.
Qed.

(** C6, amended.  For every audio send where the transcription call fails,
    the file-storage counter has been incremented by the blob's byte size
    (the ledger is the one [incrementFileStorage(userId, audioBlob.size)]
    made of the charged ledger, but for translation and AI-interaction
    charges; under the contract of the design the sender's storage counter is
    higher by the blob's size), and the dispatch completes, appending a
    message of type "audio" whose [originalContent] is "Transcription
    failed", unless the chat is an AI chat and the AI-interaction check is
    denied; in that case the send is rejected and no message is appended. *)
Theorem failed_transcription_is_not_fatal content file audioBlob chatId userId
    chatData participantLanguages w b :
  let r := sendMessage services content file audioBlob chatId userId chatData
             participantLanguages w in
  Transcribe b false ∈ calls r ->
  chargedOn userId
    (ledgerIncrementFileStorage userId (Blob.size b) (messageCharge userId w).2)
    (usage (final r))
  /\ (forall contract : UsageContract L,
        storedBytesOf userId (usage (final r))
        = storedBytesOf userId (usage w) + Blob.size b)
  /\ List.filter isIncrementFileStorage (calls r)
     = [IncrementFileStorage userId (Blob.size b)]
  /\ (((CheckAndIncrementUsage userId AiInteractions false ∉ calls r)
       /\ outcome r = inr tt
       /\ exists m,
            messagesOf chatId (final r) = messagesOf chatId w ++ [m]
            /\ type m = Some MsgAudio
            /\ originalContent m = Some "Transcription failed")
      \/ (CheckAndIncrementUsage userId AiInteractions false ∈ calls r
          /\ chatType <$> chatData = Some ai
          /\ outcome r = inl AiInteractionLimitReached
          /\ messagesOf chatId (final r) = messagesOf chatId w)).
Proof.
  intros r Hfailed.
  pose proof (failed_transcription_inv services _ _ _ _ _ _ _ _ _ Hfailed)
    as (-> & _ & Hguard & Hcharge).
  split; [|split].
  - by apply audio_send_ledger.
  - intros contract. apply audio_send_charges_storage.
    by apply message_check_iff.
  - by apply failed_transcription_run.
Qed.

End AudioSends.

(** ** The ledger of the design document keeps the contract *)

Section DesignLedger.

Variable plan : string -> TierLimits.
Implicit Types (l : gmap string UsageCounters).

Lemma usageOf_insert_eq userId (u : UsageCounters) l :
  usageOf userId (<[userId := u]> l) = u.
Proof. unfold usageOf. by rewrite lookup_insert_eq. Qed.

Lemma usageOf_insert_ne userId other (u : UsageCounters) l :
  userId <> other -> usageOf other (<[userId := u]> l) = usageOf other l.
Proof. intros Hne. unfold usageOf. by rewrite lookup_insert_ne. Qed.

Lemma design_check_allowed u r l :
  (designCheckAndIncrement plan u r l).1
  = (used r (usageOf u l) <? limitOf r (plan u)).
Proof. unfold designCheckAndIncrement. by destruct (_ <? _). Qed.

Lemma design_check_denied u r l :
  (designCheckAndIncrement plan u r l).1 = false ->
  (designCheckAndIncrement plan u r l).2 = l.
Proof. unfold designCheckAndIncrement. by destruct (_ <? _). Qed.

Lemma design_check_granted u r l :
  (designCheckAndIncrement plan u r l).1 = true ->
  used r (usageOf u (designCheckAndIncrement plan u r l).2) = used r (usageOf u l) + 1.
Proof.
  unfold designCheckAndIncrement. destruct (_ <? _); [|done]. intros _.
  cbn [snd]. rewrite usageOf_insert_eq. by destruct r.
Qed.

Lemma design_check_other u r l u' r' :
  (u', r') <> (u, r) ->
  used r' (usageOf u' (designCheckAndIncrement plan u r l).2) = used r' (usageOf u' l).
Proof.
  intros Hne. unfold designCheckAndIncrement. destruct (_ <? _); [|done].
  cbn [snd]. destruct (decide (u = u')) as [->|Hu].
  - rewrite usageOf_insert_eq. destruct r, r'; try done; by destruct Hne.
  - by rewrite usageOf_insert_ne.
Qed.

Lemma design_check_stored u r l u' :
  fileStorageBytes (usageOf u' (designCheckAndIncrement plan u r l).2)
  = fileStorageBytes (usageOf u' l).
Proof.
  unfold designCheckAndIncrement. destruct (_ <? _); [|done].
  cbn [snd]. destruct (decide (u = u')) as [->|Hu].
  - rewrite usageOf_insert_eq. by destruct r.
  - by rewrite usageOf_insert_ne.
Qed.

Lemma design_add_stored u n l :
  fileStorageBytes (usageOf u (designIncrementFileStorage u n l))
  = fileStorageBytes (usageOf u l) + n.
Proof. unfold designIncrementFileStorage. by rewrite usageOf_insert_eq. Qed.

Lemma design_add_stored_other u n l u' :
  u' <> u ->
  fileStorageBytes (usageOf u' (designIncrementFileStorage u n l))
  = fileStorageBytes (usageOf u' l).
Proof.
  intros Hne. unfold designIncrementFileStorage. by rewrite usageOf_insert_ne.
Qed.

Lemma design_add_used u n l u' r :
  used r (usageOf u' (designIncrementFileStorage u n l)) = used r (usageOf u' l).
Proof.
  unfold designIncrementFileStorage. destruct (decide (u = u')) as [->|Hu].
  - rewrite usageOf_insert_eq. by destruct r.
  - by rewrite usageOf_insert_ne.
Qed.

(** After a successful check-and-increment the counter is within the limit
    (design 3, invariant of [UsageCounters]). *)
Lemma design_check_within_limit u r l :
  (designCheckAndIncrement plan u r l).1 = true ->
  used r (usageOf u (designCheckAndIncrement plan u r l).2) <= limitOf r (plan u).
Proof.
  intros Hc. rewrite (design_check_granted _ _ _ Hc).
  rewrite design_check_allowed in Hc. apply N.ltb_lt in Hc. lia.
Qed.

#[global] Instance designContract
  : @UsageContract (gmap string UsageCounters) (designLedger plan).
Proof.
  refine {| usedOf := fun u r l => used r (usageOf u l);
            storedBytesOf := fun u l => fileStorageBytes (usageOf u l);
            limitFor := fun u r => limitOf r (plan u);
            storageLimitFor := fun u => fileStorage (plan u) |}.
  - exact design_check_allowed.
  - exact design_check_denied.
  - exact design_check_granted.
  - exact design_check_other.
  - exact design_check_stored.
  - reflexivity.
  - exact design_add_stored.
  - exact design_add_stored_other.
  - exact design_add_used.
Defined.

End DesignLedger.

(** ** Worked scenarios, on the ledger of the design document *)

Lemma message_quota_denial_witness :
  CheckAndIncrementUsage "alice" Messages false ∈ calls sendAtMessageLimit
  /\ outcome sendAtMessageLimit = inl MessageLimitReached
  /\ calls sendAtMessageLimit = [CheckAndIncrementUsage "alice" Messages false]
  /\ messagesOf "c1" (final sendAtMessageLimit)
     = messagesOf "c1" (worldOf (usageWith 100 0 0 0))
  /\ collections (final sendAtMessageLimit) = collections (worldOf (usageWith 100 0 0 0))
  /\ blobs (final sendAtMessageLimit) = blobs (worldOf (usageWith 100 0 0 0))
  /\ usage (final sendAtMessageLimit)
     = (ledgerCheckAndIncrementUsage "alice" Messages
          (usage (worldOf (usageWith 100 0 0 0)))).2.
Proof.
  assert (Hdenied : CheckAndIncrementUsage "alice" Messages false
                      ∈ calls sendAtMessageLimit).
  { vm_compute. apply list_elem_of_here. }
  split; [exact Hdenied|].
  exact (message_quota_denial_is_a_hard_stop stubServices "hi" None None "c1" "alice"
           (Some privateChat) [] (worldOf (usageWith 100 0 0 0)) Hdenied).
Defined.

(** The same send leaves Alice's counters, and everything else, untouched. *)
Example message_quota_denial_scenario :
  final sendAtMessageLimit = worldOf (usageWith 100 0 0 0).
Proof. vm_compute. reflexivity. Qed.

(** C8 (as stated in the design: the call fails).  A blank text with no
    file and no audio, and a send without a user id, both resolve: the guard
    of line 21 returns instead of throwing. *)
Lemma nothing_to_send_is_not_an_error :
  let blank :=
    sendMessage stubServices "   " None None "c1" "alice" (Some privateChat) []
                (worldOf noUsage) in
  let anonymous :=
    sendMessage stubServices "hi" None None "c1" "" (Some privateChat) []
                (worldOf noUsage) in
  trim "   " = ""
  /\ outcome blank = inr tt /\ ~ (exists e, outcome blank = inl e)
  /\ outcome anonymous = inr tt /\ ~ (exists e, outcome anonymous = inl e).
Proof.
  vm_compute. split_and!; try done; by intros [e ?].
Qed.

Lemma nothing_to_send_witness :
  ((trim "   " = "" /\ @None File.t = None /\ @None Blob.t = None) \/ "alice" = "")
  /\ sendMessage stubServices "   " None None "c1" "alice" (Some privateChat) []
       (worldOf noUsage)
     = (inr tt, worldOf noUsage, []).
Proof.
  assert (Hguard : (trim "   " = "" /\ @None File.t = None /\ @None Blob.t = None)
                   \/ "alice" = "").
  { left. split_and!; reflexivity. }
  split; [exact Hguard|].
  exact (nothing_to_send_is_a_silent_no_op stubServices "   " None None "c1" "alice"
           (Some privateChat) [] (worldOf noUsage) Hguard).
Defined.

(** C5 (as stated in the design: every send with such a file is rejected).
    When an audio blob accompanies the file the audio branch runs and the
    file is never looked at: the 12 MiB file does not stop the send, the
    voice note is uploaded and charged, and a message is appended.  And a
    send without a user id, file or not, returns without an error. *)
Lemma oversized_file_not_always_rejected :
  let besideAudio :=
    sendMessage stubServices "" (Some bigFile) (Some voiceNote) "c1" "alice"
                (Some privateChat) [] (worldOf noUsage) in
  let anonymous :=
    sendMessage stubServices "" (Some bigFile) None "c1" ""
                (Some privateChat) [] (worldOf noUsage) in
  MAX_FILE_SIZE < File.size bigFile
  /\ (outcome besideAudio = inr tt
      /\ ~ (exists e, outcome besideAudio = inl e)
      /\ UploadBytes (storagePath "c1" (voiceFileName 1700000000000)) 2048
           ∈ calls besideAudio
      /\ length (messagesOf "c1" (final besideAudio)) = 1%nat
      /\ fileStorageBytes (usageOf "alice" (usage (final besideAudio))) = 2048)
  /\ (outcome anonymous = inr tt /\ ~ (exists e, outcome anonymous = inl e)).
Proof.
  vm_compute. split_and!; try done.
  - by intros [e ?].
  - apply list_elem_of_further, list_elem_of_here.
  - by intros [e ?].
Qed.

Lemma oversized_file_witness :
  let r :=
    sendMessage stubServices "" (Some bigFile) None "c1" "alice" (Some privateChat) []
                (worldOf noUsage) in
  "alice" <> ""
  /\ MAX_FILE_SIZE < File.size bigFile
  /\ (exists e, outcome r = inl e /\ e <> AiInteractionLimitReached)
  /\ Forall (fun e => isUpload e = false /\ isIncrementFileStorage e = false
                      /\ isAddDoc e = false) (calls r)
  /\ blobs (final r) = blobs (worldOf noUsage)
  /\ collections (final r) = collections (worldOf noUsage)
  /\ usage (final r)
     = (ledgerCheckAndIncrementUsage "alice" Messages (usage (worldOf noUsage))).2
  /\ ((ledgerCheckAndIncrementUsage "alice" Messages (usage (worldOf noUsage))).1 = true ->
      ledgerCheckFileStorageLimit "alice" (File.size bigFile)
        (ledgerCheckAndIncrementUsage "alice" Messages (usage (worldOf noUsage))).2
      = true ->
      outcome r = inl FileTooLarge).
Proof.
  assert (Huser : "alice" <> "") by discriminate.
  assert (Hbig : MAX_FILE_SIZE < File.size bigFile) by reflexivity.
  split; [exact Huser|]. split; [exact Hbig|].
  exact (oversized_file_is_rejected stubServices "" bigFile "c1" "alice"
           (Some privateChat) [] (worldOf noUsage) Huser Hbig).
Defined.

(** The scenario of the design: a 12 MiB file fails with the absolute-size
    error, nothing is uploaded and the storage counter is unchanged. *)
Example oversized_file_scenario :
  let r :=
    sendMessage stubServices "" (Some bigFile) None "c1" "alice" (Some privateChat) []
                (worldOf noUsage) in
  outcome r = inl FileTooLarge
  /\ blobs (final r) = ∅
  /\ fileStorageBytes (usageOf "alice" (usage (final r))) = 0.
Proof. vm_compute. by split_and!. Qed.



Lemma audio_is_charged_witness :
  let storageRef := storagePath "c1" (voiceFileName (dateNow stubServices)) in
  let w := worldOf (usageWith 0 0 0 (50 * 1024 * 1024)) in
  CheckAndIncrementUsage "alice" Messages true ∈ calls audioOverQuota
  /\ chargedOn "alice"
       (ledgerIncrementFileStorage "alice" (Blob.size largeVoiceNote)
          (messageCharge "alice" w).2)
       (usage (final audioOverQuota))
  /\ (forall contract : UsageContract (gmap string UsageCounters),
        storedBytesOf "alice" (usage (final audioOverQuota))
        = storedBytesOf "alice" (usage w) + Blob.size largeVoiceNote)
  /\ UploadBytes storageRef (Blob.size largeVoiceNote) ∈ calls audioOverQuota
  /\ blobs (final audioOverQuota) !! storageRef = Some (Blob.size largeVoiceNote)
  /\ List.filter isIncrementFileStorage (calls audioOverQuota)
     = [IncrementFileStorage "alice" (Blob.size largeVoiceNote)]
  /\ Forall (fun e => isStorageCheck e = false) (calls audioOverQuota)
  /\ outcome audioOverQuota <> inl FileStorageLimitReached
  /\ outcome audioOverQuota <> inl FileTooLarge.
Proof.
  assert (Hpassed : CheckAndIncrementUsage "alice" Messages true
                      ∈ calls audioOverQuota).
  { vm_compute. apply list_elem_of_here. }
  split; [exact Hpassed|].
  exact (audio_is_charged_unconditionally stubServices "" None largeVoiceNote "c1"
           "alice" (Some privateChat) [] (worldOf (usageWith 0 0 0 (50 * 1024 * 1024)))
           Hpassed).
Defined.

(** The 12 MiB voice note of a user whose 50 MiB are used up goes through:
    62 MiB are then charged. *)
Example audio_over_quota_scenario :
  outcome audioOverQuota = inr tt
  /\ fileStorageBytes (usageOf "alice" (usage (final audioOverQuota)))
     = 62 * 1024 * 1024
  /\ fileStorage FREE_TIER_LIMITS = 50 * 1024 * 1024.
Proof. vm_compute. by split_and!. Qed.

(** C6 (as stated in the design: the dispatch still completes).  With the
    transcription service down, a voice note into an AI chat whose
    AI-interaction quota is used up is rejected after the upload: no message
    is appended, and the blob's bytes are charged all the same. *)
Lemma failed_transcription_then_ai_denial :
  Transcribe voiceNote false ∈ calls audioIntoExhaustedAiChat
  /\ outcome audioIntoExhaustedAiChat = inl AiInteractionLimitReached
  /\ messagesOf "c1" (final audioIntoExhaustedAiChat) = []
  /\ fileStorageBytes (usageOf "alice" (usage (final audioIntoExhaustedAiChat))) = 2048.
Proof.
  vm_compute. split_and!; try done.
  do 4 apply list_elem_of_further. apply list_elem_of_here.
Qed.

Lemma failed_transcription_witness :
  Transcribe voiceNote false ∈ calls audioWithoutTranscript
  /\ chargedOn "alice"
       (ledgerIncrementFileStorage "alice" (Blob.size voiceNote)
          (messageCharge "alice" (worldOf noUsage)).2)
       (usage (final audioWithoutTranscript))
  /\ (forall contract : UsageContract (gmap string UsageCounters),
        storedBytesOf "alice" (usage (final audioWithoutTranscript))
        = storedBytesOf "alice" (usage (worldOf noUsage)) + Blob.size voiceNote)
  /\ List.filter isIncrementFileStorage (calls audioWithoutTranscript)
     = [IncrementFileStorage "alice" (Blob.size voiceNote)]
  /\ (((CheckAndIncrementUsage "alice" AiInteractions false ∉ calls audioWithoutTranscript)
       /\ outcome audioWithoutTranscript = inr tt
       /\ exists m,
            messagesOf "c1" (final audioWithoutTranscript)
            = messagesOf "c1" (worldOf noUsage) ++ [m]
            /\ type m = Some MsgAudio
            /\ originalContent m = Some "Transcription failed")
      \/ (CheckAndIncrementUsage "alice" AiInteractions false ∈ calls audioWithoutTranscript
          /\ chatType <$> Some privateChat = Some ai
          /\ outcome audioWithoutTranscript = inl AiInteractionLimitReached
          /\ messagesOf "c1" (final audioWithoutTranscript)
             = messagesOf "c1" (worldOf noUsage))).
Proof.
  assert (Hfailed : Transcribe voiceNote false ∈ calls audioWithoutTranscript).
  { vm_compute. do 4 apply list_elem_of_further. apply list_elem_of_here. }
  split; [exact Hfailed|].
  exact (failed_transcription_is_not_fatal stubServices "" None (Some voiceNote) "c1"
           "alice" (Some privateChat) [] (worldOf noUsage) voiceNote Hfailed).
Defined.

(** The scenario of the design: the voice note persists with the placeholder
    transcript and its bytes are charged. *)
Example failed_transcription_scenario :
  outcome audioWithoutTranscript = inr tt
  /\ (fun m => (type m, originalContent m))
       <$> messagesOf "c1" (final audioWithoutTranscript)
     = [(Some MsgAudio, Some "Transcription failed")]
  /\ fileStorageBytes (usageOf "alice" (usage (final audioWithoutTranscript))) = 2048.
Proof. vm_compute. by split_and!. Qed.

(** C4 (as stated in the design: every text or audio send into an AI chat
    performs exactly one AI-interaction check).  A sender at the message
    limit is stopped at the message check, before any AI-interaction check:
    none is performed. *)
Lemma ai_chat_send_at_message_limit_makes_no_ai_check :
  let r :=
    sendMessage stubServices "hi" None None "c1" "alice" (Some aiChat) []
                (worldOf (usageWith 100 0 0 0)) in
  chatType aiChat = ai
  /\ List.filter isAiInteractionsCheck (calls r) = []
  /\ length (List.filter isAiInteractionsCheck (calls r)) <> 1%nat.
Proof. vm_compute. by split_and!. Qed.

Lemma ai_chat_single_interaction_check_witness :
  chatType aiChat = ai
  /\ (@None File.t = None \/ is_Some (@None Blob.t))
  /\ CheckAndIncrementUsage "alice" Messages true ∈ calls textIntoExhaustedAiChat
  /\ Forall (fun e => isTranslationsCheck e = false /\ isTranslate e = false)
            (calls textIntoExhaustedAiChat)
  /\ exists allowed : bool,
       List.filter isAiInteractionsCheck (calls textIntoExhaustedAiChat)
       = [CheckAndIncrementUsage "alice" AiInteractions allowed]
       /\ if allowed
          then outcome textIntoExhaustedAiChat = inr tt
          else outcome textIntoExhaustedAiChat = inl AiInteractionLimitReached
               /\ messagesOf "c1" (final textIntoExhaustedAiChat)
                  = messagesOf "c1" (worldOf (usageWith 3 0 20 0))
               /\ collections (final textIntoExhaustedAiChat)
                  = collections (worldOf (usageWith 3 0 20 0)).
Proof.
  assert (Hchat : chatType aiChat = ai) by reflexivity.
  assert (Hkind : @None File.t = None \/ is_Some (@None Blob.t)) by (left; reflexivity).
  assert (Hpassed : CheckAndIncrementUsage "alice" Messages true
                      ∈ calls textIntoExhaustedAiChat).
  { vm_compute. apply list_elem_of_here. }
  split; [exact Hchat|]. split; [exact Hkind|]. split; [exact Hpassed|].
  exact (ai_chat_single_interaction_check stubServices "hi" None None "c1" "alice"
           aiChat [] (worldOf (usageWith 3 0 20 0)) Hchat Hkind Hpassed).
Defined.

(** With the 20 AI interactions used up the send into the AI chat fails and
    nothing is appended; the message charge stays. *)
Example ai_chat_denied_scenario :
  calls textIntoExhaustedAiChat
  = [CheckAndIncrementUsage "alice" Messages true;
     CheckAndIncrementUsage "alice" AiInteractions false]
  /\ outcome textIntoExhaustedAiChat = inl AiInteractionLimitReached
  /\ messagesOf "c1" (final textIntoExhaustedAiChat) = []
  /\ usageOf "alice" (usage (final textIntoExhaustedAiChat)) = usageWith 4 0 20 0.
Proof. vm_compute. by split_and!. Qed.

Lemma private_chat_translation_witness :
  let r :=
    sendMessage stubServices "hi" None None "c1" "alice" (Some privateChat) []
                (worldOf (usageWith 99 0 0 0)) in
  (@None File.t = None \/ is_Some (@None Blob.t))
  /\ chatType privateChat = private
  /\ find (fun p => negb (String.eqb p "alice")) (participants privateChat) = Some "bob"
  /\ users (worldOf (usageWith 99 0 0 0)) !! "bob" = Some {| preferredLang := Some "fr" |}
  /\ CheckAndIncrementUsage "alice" Translations true ∈ calls r
  /\ outcome r = inr tt
  /\ exists m,
       messagesOf "c1" (final r) = messagesOf "c1" (worldOf (usageWith 99 0 0 0)) ++ [m]
       /\ content m
          = Some (Plain (translationOf stubServices (inputText stubServices "hi" None)
                           (orElse (Some "fr") "en"))).
Proof.
  assert (Hkind : @None File.t = None \/ is_Some (@None Blob.t)) by (left; reflexivity).
  assert (Hchat : chatType privateChat = private) by reflexivity.
  assert (Hfind : find (fun p => negb (String.eqb p "alice")) (participants privateChat)
                  = Some "bob") by reflexivity.
  assert (Huser : users (worldOf (usageWith 99 0 0 0)) !! "bob"
                  = Some {| preferredLang := Some "fr" |}) by (vm_compute; reflexivity).
  assert (Hcheck :
    CheckAndIncrementUsage "alice" Translations true
      ∈ calls (sendMessage stubServices "hi" None None "c1" "alice" (Some privateChat) []
                 (worldOf (usageWith 99 0 0 0)))).
  { vm_compute. do 2 apply list_elem_of_further. apply list_elem_of_here. }
  split; [exact Hkind|]. split; [exact Hchat|]. split; [exact Hfind|].
  split; [exact Huser|]. split; [exact Hcheck|].
  exact (private_chat_translation stubServices "hi" None None "c1" "alice" privateChat []
           (worldOf (usageWith 99 0 0 0)) "bob" {| preferredLang := Some "fr" |} true
           Hkind Hchat Hfind Huser Hcheck).
Defined.

(** The worked scenario of the design: Alice (99 of 100 messages) sends "hi"
    to Bob, who prefers French. *)
Example private_chat_scenario :
  let r :=
    sendMessage stubServices "hi" None None "c1" "alice" (Some privateChat) []
                (worldOf (usageWith 99 0 0 0)) in
  outcome r = inr tt
  /\ messagesOf "c1" (final r)
     = [ {| senderId := "alice"; timestamp := serverTimestamp; chatId := "c1";
            type := Some MsgText; content := Some (Plain "[fr] hi");
            fileUrl := None; originalContent := None |} ]
  /\ usageOf "alice" (usage (final r)) = usageWith 100 1 0 0.
Proof. vm_compute. by split_and!. Qed.

(** With the 50 translations used up the text goes out untranslated; a
    recipient without a preferred language gets English. *)
Example private_chat_degraded_and_default :
  let denied :=
    sendMessage stubServices "hi" None None "c1" "alice" (Some privateChat) []
                (worldOf (usageWith 0 50 0 0)) in
  let toCarol :=
    sendMessage stubServices "hi" None None "c2" "alice"
                (Some {| chatType := private; participants := ["carol"; "alice"] |}) []
                (worldOf noUsage) in
  (outcome denied = inr tt
   /\ content <$> messagesOf "c1" (final denied) = [Some (Plain "hi")])
  /\ content <$> messagesOf "c2" (final toCarol) = [Some (Plain "[en] hi")].
Proof. vm_compute. by split_and!. Qed.



(** The scenario of the design: quota exhausted after the first unit.  All
    the charges are made before the translation is requested. *)
Example group_chat_scenario :
  calls groupSendWithOneUnitLeft
  = [CheckAndIncrementUsage "alice" Messages true;
     CheckAndIncrementUsage "alice" Translations true;
     CheckAndIncrementUsage "alice" Translations false;
     CheckAndIncrementUsage "alice" Translations false;
     Translate "hi" "fr" true;
     AddDoc (messagesPath "g1") fanOutMessage]
  /\ messagesOf "g1" (final groupSendWithOneUnitLeft) = [fanOutMessage]
  /\ usedTranslations (usageOf "alice" (usage (final groupSendWithOneUnitLeft))) = 50.
Proof. vm_compute. by split_and!. Qed.

(** A language listed twice, with one unit left: the first entry's charge is
    granted, the second's denied, and the key holds what the callback that
    completes last has written: the input text when the callbacks run one
    after the other, the translation when it arrives after the second
    callback has returned. *)
Example duplicate_language_scenario :
  let send services :=
    sendMessage services "hi" None None "g1" "alice" (Some groupChat) ["fr"; "fr"]
                (worldOf (usageWith 0 49 0 0)) in
  (chargesOf isTranslationsCheck (calls (send stubServices)) = [true; false]
   /\ content <$> messagesOf "g1" (final (send stubServices))
      = [Some (PerLanguage {["fr" := "hi"]})])
  /\ (chargesOf isTranslationsCheck (calls (send overlappingServices)) = [true; false]
      /\ content <$> messagesOf "g1" (final (send overlappingServices))
         = [Some (PerLanguage {["fr" := "[fr] hi"]})]).
Proof. vm_compute. by split_and!. Qed.

(** ** Invitation acceptance *)

Lemma arrayUnion_length x l :
  (length (arrayUnion x l) <= S (length l))%nat.
Proof.
  unfold arrayUnion. case_decide; [lia|]. rewrite length_app. simpl. lia.
Qed.

(** Accepting twice does not duplicate the participant. *)
Lemma arrayUnion_idempotent x l : arrayUnion x (arrayUnion x l) = arrayUnion x l.
Proof.
  unfold arrayUnion. destruct (decide (x ∈ l)) as [Hin|Hnin].
  - by rewrite decide_True.
  - rewrite decide_True; [done|]. apply elem_of_app. right. apply list_elem_of_here.
Qed.

Lemma arrayUnion_elem x l : x ∈ arrayUnion x l.
Proof.
  unfold arrayUnion. destruct (decide (x ∈ l)); [done|].
  apply elem_of_app. right. apply list_elem_of_here.
Qed.

Lemma arrayUnion_member x l : x ∈ l -> arrayUnion x l = l.
Proof. intros Hin. unfold arrayUnion. by destruct (decide (x ∈ l)). Qed.

Lemma arrayUnion_new x l : x ∉ l -> arrayUnion x l = l ++ [x].
Proof. intros Hin. unfold arrayUnion. by destruct (decide (x ∈ l)). Qed.


Lemma chatData_eta (chat : ChatData) :
  {| chatType := chatType chat; participants := participants chat |} = chat.
Proof. by destruct chat. Qed.

(** *** A run alone *)

(** One run alone, by cases on what it finds and on what the store rejects. *)
Lemma acceptAlone_cases getDocFault updateDocFault chatId sessionUserId page chats :
  let r := acceptAlone getDocFault updateDocFault chatId sessionUserId page chats in
  (r = (page, chats, [])
   /\ (chatId = None \/ sessionUserId = None \/ sessionUserId = Some ""))
  \/ (exists id uid reason,
        chatId = Some id /\ sessionUserId = Some uid /\ uid <> ""
        /\ r = failWith reason chats
        /\ ((exists e, getDocFault = Some e /\ reason = messageOf e)
            \/ (getDocFault = None /\ chats !! id = None
                /\ reason = "Invalid invitation")
            \/ (exists chat, getDocFault = None
                             /\ chats !! id = Some chat /\ chatType chat = private
                             /\ (2 <= length (participants chat))%nat
                             /\ reason = "This private chat already has two members")
            \/ (exists chat, getDocFault = None
                             /\ chats !! id = Some chat /\ chatType chat = ai
                             /\ reason = "AI chats do not support invitations")
            \/ (exists chat e, getDocFault = None /\ updateDocFault = Some e
                               /\ chats !! id = Some chat
                               /\ (chatType chat = group
                                   \/ (chatType chat = private
                                       /\ (length (participants chat) < 2)%nat))
                               /\ reason = messageOf e)))
  \/ (exists id uid chat,
        chatId = Some id /\ sessionUserId = Some uid /\ uid <> ""
        /\ getDocFault = None /\ updateDocFault = None
        /\ chats !! id = Some chat
        /\ (chatType chat = group
            \/ (chatType chat = private /\ (length (participants chat) < 2)%nat))
        /\ r = ({| state := Redirecting; error := error page |},
                <[id := {| chatType := chatType chat;
                           participants := arrayUnion uid (participants chat) |}]> chats,
                [Accepting; Redirecting])).
Proof.
  intros r. subst r. unfold acceptAlone, settled, handleAcceptInvitation.
  destruct chatId as [id|]; [|left; eauto].
  destruct sessionUserId as [uid|]; [|left; eauto].
  destruct uid as [|c uid']; [left; eauto|]. cbn [truthy negb fst snd].
  set (uid := String c uid'). assert (Huid : uid <> "") by done.
  destruct getDocFault as [e|].
  { right. left. exists id, uid, (messageOf e). cbn [resume fst snd app].
    split_and!; try done. left. by exists e. }
  cbn [resume].
  destruct (chats !! id) as [chat|] eqn:Hchat.
  - destruct (chatType chat) eqn:Hty; cbn [isPrivate isAi andb].
    + destruct (2 <=? length (participants chat))%nat eqn:Hlen.
      * apply Nat.leb_le in Hlen. right. left.
        exists id, uid, "This private chat already has two members".
        cbn [fst snd resume app]. split_and!; try done.
        right. right. left. by exists chat.
      * apply Nat.leb_gt in Hlen. cbn [fst snd].
        destruct updateDocFault as [e|]; cbn [resume fst snd app].
        -- right. left. exists id, uid, (messageOf e). split_and!; try done.
           do 4 right. exists chat, e. split_and!; try done. by right.
        -- rewrite Hchat. right. right. exists id, uid, chat. rewrite Hty.
           split_and!; try done. by right.
    + cbn [fst snd]. destruct updateDocFault as [e|]; cbn [resume fst snd app].
      * right. left. exists id, uid, (messageOf e). split_and!; try done.
        do 4 right. exists chat, e. split_and!; try done. by left.
      * rewrite Hchat. right. right. exists id, uid, chat. rewrite Hty.
        split_and!; try done. by left.
    + right. left. exists id, uid, "AI chats do not support invitations".
      cbn [fst snd resume app]. split_and!; try done.
      do 3 right. left. by exists chat.
  - right. left. exists id, uid, "Invalid invitation". cbn [fst snd resume app].
    split_and!; try done. right. left. done.
Qed.

(** The chats a run leaves do not depend on the page it started from. *)
Lemma acceptAlone_chats_any_page getDocFault updateDocFault chatId sessionUserId
    page page' chats :
  (acceptAlone getDocFault updateDocFault chatId sessionUserId page chats).1.2
  = (acceptAlone getDocFault updateDocFault chatId sessionUserId page' chats).1.2.
Proof.
  unfold acceptAlone, settled, handleAcceptInvitation.
  destruct chatId as [id|]; [|done]. destruct sessionUserId as [uid|]; [|done].
  destruct (negb (truthy uid)); [done|]. cbn [fst snd].
  destruct getDocFault as [e|]; [done|]. cbn [resume].
  destruct (chats !! id) as [chat|] eqn:Hchat; [|done].
  destruct (_ && _); [done|]. destruct (isAi _); [done|]. cbn [fst snd].
  destruct updateDocFault as [e|]; [done|]. cbn [resume]. by rewrite Hchat.
Qed.

(** A run alone keeps the private chats within two participants. *)
Lemma acceptAlone_within_two getDocFault updateDocFault chatId sessionUserId page chats :
  privateWithinTwo chats ->
  privateWithinTwo
    (acceptAlone getDocFault updateDocFault chatId sessionUserId page chats).1.2.
Proof.
  intros Hinv.
  destruct (acceptAlone_cases getDocFault updateDocFault chatId sessionUserId page chats)
    as [[-> _]|[(id & uid & reason & _ & _ & _ & -> & _)
               |(cid & uid & chatData & _ & _ & _ & _ & _ & Hchat & Hroom & ->)]];
    [done|done|]. cbn [fst snd].
  intros id chat Hid Hpriv.
  destruct (decide (cid = id)) as [->|Hne].
  - rewrite lookup_insert_eq in Hid. injection Hid as <-.
    cbn [chatType participants] in *.
    destruct Hroom as [?|[_ Hlen]]; [congruence|].
    pose proof (arrayUnion_length uid (participants chatData)). lia.
  - rewrite lookup_insert_ne in Hid by done. by eapply Hinv.
Qed.

(** An acceptance run alone against a private chat that already has two or
    more participants: whatever the store would answer the update with, the
    page moves through 'accepting' to 'error' with the text of line 816 and
    the collection is as it was. *)
Lemma full_private_chat_is_refused updateDocFault chatId userId page chats chat :
  userId <> "" ->
  chats !! chatId = Some chat ->
  chatType chat = private ->
  (2 <= length (participants chat))%nat ->
  acceptAlone None updateDocFault (Some chatId) (Some userId) page chats
  = ({| state := Error; error := "This private chat already has two members" |},
     chats, [Accepting; Error]).
Proof.
  intros Huser Hchat Hpriv Hfull.
  unfold acceptAlone, settled, handleAcceptInvitation.
  rewrite (truthy_nonempty _ Huser). cbn [negb fst snd resume].
  rewrite Hchat, Hpriv. cbn [isPrivate andb].
  by rewrite (proj2 (Nat.leb_le _ _) Hfull).
Qed.

(** *** Runs that overlap *)

Lemma settle_out_of_range s step :
  s.1 !! step.1 = None -> settle s step = s.
Proof. intros H. unfold settle. by rewrite H. Qed.

Lemma settle_visit s step v :
  s.1 !! step.1 = Some v ->
  settle s step
  = (<[step.1 := {| visitPage := (resume step.2 (visitRun v) (visitPage v) s.2).1.1.1;
                    visitRun := (resume step.2 (visitRun v) (visitPage v) s.2).1.1.2 |}]>
       s.1,
     (resume step.2 (visitRun v) (visitPage v) s.2).1.2).
Proof. intros H. unfold settle. by rewrite H. Qed.



(** The two requests of one visitor, settling one right after the other,
    keep the private chats within two and leave no write pending. *)
Lemma settle_pair_within_two s i getDocFault updateDocFault :
  privateWithinTwo s.2 -> Forall betweenRuns s.1 ->
  let s' := settle (settle s (i, getDocFault)) (i, updateDocFault) in
  privateWithinTwo s'.2 /\ Forall betweenRuns s'.1.
Proof.
  intros Hinv Hruns s'. subst s'.
  destruct (s.1 !! i) as [v|] eqn:Hv;
    [|by rewrite (settle_out_of_range s (i, getDocFault) Hv),
                 (settle_out_of_range s (i, updateDocFault) Hv)].
  assert (Hbetween : betweenRuns v) by (by eapply Forall_lookup_1).
  pose proof (lookup_lt_Some _ _ _ Hv) as Hlt.
  rewrite (settle_visit s (i, getDocFault) v Hv). cbn [fst snd].
  destruct v as [page run]. cbn [visitRun visitPage] in *.
  unfold betweenRuns in Hbetween. cbn [visitRun] in Hbetween.
  erewrite settle_visit; [|cbn [fst snd]; by apply list_lookup_insert_eq].
  cbn [fst snd visitRun visitPage]. rewrite list_insert_insert_eq.
  destruct run as [cid uid|cid uid|]; [|done|].
  - destruct getDocFault as [e|]; cbn [resume fst snd].
    { split; [done|]. by apply Forall_insert. }
    destruct (s.2 !! cid) as [chat|] eqn:Hchat; cbn [resume fst snd].
    2:{ split; [done|]. by apply Forall_insert. }
    destruct (isPrivate (chatType chat) && _) eqn:Hfull; cbn [resume fst snd].
    { split; [done|]. by apply Forall_insert. }
    destruct (isAi (chatType chat)); cbn [resume fst snd].
    { split; [done|]. by apply Forall_insert. }
    destruct updateDocFault as [e|]; cbn [resume fst snd];
      [split; [done|by apply Forall_insert]|].
    rewrite Hchat. cbn [fst snd]. split; [|by apply Forall_insert].
    intros id c Hid Hpriv.
    destruct (decide (cid = id)) as [->|Hne].
    + rewrite lookup_insert_eq in Hid. injection Hid as <-.
      cbn [chatType participants] in *.
      rewrite Hpriv in Hfull. cbn [isPrivate andb] in Hfull. apply Nat.leb_gt in Hfull.
      pose proof (arrayUnion_length uid (participants chat)). lia.
    + rewrite lookup_insert_ne in Hid by done. by eapply Hinv.
  - cbn [resume fst snd]. split; [done|]. by apply Forall_insert.
Qed.

(** Runs that do not overlap keep the private chats within two. *)
Lemma oneAfterTheOther_within_two visitors order chats :
  privateWithinTwo chats ->
  privateWithinTwo (acceptOverlapping visitors (oneAfterTheOther order) chats).2.
Proof.
  intros Hinv.
  assert (Hboth :
    privateWithinTwo (acceptOverlapping visitors (oneAfterTheOther order) chats).2
    /\ Forall betweenRuns (acceptOverlapping visitors (oneAfterTheOther order) chats).1);
    [|by destruct Hboth].
  unfold acceptOverlapping, oneAfterTheOther.
  induction order as [|[[i f] g] order IH] using rev_ind.
  - cbn [foldl mbind list_bind fst snd]. split; [done|].
    apply Forall_fmap, Forall_forall. intros [c u] _.
    unfold betweenRuns, opened, handleAcceptInvitation, compose. cbn [fst snd visitRun].
    destruct c as [cid|], u as [uid|]; try done. by destruct (negb (truthy uid)).
  - rewrite bind_app, foldl_app. cbn [mbind list_bind fst snd app foldl].
    destruct IH as [IH1 IH2]. by apply settle_pair_within_two.
Qed.

(** The first half of C9 on a run alone: Carol opens the link of the private
    chat of Alice and Bob. *)
Example full_private_chat_scenario :
  acceptAlone None None (Some "c1") (Some "carol") initialPage fullPrivateChats
  = ({| state := Error; error := "This private chat already has two members" |},
     fullPrivateChats, [Accepting; Error]).
Proof. by vm_compute. Qed.

(** C9.  The claim fails on the code: the handler reads the chat with
    [getDoc], tests the snapshot, and only then sends [updateDoc], and
    nothing ties the two requests together.  Bob and Carol, both signed in,
    open the invitation link of a private chat that has its creator only, and
    both reads are answered before either update: both runs pass the test of
    line 815, both pages move to 'redirecting', and the chat ends with three
    participants.  Through the acceptance path a private chat's participant
    count does exceed 2. *)
Theorem overlapping_acceptances_exceed_two :
  let r := acceptOverlapping twoVisitors bothReadFirst invitationChats in
  invitationChats !! "p1" = Some {| chatType := private; participants := ["alice"] |}
  /\ state <$> (visitPage <$> r.1) = [Redirecting; Redirecting]
  /\ r.2 !! "p1"
     = Some {| chatType := private; participants := ["alice"; "bob"; "carol"] |}
  /\ ~ privateWithinTwo r.2.
Proof.
  intros r.
  assert (Hp1 : r.2 !! "p1"
                = Some {| chatType := private;
                          participants := ["alice"; "bob"; "carol"] |})
    by (by vm_compute).
  split_and!; [by vm_compute|by vm_compute|done|].
  intros Hinv. specialize (Hinv _ _ Hp1 eq_refl). simpl in Hinv. lia.
Qed.

(** * Further properties of the dispatcher *)

Section DispatcherFurther.

Context {L : Type} {ledger : UsageTracking L}.
Variable services : Services.
Implicit Types (w : World L).

Lemma file_send_passes_guard content (f : File.t) userId :
  userId <> "" -> nothingToSend content (Some f) None userId = false.
Proof.
  intros Huser. unfold nothingToSend. rewrite (truthy_nonempty _ Huser).
  rewrite bool_decide_eq_true_2 by (by eexists). simpl. by rewrite andb_false_r.
Qed.

(** The translation step returns the message it got or that message with a
    new [content]. *)
Lemma translateStage_rewrites_content content userId chatData langs md w md2 :
  outcome (translateStage services content userId chatData langs md w) = inr md2 ->
  md2 = md \/ exists c, md2 = withContent c md.
Proof.
  unfold translateStage.
  destruct (isTextOrAudio (type md)); [|intros [= <-]; by left].
  destruct chatData as [chat|]; [|intros [= <-]; by left].
  destruct (chatType chat).
  - destruct (find _ _) as [other|]; [|intros [= <-]; by left].
    destruct (truthy other); [|intros [= <-]; by left].
    run. destruct (users w !! other); [|intros [= <-]; by left].
    destruct (ledgerCheckAndIncrementUsage _ _ _) as [[] l]; simpl.
    + unfold translateMessage. destruct (translateApi _ _ _); simpl;
        intros [= <-]; right; by eexists.
    + intros [= <-]; right; by eexists.
  - set (text := match type md with Some MsgAudio => _ | _ => _ end).
    destruct (translateInParallel_run services userId text langs w)
      as (tr & t & Hrun & _).
    rewrite (bind_resolved _ _ _ _ _ _ Hrun). unfold outcome; simpl.
    intros [= <-]. right. by eexists.
  - run. destruct (ledgerCheckAndIncrementUsage _ _ _) as [[] l]; simpl; [|done].
    intros [= <-]. right. by eexists.
Qed.

(** For a voice note the translation step never looks at the typed text. *)
Lemma translateStage_audio content content' userId chatData langs md w :
  type md = Some MsgAudio ->
  translateStage services content userId chatData langs md w
  = translateStage services content' userId chatData langs md w.
Proof. intros Hty. unfold translateStage. by rewrite Hty. Qed.

(** With nobody to translate for, the translation step returns the message
    as it got it and makes no call but a profile read that finds nothing. *)
Lemma translateStage_recipient_unknown content userId chatData langs md w :
  recipientUnknown userId chatData w ->
  exists t,
    translateStage services content userId chatData langs md w = (inr md, w, t)
    /\ Forall (fun e => exists id, e = GetUserDoc id false) t.
Proof.
  intros Hunknown. unfold translateStage.
  destruct (isTextOrAudio (type md)); [|by exists []].
  destruct chatData as [chat|]; [|by exists []].
  destruct Hunknown as [-> Hother].
  destruct (find _ _) as [other|]; [|by exists []].
  destruct (truthy other) eqn:Htruthy; [|by exists []].
  destruct Hother as [->|Hnone]; [done|].
  exists [GetUserDoc other false]. run. rewrite Hnone. split; [done|].
  repeat constructor. by eexists.
Qed.

(** X1.  A file of at most 10 MiB (the bound included), sent by a present
    user whose message charge is granted and whose storage check passes, is
    uploaded under [chats/<chatId>/<file name>], charged to the storage
    counter once, and persisted as a message of type image (MIME type
    starting with "image/") or file whose content is the file's name and
    whose [fileUrl] is the blob's URL.  These six calls are all the send
    makes, whatever the chat's type. *)
Theorem file_within_cap_is_stored content f chatId userId chatData
    participantLanguages w :
  userId <> "" ->
  (messageCharge userId w).1 = true ->
  ledgerCheckFileStorageLimit userId (File.size f) (messageCharge userId w).2 = true ->
  File.size f <= MAX_FILE_SIZE ->
  let r := sendMessage services content (Some f) None chatId userId chatData
             participantLanguages w in
  let path := storagePath chatId (File.name f) in
  let m := withBody (payloadType (Some f) None) (File.name f)
                    (Some (downloadURLOf services path)) (newMessage userId chatId) in
  outcome r = inr tt
  /\ calls r = [CheckAndIncrementUsage userId Messages true;
               CheckFileStorageLimit userId (File.size f) true;
               UploadBytes path (File.size f); GetDownloadURL path;
               IncrementFileStorage userId (File.size f);
               AddDoc (messagesPath chatId) m]
  /\ messagesOf chatId (final r) = messagesOf chatId w ++ [m]
  /\ blobs (final r) = <[path := File.size f]> (blobs w)
  /\ usage (final r)
     = ledgerIncrementFileStorage userId (File.size f) (messageCharge userId w).2.
Proof.
  intros Huser Hcharge Hstore Hsize r path m. subst r.
  rewrite sendMessage_run, (file_send_passes_guard _ _ _ Huser), Hcharge.
  rewrite payload_file_run.
  change (usage (charged userId w)) with (messageCharge userId w).2.
  rewrite Hstore. cbn [negb].
  rewrite (proj2 (N.ltb_ge _ _) Hsize).
  rewrite translateStage_other
    by (simpl; by destruct (startsWith "image/" (File.type f))).
  unfold outcome, final, calls; cbn [fst snd].
  split_and!; try done.
  by rewrite messagesOf_appended.
Qed.

(** X2.  A send with a file and no audio blob never enters the translation
    step, whatever the chat's type and however the send ends: it makes no
    translation charge, no AI-interaction charge, no profile read and no
    translation request. *)
Theorem file_send_makes_no_translation_call content f chatId userId chatData
    participantLanguages w :
  Forall (fun e => isTranslationStageCall e = false)
         (calls (sendMessage services content (Some f) None chatId userId chatData
                   participantLanguages w)).
Proof.
  rewrite sendMessage_run.
  destruct (nothingToSend _ _ _ _); [done|].
  destruct (messageCharge userId w).1; [|by repeat constructor].
  rewrite payload_file_run.
  destruct (negb _); [by repeat constructor|].
  destruct (_ <? _); [by repeat constructor|].
  rewrite translateStage_other
    by (simpl; by destruct (startsWith "image/" (File.type f))).
  unfold calls; cbn [fst snd]. by repeat constructor.
Qed.

(** X3.  The storage-limit check comes before the absolute size cap: a file
    send whose storage check is denied fails with the storage-limit error,
    also when the file is larger than 10 MiB, right after the message
    charge and the storage check. *)
Theorem storage_denial_precedes_size_cap content f chatId userId chatData
    participantLanguages w :
  userId <> "" ->
  (messageCharge userId w).1 = true ->
  ledgerCheckFileStorageLimit userId (File.size f) (messageCharge userId w).2 = false ->
  sendMessage services content (Some f) None chatId userId chatData
    participantLanguages w
  = (inl FileStorageLimitReached, charged userId w,
     [CheckAndIncrementUsage userId Messages true;
      CheckFileStorageLimit userId (File.size f) false]).
Proof.
  intros Huser Hcharge Hstore.
  rewrite sendMessage_run, (file_send_passes_guard _ _ _ Huser), Hcharge.
  rewrite payload_file_run.
  change (usage (charged userId w)) with (messageCharge userId w).2.
  by rewrite Hstore.
Qed.

(** X4.  When there is nobody to translate for (no chat record; or a
    private chat with no participant other than the sender, or whose other
    participant has an empty id or no profile), a text or audio send that
    passes the message-quota check completes without any translation
    charge, AI-interaction charge or translation request, and the message
    keeps the content the payload branch gave it: the typed text, or for a
    voice note the name of the stored audio file. *)
Theorem unknown_recipient_means_no_translation typedText file audioBlob chatId
    userId chatData participantLanguages w :
  let r := sendMessage services typedText file audioBlob chatId userId chatData
             participantLanguages w in
  file = None \/ is_Some audioBlob ->
  recipientUnknown userId chatData w ->
  CheckAndIncrementUsage userId Messages true ∈ calls r ->
  outcome r = inr tt
  /\ Forall (fun e => isTranslationsCheck e = false /\ isAiInteractionsCheck e = false
                      /\ isTranslate e = false) (calls r)
  /\ exists m,
       messagesOf chatId (final r) = messagesOf chatId w ++ [m]
       /\ type m = Some (payloadType file audioBlob)
       /\ content m
          = Some (Plain (match audioBlob with
                         | Some _ => voiceFileName (dateNow services)
                         | None => typedText
                         end)).
Proof.
  intros r Hkind Hunknown [Hguard Hcharge]%message_check_iff. subst r.
  rewrite sendMessage_run, Hguard, Hcharge.
  assert (Hpay : exists md1 w2 t2,
    payload services typedText file audioBlob chatId userId (newMessage userId chatId)
      (charged userId w) = (inr md1, w2, t2)
    /\ Forall (fun e => isPayloadCall e = true) t2
    /\ collections w2 = collections w /\ users w2 = users w
    /\ type md1 = Some (payloadType file audioBlob)
    /\ content md1 = Some (Plain (match audioBlob with
                                   | Some _ => voiceFileName (dateNow services)
                                   | None => typedText
                                   end))).
  { destruct audioBlob as [b|].
    - rewrite payload_audio_run. eexists _, _, _. split; [done|].
      split_and!; try done. repeat constructor.
    - destruct Hkind as [->|[? [=]]]. rewrite payload_text_run.
      eexists _, _, _. split; [done|]. by split_and!. }
  destruct Hpay as (md1 & w2 & t2 & -> & Ht2 & Hc & Hu & Hty & Hcontent).
  assert (Hunknown2 : recipientUnknown userId chatData w2).
  { unfold recipientUnknown in *. by rewrite Hu. }
  destruct (translateStage_recipient_unknown typedText userId chatData
              participantLanguages md1 w2 Hunknown2) as (t3 & -> & Ht3).
  unfold outcome, final, calls; cbn [fst snd].
  split_and!; [done| |].
  - constructor; [done|]. rewrite !Forall_app. split_and!.
    + eapply Forall_impl; [exact Ht2|].
      intros e He. by apply payload_call_kinds in He as (_ & ? & ? & ? & _).
    + eapply Forall_impl; [exact Ht3|]. by intros e [id ->].
    + by repeat constructor.
  - exists md1. split_and!; try done.
    rewrite messagesOf_appended. f_equal. apply messagesOf_kept. simpl. by rewrite Hc.
Qed.

(** X5.  Every send that gets past the guard of line 21 makes the message
    charge first, and makes it once: no later call of the send is a message
    charge. *)
Theorem message_charge_comes_first_and_once content file audioBlob chatId userId
    chatData participantLanguages w :
  nothingToSend content file audioBlob userId = false ->
  exists rest,
    calls (sendMessage services content file audioBlob chatId userId chatData
             participantLanguages w)
    = CheckAndIncrementUsage userId Messages (messageCharge userId w).1 :: rest
    /\ Forall (fun e => isMessagesCheck e = false) rest.
Proof.
  intros Hguard. rewrite sendMessage_run, Hguard.
  destruct (messageCharge userId w).1; [|by exists []].
  pose proof (payload_frame services content file audioBlob chatId userId
                (newMessage userId chatId) (charged userId w)) as (_ & _ & Ht2 & _).
  destruct (payload _ _ _ _ _ _ _ _) as [[[e|md1] w2] t2]; unfold calls in *;
    cbn [fst snd] in *.
  - exists t2. split; [done|]. eapply Forall_impl; [exact Ht2|].
    intros c Hc. by apply payload_call_kinds in Hc as (? & _).
  - pose proof (translateStage_frame services content userId chatData
                  participantLanguages md1 w2) as (_ & Ht3 & _).
    destruct (translateStage _ _ _ _ _ _ _) as [[[e|md2] w3] t3]; unfold calls in *;
      cbn [fst snd] in *; eexists; (split; [done|]); rewrite ?Forall_app;
      split_and?; try (by repeat constructor).
    all: try (eapply Forall_impl; [exact Ht2|];
              intros c Hc; by apply payload_call_kinds in Hc as (? & _)).
    all: eapply Forall_impl; [exact Ht3|];
         intros c Hc; by apply translation_stage_call_kinds in Hc as (? & _).
Qed.

(** X6.  A send that completes after passing the guard appends exactly one
    message, as its last call, to the message collection of its own chat and
    to no other; the message carries the sender's id and the chat's id, has
    the type of its payload and has a content.  Profiles are not touched. *)
Theorem completed_send_appends_one_message typedText file audioBlob toChat userId
    chatData participantLanguages w :
  let r := sendMessage services typedText file audioBlob toChat userId chatData
             participantLanguages w in
  nothingToSend typedText file audioBlob userId = false ->
  outcome r = inr tt ->
  exists m t,
    calls r = t ++ [AddDoc (messagesPath toChat) m]
    /\ Forall (fun e => isAddDoc e = false) t
    /\ collections (final r)
       = <[messagesPath toChat := messagesOf toChat w ++ [m]]> (collections w)
    /\ users (final r) = users w
    /\ senderId m = userId /\ chatId m = toChat
    /\ type m = Some (payloadType file audioBlob)
    /\ is_Some (content m).
Proof.
  intros r Hguard. subst r. rewrite sendMessage_run, Hguard.
  destruct (messageCharge userId w).1; [|done].
  pose proof (payload_frame services typedText file audioBlob toChat userId
                (newMessage userId toChat) (charged userId w)) as (Hc2 & Hu2 & Ht2 & _).
  assert (Hshape : forall md1,
    outcome (payload services typedText file audioBlob toChat userId
               (newMessage userId toChat) (charged userId w)) = inr md1 ->
    senderId md1 = userId /\ chatId md1 = toChat
    /\ type md1 = Some (payloadType file audioBlob)
    /\ is_Some (content md1)).
  { intros md1. destruct audioBlob as [b|]; [|destruct file as [f|]].
    - rewrite payload_audio_run. intros [= <-]. by split_and!.
    - rewrite payload_file_run. destruct (negb _); [done|].
      destruct (_ <? _); [done|]. intros [= <-]. by split_and!.
    - rewrite payload_text_run. intros [= <-]. by split_and!. }
  destruct (payload _ _ _ _ _ _ _ _) as [[[e|md1] w2] t2]; [done|].
  unfold outcome, final, calls in Hc2, Hu2, Ht2, Hshape; cbn [fst snd] in *.
  destruct (Hshape md1 eq_refl) as (Hs & Hid & Hty & Hcontent).
  pose proof (translateStage_frame services typedText userId chatData
                participantLanguages md1 w2) as ((Hb3 & Hu3 & Hc3) & Ht3 & _).
  pose proof (translateStage_rewrites_content typedText userId chatData
                participantLanguages md1 w2) as Hmd.
  destruct (translateStage _ _ _ _ _ _ _) as [[[e|md2] w3] t3]; [done|].
  unfold outcome, final, calls in *; cbn [fst snd] in *. intros _.
  exists md2, (CheckAndIncrementUsage userId Messages true :: t2 ++ t3).
  split_and!.
  - simpl. by rewrite <- app_assoc.
  - constructor; [done|]. apply Forall_app. split.
    + eapply Forall_impl; [exact Ht2|].
      intros c Hc. by apply payload_call_kinds in Hc as (_ & _ & _ & _ & ?).
    + eapply Forall_impl; [exact Ht3|].
      intros c Hc. by apply translation_stage_call_kinds in Hc as (_ & _ & _ & _ & ? & _).
  - unfold appended, messagesOf. simpl. by rewrite Hc3, Hc2.
  - simpl. by rewrite Hu3, Hu2.
  - destruct (Hmd md2 eq_refl) as [->|[c ->]]; done.
  - destruct (Hmd md2 eq_refl) as [->|[c ->]]; done.
  - destruct (Hmd md2 eq_refl) as [->|[c ->]]; done.
  - destruct (Hmd md2 eq_refl) as [->|[c ->]]; [done|by eexists].
Qed.

(** X7.  When an audio blob is supplied, the typed text and the file
    argument play no part: the send runs the same way, to the same result,
    state and calls, whatever they are. *)
Theorem audio_send_ignores_text_and_file content content' file file' b chatId userId
    chatData participantLanguages w :
  sendMessage services content file (Some b) chatId userId chatData
    participantLanguages w
  = sendMessage services content' file' (Some b) chatId userId chatData
      participantLanguages w.
Proof.
  rewrite !sendMessage_run.
  assert (Hguard : forall c f, nothingToSend c f (Some b) userId = negb (truthy userId)).
  { intros c f. unfold nothingToSend.
    rewrite (bool_decide_eq_true_2 (is_Some (Some b))) by (by eexists).
    by rewrite andb_false_r. }
  rewrite !Hguard. destruct (negb (truthy userId)); [done|].
  destruct (messageCharge userId w).1; [|done].
  rewrite !payload_audio_run.
  by rewrite (translateStage_audio content content').
Qed.

End DispatcherFurther.

(** ** A failed translation request *)

Section FailedTranslation.

Context {L : Type} {ledger : UsageTracking L} {contract : UsageContract L}.
Variable services : Services.
Implicit Types (w : World L).

(** X8.  In a private chat, when the translation charge is granted but the
    translation request fails, the send still completes and the message is
    persisted with the input text as it was; the failed request is not given
    back: the sender's translation counter ends one higher. *)
Theorem failed_translation_is_still_charged typedText file audioBlob chatId userId
    chat participantLanguages w other userData :
  let r := sendMessage services typedText file audioBlob chatId userId (Some chat)
             participantLanguages w in
  let text := inputText services typedText audioBlob in
  let lang := orElse (preferredLang userData) "en" in
  file = None \/ is_Some audioBlob ->
  chatType chat = private ->
  find (fun p => negb (String.eqb p userId)) (participants chat) = Some other ->
  users w !! other = Some userData ->
  CheckAndIncrementUsage userId Translations true ∈ calls r ->
  translateApi services text lang = None ->
  outcome r = inr tt
  /\ Translate text lang false ∈ calls r
  /\ (exists m, messagesOf chatId (final r) = messagesOf chatId w ++ [m]
                /\ content m = Some (Plain text))
  /\ usedOf userId Translations (usage (final r))
     = usedOf userId Translations (usage w) + 1.
Proof.
  intros r text lang Hkind Hchat Hfind Huser. subst r. rewrite sendMessage_run.
  destruct (nothingToSend _ _ _ _); [by intros ?%elem_of_nil|].
  destruct (messageCharge userId w).1 eqn:Hmsg;
    [|unfold calls; simpl; by intros [=]%list_elem_of_singleton].
  pose proof (payload_ledger_invariant services
                (fun l => usedOf userId Translations l
                          = usedOf userId Translations (usage w))
                typedText file audioBlob chatId userId (newMessage userId chatId)
                (charged userId w)) as Hused.
  destruct (payload_text_or_audio services typedText file audioBlob chatId userId
              (charged userId w) Hkind)
    as (md1 & w2 & t2 & Hpay & Hty & Htext & Ht2 & Hc & Hu).
  rewrite Hpay in *. unfold final in Hused; cbn [fst snd] in Hused.
  assert (Hnot2 : CheckAndIncrementUsage userId Translations true ∉ t2).
  { intros Hin. rewrite Forall_forall in Ht2.
    by apply Ht2, payload_call_kinds in Hin as (_ & ? & _). }
  destruct (truthy other) eqn:Htruthy.
  - assert (Huser2 : users w2 !! other = Some userData) by (by rewrite Hu).
    rewrite (translateStage_private_run _ _ _ _ _ _ _ _ _ Hty Hchat Hfind Htruthy Huser2).
    rewrite Htext. fold text lang.
    destruct (ledgerCheckAndIncrementUsage userId Translations (usage w2)).1 eqn:Hgrant.
    + intros _ Hapi. unfold translationOf. rewrite Hapi.
      unfold outcome, final, calls; cbn [fst snd].
      split_and!; [done| | |].
      * rewrite elem_of_cons, !elem_of_app, !elem_of_cons.
        right. right. left. right. right. left.
        by rewrite bool_decide_eq_false_2 by (by intros [? [=]]).
      * eexists. split.
        -- rewrite messagesOf_appended. f_equal. apply messagesOf_kept.
           simpl. by rewrite Hc.
        -- done.
      * simpl. rewrite (check_granted _ _ _ Hgrant). f_equal. apply Hused.
        -- intros n l <-. apply add_used.
        -- simpl. apply check_other. congruence.
    + unfold calls; cbn [fst snd].
      rewrite elem_of_cons, !elem_of_app, !elem_of_cons.
      intros [?|[?|[[?|[?|Hin]]|Hin]]]; try done.
      * by apply elem_of_nil in Hin.
      * by destruct Hin as [?|?%elem_of_nil].
  - unfold translateStage. rewrite Hty, Hchat, Hfind, Htruthy.
    unfold calls, ret; cbn [fst snd].
    rewrite elem_of_cons, !elem_of_app. simpl.
    intros [?|[?|[Hin|Hin]]]; try done; absurd_elem Hin.
Qed.

End FailedTranslation.

(** ** The limits hold *)

Section LimitsHold.

Context {L : Type} {ledger : UsageTracking L} {contract : UsageContract L}.
Implicit Types (w : World L).

Lemma check_keeps_limits userId r (l : L) :
  withinLimits l -> withinLimits (ledgerCheckAndIncrementUsage userId r l).2.
Proof.
  intros Hl u r'.
  destruct (ledgerCheckAndIncrementUsage userId r l).1 eqn:Hcheck.
  - assert (Hsame : (u, r') = (userId, r) \/ (u, r') <> (userId, r)).
    { destruct (decide (u = userId)) as [->|Hu]; [|right; congruence].
      destruct r', r; (by left) || (right; congruence). }
    destruct Hsame as [[= -> ->]|Hne].
    + rewrite (check_granted _ _ _ Hcheck).
      rewrite check_allowed in Hcheck. apply N.ltb_lt in Hcheck. lia.
    + rewrite check_other by done. apply Hl.
  - rewrite (check_denied _ _ _ Hcheck). apply Hl.
Qed.

Lemma sendMessage_keeps_limits services content file audioBlob chatId userId chatData
    participantLanguages w :
  withinLimits (usage w) ->
  withinLimits (usage (final (sendMessage services content file audioBlob chatId userId
                                chatData participantLanguages w))).
Proof.
  intros Hw.
  destruct (nothingToSend content file audioBlob userId) eqn:Hguard;
    [by rewrite sendMessage_run, Hguard|].
  destruct (messageCharge userId w).1 eqn:Hcharge.
  - apply (accepted_ledger_invariant services withinLimits); try done.
    + intros n l Hl u r. rewrite add_used. apply Hl.
    + intros r l _. apply check_keeps_limits.
    + by apply check_keeps_limits.
  - rewrite sendMessage_run, Hguard, Hcharge. by apply check_keeps_limits.
Qed.

(** X19.  Under the ledger contract no series of sends, by whatever users,
    into whatever chats, completed or failed, takes a message, translation or
    AI-interaction counter past its limit: counters that start within their
    limits stay within them.  (The storage counter is not covered: a voice
    note is charged without a check.) *)
Theorem counters_stay_within_limits sends w :
  withinLimits (usage w) -> withinLimits (usage (sendAll sends w)).
Proof.
  revert w. induction sends as [|s rest IH]; intros w Hw; [done|].
  simpl. by apply IH, sendMessage_keeps_limits.
Qed.

End LimitsHold.

(** ** Worked scenarios for the further properties *)

(** A picture of exactly 10 MiB sent into the AI chat by a fresh user. *)
Lemma file_within_cap_witness :
  let w := worldOf noUsage in
  let r := sendMessage stubServices "look" (Some tenMiBPicture) None "c1" "alice"
             (Some aiChat) [] w in
  let path := storagePath "c1" "photo.png" in
  let m := withBody MsgImage "photo.png" (Some (downloadURLOf stubServices path))
                    (newMessage "alice" "c1") in
  "alice" <> ""
  /\ (messageCharge "alice" w).1 = true
  /\ ledgerCheckFileStorageLimit "alice" (File.size tenMiBPicture)
       (messageCharge "alice" w).2 = true
  /\ File.size tenMiBPicture <= MAX_FILE_SIZE
  /\ outcome r = inr tt
  /\ calls r = [CheckAndIncrementUsage "alice" Messages true;
               CheckFileStorageLimit "alice" (File.size tenMiBPicture) true;
               UploadBytes path (File.size tenMiBPicture); GetDownloadURL path;
               IncrementFileStorage "alice" (File.size tenMiBPicture);
               AddDoc (messagesPath "c1") m]
  /\ messagesOf "c1" (final r) = messagesOf "c1" w ++ [m]
  /\ blobs (final r) = <[path := File.size tenMiBPicture]> (blobs w)
  /\ usage (final r)
     = ledgerIncrementFileStorage "alice" (File.size tenMiBPicture)
         (messageCharge "alice" w).2.
Proof.
  intros w r path m.
  assert (Huser : "alice" <> "") by discriminate.
  assert (Hcharge : (messageCharge "alice" w).1 = true) by reflexivity.
  assert (Hstore : ledgerCheckFileStorageLimit "alice" (File.size tenMiBPicture)
                     (messageCharge "alice" w).2 = true) by (vm_compute; reflexivity).
  assert (Hsize : File.size tenMiBPicture <= MAX_FILE_SIZE) by reflexivity.
  split; [exact Huser|]. split; [exact Hcharge|]. split; [exact Hstore|].
  split; [exact Hsize|].
  exact (file_within_cap_is_stored stubServices "look" tenMiBPicture "c1" "alice"
           (Some aiChat) [] w Huser Hcharge Hstore Hsize).
Defined.

(** A 12 MiB file from a user whose storage is used up: the storage-limit
    error, not the size error. *)
Lemma storage_denial_precedes_size_cap_witness :
  let w := worldOf (usageWith 0 0 0 (50 * 1024 * 1024)) in
  "alice" <> ""
  /\ (messageCharge "alice" w).1 = true
  /\ ledgerCheckFileStorageLimit "alice" (File.size bigFile)
       (messageCharge "alice" w).2 = false
  /\ sendMessage stubServices "" (Some bigFile) None "c1" "alice" (Some privateChat) [] w
     = (inl FileStorageLimitReached, charged "alice" w,
        [CheckAndIncrementUsage "alice" Messages true;
         CheckFileStorageLimit "alice" (File.size bigFile) false]).
Proof.
  intros w.
  assert (Huser : "alice" <> "") by discriminate.
  assert (Hcharge : (messageCharge "alice" w).1 = true) by reflexivity.
  assert (Hstore : ledgerCheckFileStorageLimit "alice" (File.size bigFile)
                     (messageCharge "alice" w).2 = false) by (vm_compute; reflexivity).
  split; [exact Huser|]. split; [exact Hcharge|]. split; [exact Hstore|].
  exact (storage_denial_precedes_size_cap stubServices "" bigFile "c1" "alice"
           (Some privateChat) [] w Huser Hcharge Hstore).
Defined.

(** A voice note into a private chat whose other member has no profile. *)
Lemma unknown_recipient_witness :
  let w := worldOf noUsage in
  let r := sendMessage stubServices "" None (Some voiceNote) "c1" "alice"
             (Some chatWithStranger) [] w in
  (@None File.t = None \/ is_Some (Some voiceNote))
  /\ recipientUnknown "alice" (Some chatWithStranger) w
  /\ CheckAndIncrementUsage "alice" Messages true ∈ calls r
  /\ outcome r = inr tt
  /\ Forall (fun e => isTranslationsCheck e = false /\ isAiInteractionsCheck e = false
                      /\ isTranslate e = false) (calls r)
  /\ exists m,
       messagesOf "c1" (final r) = messagesOf "c1" w ++ [m]
       /\ type m = Some (payloadType None (Some voiceNote))
       /\ content m = Some (Plain (voiceFileName (dateNow stubServices))).
Proof.
  intros w r.
  assert (Hkind : @None File.t = None \/ is_Some (Some voiceNote)) by (by left).
  assert (Hunknown : recipientUnknown "alice" (Some chatWithStranger) w).
  { split; [reflexivity|]. right. vm_compute. reflexivity. }
  assert (Hcheck : CheckAndIncrementUsage "alice" Messages true ∈ calls r).
  { vm_compute. apply list_elem_of_here. }
  split; [exact Hkind|]. split; [exact Hunknown|]. split; [exact Hcheck|].
  exact (unknown_recipient_means_no_translation stubServices "" None (Some voiceNote)
           "c1" "alice" (Some chatWithStranger) [] w Hkind Hunknown Hcheck).
Defined.

Lemma message_charge_comes_first_witness :
  let w := worldOf noUsage in
  nothingToSend "hi" None None "alice" = false
  /\ exists rest,
       calls (sendMessage stubServices "hi" None None "g1" "alice" (Some groupChat)
                ["fr"; "de"] w)
       = CheckAndIncrementUsage "alice" Messages (messageCharge "alice" w).1 :: rest
       /\ Forall (fun e => isMessagesCheck e = false) rest.
Proof.
  intros w.
  assert (Hguard : nothingToSend "hi" None None "alice" = false) by reflexivity.
  split; [exact Hguard|].
  exact (message_charge_comes_first_and_once stubServices "hi" None None "g1" "alice"
           (Some groupChat) ["fr"; "de"] w Hguard).
Defined.

Lemma completed_send_witness :
  let w := worldOf noUsage in
  let r := sendMessage stubServices "hi" None None "g1" "alice" (Some groupChat)
             ["fr"; "de"] w in
  nothingToSend "hi" None None "alice" = false
  /\ outcome r = inr tt
  /\ exists m t,
       calls r = t ++ [AddDoc (messagesPath "g1") m]
       /\ Forall (fun e => isAddDoc e = false) t
       /\ collections (final r)
          = <[messagesPath "g1" := messagesOf "g1" w ++ [m]]> (collections w)
       /\ users (final r) = users w
       /\ senderId m = "alice" /\ chatId m = "g1"
       /\ type m = Some (payloadType None None)
       /\ is_Some (content m).
Proof.
  intros w r.
  assert (Hguard : nothingToSend "hi" None None "alice" = false) by reflexivity.
  assert (Hout : outcome r = inr tt) by (vm_compute; reflexivity).
  split; [exact Hguard|]. split; [exact Hout|].
  exact (completed_send_appends_one_message stubServices "hi" None None "g1" "alice"
           (Some groupChat) ["fr"; "de"] w Hguard Hout).
Defined.

(** Alice writes to Bob while the translation service is down. *)
Lemma failed_translation_witness :
  let w := worldOf noUsage in
  let r := sendMessage offlineServices "hi" None None "c1" "alice" (Some privateChat)
             [] w in
  (@None File.t = None \/ is_Some (@None Blob.t))
  /\ chatType privateChat = private
  /\ find (fun p => negb (String.eqb p "alice")) (participants privateChat) = Some "bob"
  /\ users w !! "bob" = Some {| preferredLang := Some "fr" |}
  /\ CheckAndIncrementUsage "alice" Translations true ∈ calls r
  /\ translateApi offlineServices "hi" "fr" = None
  /\ outcome r = inr tt
  /\ Translate "hi" "fr" false ∈ calls r
  /\ (exists m, messagesOf "c1" (final r) = messagesOf "c1" w ++ [m]
                /\ content m = Some (Plain "hi"))
  /\ usedTranslations (usageOf "alice" (usage (final r)))
     = usedTranslations (usageOf "alice" (usage w)) + 1.
Proof.
  intros w r.
  assert (Hkind : @None File.t = None \/ is_Some (@None Blob.t)) by (by left).
  assert (Hchat : chatType privateChat = private) by reflexivity.
  assert (Hfind : find (fun p => negb (String.eqb p "alice")) (participants privateChat)
                  = Some "bob") by reflexivity.
  assert (Huser : users w !! "bob" = Some {| preferredLang := Some "fr" |})
    by (vm_compute; reflexivity).
  assert (Hcheck : CheckAndIncrementUsage "alice" Translations true ∈ calls r).
  { vm_compute. do 2 apply list_elem_of_further. apply list_elem_of_here. }
  assert (Hdown : translateApi offlineServices "hi" "fr" = None) by reflexivity.
  split; [exact Hkind|]. split; [exact Hchat|]. split; [exact Hfind|].
  split; [exact Huser|]. split; [exact Hcheck|]. split; [exact Hdown|].
  exact (failed_translation_is_still_charged
           (contract := designContract (fun _ => FREE_TIER_LIMITS))
           offlineServices "hi" None None "c1" "alice" privateChat [] w "bob"
           {| preferredLang := Some "fr" |} Hkind Hchat Hfind Huser Hcheck Hdown).
Defined.

(** Alice, with two messages left, sends "hi" five times. *)
Lemma counters_stay_within_limits_witness :
  let hi := {| argServices := stubServices; argContent := "hi"; argFile := None;
               argAudioBlob := None; argChatId := "c1"; argUserId := "alice";
               argChatData := Some privateChat; argParticipantLanguages := [] |} in
  let w := worldOf (usageWith 98 49 0 0) in
  withinLimits (contract := designContract (fun _ => FREE_TIER_LIMITS)) (usage w)
  /\ withinLimits (contract := designContract (fun _ => FREE_TIER_LIMITS))
       (usage (sendAll [hi; hi; hi; hi; hi] w)).
Proof.
  intros hi w.
  assert (Hw : withinLimits (contract := designContract (fun _ => FREE_TIER_LIMITS))
                 (usage w)).
  { intros u r. cbn. unfold usageOf.
    destruct (decide (u = "alice")) as [->|Hne].
    - rewrite lookup_singleton_eq. by destruct r.
    - rewrite lookup_singleton_ne by done. by destruct r. }
  split; [exact Hw|].
  exact (counters_stay_within_limits
           (contract := designContract (fun _ => FREE_TIER_LIMITS))
           [hi; hi; hi; hi; hi] w Hw).
Defined.

Example counters_at_the_limit_scenario :
  let hi := {| argServices := stubServices; argContent := "hi"; argFile := None;
               argAudioBlob := None; argChatId := "c1"; argUserId := "alice";
               argChatData := Some privateChat; argParticipantLanguages := [] |} in
  let w' := sendAll [hi; hi; hi; hi; hi] (worldOf (usageWith 98 49 0 0)) in
  usageOf "alice" (usage w') = usageWith 100 50 0 0
  /\ length (messagesOf "c1" w') = 2%nat.
Proof. vm_compute. done. Qed.

(** * Further properties of invitation acceptance *)





(** X10.  Acceptance into a group chat, or into a private chat that has
    fewer than two participants, by a run alone whose requests the store
    answers, succeeds: the page moves to 'redirecting', the user is a
    participant afterwards, the chat keeps its type, a user who was not a
    participant is appended as the last one, and no other chat changes.
    Group chats take a new member however many they have. *)
Theorem accepted_invitation_adds_member chatId userId page chats chat :
  userId <> "" ->
  chats !! chatId = Some chat ->
  chatType chat = group
  \/ (chatType chat = private /\ (length (participants chat) < 2)%nat) ->
  let r := acceptAlone None None (Some chatId) (Some userId) page chats in
  state r.1.1 = Redirecting
  /\ (exists chat',
        r.1.2 !! chatId = Some chat'
        /\ chatType chat' = chatType chat
        /\ userId ∈ participants chat'
        /\ (userId ∈ participants chat -> participants chat' = participants chat)
        /\ (userId ∉ participants chat ->
            participants chat' = participants chat ++ [userId]))
  /\ (forall other, other <> chatId -> r.1.2 !! other = chats !! other).
Proof.
  intros Huser Hchat Hroom r.
  destruct (acceptAlone_cases None None (Some chatId) (Some userId) page chats)
    as [[_ Hguard]|[(id & uid & reason & [= <-] & _ & _ & _ & Hreason)
                   |(id & uid & chat' & [= <-] & [= <-] & _ & _ & _ & Hchat' & _ & Hr)]].
  - destruct Hguard as [?|[?|[= ->]]]; done.
  - exfalso.
    destruct Hreason as [(e & ? & _)|[(_ & Hnone & _)|[(c & _ & Hc & Hty & Hlen & _)
                       |[(c & _ & Hc & Hty & _)|(c & e & _ & ? & _)]]]];
      simplify_eq; destruct Hroom as [?|[? ?]]; try congruence; lia.
  - fold r in Hr. rewrite Hr. simplify_eq. cbn [fst snd state].
    split_and!; [done| |].
    + eexists. rewrite lookup_insert_eq. split; [done|]. cbn [chatType participants].
      split_and!; [done|apply arrayUnion_elem|apply arrayUnion_member|apply arrayUnion_new].
    + intros other Hother. by rewrite lookup_insert_ne.
Qed.

(** X11.  After a run alone whose requests the store answered, running the
    acceptance again, with the same token and user, never changes the chats
    again, whatever the store then answers: the participants are a
    set-union, and a chat the first run filled up refuses the second. *)
Theorem repeated_acceptance_changes_nothing_more getDocFault updateDocFault chatId
    sessionUserId page page' chats :
  let once := (acceptAlone None None chatId sessionUserId page chats).1.2 in
  (acceptAlone getDocFault updateDocFault chatId sessionUserId page' once).1.2 = once.
Proof.
  intros once.
  destruct (acceptAlone_cases getDocFault updateDocFault chatId sessionUserId page' once)
    as [[-> _]|[(id & uid & reason & _ & _ & _ & -> & _)
               |(id & uid & chat2 & Hid & Huid & Hne & _ & _ & Hchat2 & Hroom2 & ->)]];
    [done|done|]. cbn [fst snd].
  subst once.
  destruct (acceptAlone_cases None None chatId sessionUserId page chats)
    as [[Hr Hguard]|[(id1 & uid1 & reason & Hid1 & Huid1 & _ & Hr & Hreason)
                    |(id1 & uid1 & chat & Hid1 & Huid1 & _ & _ & _ & Hchat & Hroom & Hr)]];
    rewrite Hr in Hchat2 |- *; cbn [fst snd failWith] in Hchat2 |- *.
  - destruct Hguard as [?|[?|?]]; simplify_eq.
  - exfalso. simplify_eq.
    destruct Hreason as [(e & ? & _)|[(_ & Hnone & _)|[(c & _ & Hc & Hty & Hlen & _)
                       |[(c & _ & Hc & Hty & _)|(c & e & _ & ? & _)]]]];
      simplify_eq; destruct Hroom2 as [?|[? ?]]; try congruence; lia.
  - simplify_eq. rewrite lookup_insert_eq in Hchat2. injection Hchat2 as <-.
    cbn [chatType participants].
    by rewrite arrayUnion_idempotent, insert_insert_eq.
Qed.

(** X12.  The second member of a private chat who opens the invitation link
    again is refused, although already a participant: the first run adds the
    user and redirects, the second ends in 'error' with "This private chat
    already has two members", and the participants stay as the first run
    left them.  (Runs alone, the store answering.) *)
Theorem member_reopening_private_link_is_refused chatId userId page page' chats chat :
  userId <> "" ->
  chats !! chatId = Some chat ->
  chatType chat = private ->
  length (participants chat) = 1%nat ->
  userId ∉ participants chat ->
  let first := acceptAlone None None (Some chatId) (Some userId) page chats in
  let second := acceptAlone None None (Some chatId) (Some userId) page' first.1.2 in
  state first.1.1 = Redirecting
  /\ (exists chat', first.1.2 !! chatId = Some chat' /\ userId ∈ participants chat')
  /\ second.1.1 = {| state := Error; error := "This private chat already has two members" |}
  /\ second.1.2 = first.1.2.
Proof.
  intros Huser Hchat Hty Hlen Hnew first second.
  assert (Hfirst : first
    = ({| state := Redirecting; error := error page |},
       <[chatId := {| chatType := private; participants := participants chat ++ [userId] |}]>
         chats,
       [Accepting; Redirecting])).
  { subst first. unfold acceptAlone, settled, handleAcceptInvitation.
    rewrite (truthy_nonempty _ Huser). cbn [negb fst snd resume].
    rewrite Hchat, Hty, Hlen. cbn [isPrivate isAi andb Nat.leb fst snd resume].
    by rewrite Hchat, Hty, (arrayUnion_new _ _ Hnew). }
  subst second. rewrite Hfirst. cbn [fst snd state].
  rewrite (full_private_chat_is_refused None chatId userId page' _
             {| chatType := private; participants := participants chat ++ [userId] |});
    try done.
  - split_and!; try done. eexists. rewrite lookup_insert_eq. split; [done|].
    simpl. apply elem_of_app. right. apply list_elem_of_here.
  - by rewrite lookup_insert_eq.
  - simpl. rewrite length_app, Hlen. simpl. lia.
Qed.

(** A settling request keeps the AI chats and leaves no write to one
    pending. *)
Lemma settle_keeps_ai s step id chat :
  s.2 !! id = Some chat -> chatType chat = ai ->
  Forall (notUpdating id) s.1 ->
  (settle s step).2 !! id = Some chat /\ Forall (notUpdating id) (settle s step).1.
Proof.
  intros Hchat Hty Hruns.
  destruct (s.1 !! step.1) as [v|] eqn:Hv; [|by rewrite settle_out_of_range].
  rewrite (settle_visit _ _ _ Hv). cbn [fst snd].
  assert (Hnot : notUpdating id v) by (by eapply Forall_lookup_1).
  destruct v as [page run]. cbn [visitRun visitPage] in *. unfold notUpdating in Hnot.
  cbn [visitRun] in Hnot.
  destruct run as [cid uid|cid uid|], (step.2) as [e|]; cbn [resume fst snd];
    try (split; [done|]; apply Forall_insert; [done|]; by intros ?).
  - destruct (s.2 !! cid) as [c|] eqn:Hc;
      [|split; [done|]; apply Forall_insert; [done|]; by intros ?].
    destruct (_ && _); [split; [done|]; apply Forall_insert; [done|]; by intros ?|].
    destruct (isAi (chatType c)) eqn:Hai;
      [split; [done|]; apply Forall_insert; [done|]; by intros ?|].
    cbn [fst snd]. split; [done|]. apply Forall_insert; [done|].
    intros uid' [= -> ->]. simplify_eq. by rewrite Hty in Hai.
  - destruct (s.2 !! cid) as [c|] eqn:Hc; cbn [fst snd].
    + split; [|apply Forall_insert; [done|]; by intros ?].
      rewrite lookup_insert_ne; [done|]. intros ->. by apply (Hnot uid).
    + split; [done|]. apply Forall_insert; [done|]. intros uid' Heq.
      cbn [visitRun] in Heq. injection Heq as Hc' _. subst cid. by eapply Hnot.
Qed.

(** X13.  AI chats never gain a member through invitations: whatever
    visitors open whatever links, however their requests overlap and
    whatever the store rejects, an AI chat of the collection is afterwards
    exactly as it was. *)
Theorem ai_chat_membership_is_fixed visitors schedule chats id chat :
  chats !! id = Some chat -> chatType chat = ai ->
  (acceptOverlapping visitors schedule chats).2 !! id = Some chat.
Proof.
  intros Hchat Hty.
  assert (Hinv : (acceptOverlapping visitors schedule chats).2 !! id = Some chat
                 /\ Forall (notUpdating id) (acceptOverlapping visitors schedule chats).1);
    [|by destruct Hinv].
  unfold acceptOverlapping.
  induction schedule as [|step schedule IH] using rev_ind.
  - cbn [foldl fst snd]. split; [done|].
    apply Forall_fmap, Forall_forall. intros [c u] _ uid.
    unfold opened, handleAcceptInvitation, compose. cbn [fst snd visitRun].
    destruct c as [cid|], u as [uid'|]; try done. by destruct (negb (truthy uid')).
  - rewrite foldl_app. cbn [foldl]. destruct IH as [IH1 IH2].
    by apply settle_keeps_ai.
Qed.

(** X14.  Only a signed-in visitor changes a chat: when the page's effect
    and the run it starts, alone, leave the chats different from what they
    were, the session was authenticated, it carried a user id, the store
    rejected neither request, the token named an existing chat that is not an
    AI chat, and the user was not yet one of its participants. *)
Theorem only_signed_in_acceptance_changes_chats getDocFault updateDocFault status chatId
    sessionUserId page chats :
  (visitAlone getDocFault updateDocFault status chatId sessionUserId page chats).1.2
    <> chats ->
  status = Authenticated
  /\ getDocFault = None /\ updateDocFault = None
  /\ exists id uid chat,
       chatId = Some id /\ id <> "" /\ sessionUserId = Some uid /\ uid <> ""
       /\ chats !! id = Some chat /\ chatType chat <> ai
       /\ uid ∉ participants chat.
Proof.
  unfold visitAlone, acceptEffect. destruct status; [done| |done].
  destruct (truthy (default "" chatId)) eqn:Htoken; [|done].
  fold (acceptAlone getDocFault updateDocFault chatId sessionUserId page chats).
  intros Hchanged. split; [done|].
  destruct (acceptAlone_cases getDocFault updateDocFault chatId sessionUserId page chats)
    as [[Hr _]|[(? & ? & reason & _ & _ & _ & Hr & _)
               |(id & uid & chat & -> & -> & Huid & -> & -> & Hchat & Hroom & Hr)]];
    rewrite Hr in Hchanged; cbn [fst snd failWith] in Hchanged; [done|done|].
  split_and!; try done.
  exists id, uid, chat. split_and!; try done.
  - intros ->. done.
  - destruct Hroom as [?|[? _]]; congruence.
  - intros Hin. apply Hchanged. rewrite (arrayUnion_member _ _ Hin), chatData_eta.
    by apply insert_id.
Qed.

(** ** Worked scenarios of invitation acceptance *)


Example overlapping_visits_scenario :
  let schedule := [(0, None); (1, None); (0, None);
                   (1, Some (ErrorWith "Missing or insufficient permissions."))]%nat in
  let r := acceptOverlapping twoVisitors schedule invitationChats in
  renderContent <$> (visitPage <$> r.1)
  = ["Invitation accepted! Redirecting to chat...";
     "Missing or insufficient permissions."]
  /\ participants <$> r.2 !! "p1" = Some ["alice"; "bob"].
Proof. by vm_compute. Qed.

(** Frank joins the group that already has five members. *)
Lemma accepted_invitation_witness :
  let chat := {| chatType := group;
                 participants := ["alice"; "bob"; "carol"; "dave"; "erin"] |} in
  let r := acceptAlone None None (Some "g1") (Some "frank") initialPage
             invitationChats in
  "frank" <> ""
  /\ invitationChats !! "g1" = Some chat
  /\ (chatType chat = group
      \/ (chatType chat = private /\ (length (participants chat) < 2)%nat))
  /\ state r.1.1 = Redirecting
  /\ (exists chat',
        r.1.2 !! "g1" = Some chat'
        /\ chatType chat' = chatType chat
        /\ "frank" ∈ participants chat'
        /\ ("frank" ∈ participants chat -> participants chat' = participants chat)
        /\ ("frank" ∉ participants chat ->
            participants chat' = participants chat ++ ["frank"]))
  /\ (forall other, other <> "g1" -> r.1.2 !! other = invitationChats !! other).
Proof.
  intros chat r.
  assert (Huser : "frank" <> "") by discriminate.
  assert (Hchat : invitationChats !! "g1" = Some chat) by (vm_compute; reflexivity).
  assert (Hroom : chatType chat = group
                  \/ (chatType chat = private /\ (length (participants chat) < 2)%nat))
    by (by left).
  split; [exact Huser|]. split; [exact Hchat|]. split; [exact Hroom|].
  exact (accepted_invitation_adds_member "g1" "frank" initialPage invitationChats chat
           Huser Hchat Hroom).
Defined.

(** The group then has six members, one more than the free tier's
    [maxGroupMembers]. *)
Example sixth_member_scenario :
  (participants
     <$> (acceptAlone None None (Some "g1") (Some "frank") initialPage
            invitationChats).1.2 !! "g1")
  = Some ["alice"; "bob"; "carol"; "dave"; "erin"; "frank"]
  /\ maxGroupMembers FREE_TIER_LIMITS = 5.
Proof. vm_compute. done. Qed.

(** Bob accepts Alice's private chat, then opens the link again. *)
Lemma member_reopening_private_link_witness :
  let chat := {| chatType := private; participants := ["alice"] |} in
  let first := acceptAlone None None (Some "p1") (Some "bob") initialPage
                 invitationChats in
  let second := acceptAlone None None (Some "p1") (Some "bob") initialPage first.1.2 in
  "bob" <> ""
  /\ invitationChats !! "p1" = Some chat
  /\ chatType chat = private
  /\ length (participants chat) = 1%nat
  /\ ("bob" ∉ participants chat)
  /\ state first.1.1 = Redirecting
  /\ (exists chat', first.1.2 !! "p1" = Some chat' /\ "bob" ∈ participants chat')
  /\ second.1.1
     = {| state := Error; error := "This private chat already has two members" |}
  /\ second.1.2 = first.1.2.
Proof.
  intros chat first second.
  assert (Huser : "bob" <> "") by discriminate.
  assert (Hchat : invitationChats !! "p1" = Some chat) by (vm_compute; reflexivity).
  assert (Hty : chatType chat = private) by reflexivity.
  assert (Hlen : length (participants chat) = 1%nat) by reflexivity.
  assert (Hnew : "bob" ∉ participants chat).
  { intros [=]%list_elem_of_singleton. }
  split; [exact Huser|]. split; [exact Hchat|]. split; [exact Hty|].
  split; [exact Hlen|]. split; [exact Hnew|].
  exact (member_reopening_private_link_is_refused "p1" "bob" initialPage initialPage
           invitationChats chat Huser Hchat Hty Hlen Hnew).
Defined.

(** Bob and Carol try the AI chat, with overlapping requests; Bob also joins
    the group. *)
Lemma ai_chat_membership_witness :
  let chat := {| chatType := ai; participants := ["alice"] |} in
  let visitors := [(Some "a1", Some "bob"); (Some "g1", Some "bob");
                   (Some "a1", Some "carol")] in
  let schedule := [(2, None); (1, None); (0, None); (1, None); (2, None)]%nat in
  invitationChats !! "a1" = Some chat
  /\ chatType chat = ai
  /\ (acceptOverlapping visitors schedule invitationChats).2 !! "a1" = Some chat.
Proof.
  intros chat visitors schedule.
  assert (Hchat : invitationChats !! "a1" = Some chat) by (vm_compute; reflexivity).
  assert (Hty : chatType chat = ai) by reflexivity.
  split; [exact Hchat|]. split; [exact Hty|].
  exact (ai_chat_membership_is_fixed visitors schedule invitationChats "a1" chat
           Hchat Hty).
Defined.

Lemma only_signed_in_acceptance_witness :
  (visitAlone None None Authenticated (Some "p1") (Some "bob") initialPage
     invitationChats).1.2
    <> invitationChats
  /\ Authenticated = Authenticated
  /\ @None Thrown = None /\ @None Thrown = None
  /\ exists id uid chat,
       Some "p1" = Some id /\ id <> "" /\ Some "bob" = Some uid /\ uid <> ""
       /\ invitationChats !! id = Some chat /\ chatType chat <> ai
       /\ uid ∉ participants chat.
Proof.
  assert (Hchanged :
    (visitAlone None None Authenticated (Some "p1") (Some "bob") initialPage
       invitationChats).1.2
      <> invitationChats).
  { intros Heq. apply (f_equal (fun m => participants <$> m !! "p1")) in Heq.
    vm_compute in Heq. discriminate Heq. }
  split; [exact Hchanged|].
  exact (only_signed_in_acceptance_changes_chats None None Authenticated (Some "p1")
           (Some "bob") initialPage invitationChats Hchanged).
Defined.

(** * Properties of chat creation *)

(** ** Splitting a link *)

Lemma split_nonempty sep s : split sep s <> [].
Proof.
  destruct s as [|c r]; [done|]. simpl.
  destruct (Ascii.eqb c sep); [done|]. by destruct (split sep r).
Qed.

Lemma split_no_separator sep s : occurs sep s = false -> split sep s = [s].
Proof.
  induction s as [|c r IH]; [done|]. simpl.
  intros [Hc Hr]%orb_false_elim. rewrite Hc, (IH Hr). done.
Qed.

Lemma pop_split_cons sep c r :
  pop (split sep (String c r))
  = if Ascii.eqb c sep then pop (split sep r)
    else match split sep r with
         | [segment] => Some (String c segment)
         | _ => pop (split sep r)
         end.
Proof.
  unfold pop. simpl. destruct (Ascii.eqb c sep).
  - pose proof (split_nonempty sep r). by destruct (split sep r).
  - pose proof (split_nonempty sep r). by destruct (split sep r) as [|? [|]].
Qed.

(** After the last separator comes the last segment. *)
Lemma pop_split_append sep a b :
  occurs sep b = false ->
  pop (split sep (a +:+ String sep b)) = Some b
  /\ (2 <= length (split sep (a +:+ String sep b)))%nat.
Proof.
  intros Hb. induction a as [|c r [IH1 IH2]].
  - simpl. rewrite Ascii.eqb_refl, (split_no_separator _ _ Hb). done.
  - change (String c r +:+ String sep b) with (String c (r +:+ String sep b)).
    rewrite pop_split_cons. simpl.
    destruct (Ascii.eqb c sep); [split; [done|simpl; lia]|].
    destruct (split sep (r +:+ String sep b)) as [|s1 [|s2 rest]]; simpl in *; try lia.
    done.
Qed.

(** The last segment of an invitation link is not the chat's id but
    ["invite?token="] followed by it. *)
Lemma invitation_link_last_segment props chatId :
  occurs "/" chatId = false ->
  default "" (pop (split "/" (invitationLinkOf props chatId)))
  = "invite?token=" +:+ chatId.
Proof.
  intros Hid. unfold invitationLinkOf.
  change (Props.origin props +:+ "/invite?token=" +:+ chatId)
    with (Props.origin props +:+ String "/" ("invite?token=" +:+ chatId)).
  assert (Hseg : occurs "/" ("invite?token=" +:+ chatId) = false) by exact Hid.
  by rewrite (proj1 (pop_split_append "/" _ _ Hseg)).
Qed.

(** ** Runs of the handlers *)

Section ChatCreation.

Variable props : Props.t.
Implicit Types (w : DialogWorld) (d : Dialog.t).

Lemma request_answers w : faults w = [] -> request w = (Some tt, w).
Proof. intros H. unfold request. by rewrite H. Qed.

Lemma request_rejected w rest :
  faults w = true :: rest ->
  request w = (None, {| dialog := dialog w; db := db w; faults := rest;
                        closeCalls := closeCalls w |}).
Proof. intros H. unfold request. by rewrite H. Qed.

Lemma request_granted w rest :
  faults w = false :: rest ->
  request w = (Some tt, {| dialog := dialog w; db := db w; faults := rest;
                           closeCalls := closeCalls w |}).
Proof. intros H. unfold request. by rewrite H. Qed.

(** With the database available, the invitations for a list of users are
    all written, in the order of the list, and nothing else changes. *)
Lemma sendInvitations_run link users w :
  faults w = [] ->
  exists w',
    sendInvitations link users w = (Some tt, w')
    /\ dialog w' = dialog w /\ faults w' = [] /\ closeCalls w' = closeCalls w
    /\ Firestore.users (db w') = Firestore.users (db w)
    /\ Firestore.chats (db w') = Firestore.chats (db w)
    /\ Firestore.invitations (db w')
       = Firestore.invitations (db w)
         ++ ((fun user => invitationFor link (User.email user)) <$> users).
Proof.
  revert w. induction users as [|user rest IH]; intros w Hfaults.
  - exists w. simpl. rewrite app_nil_r. by split_and!.
  - simpl. unfold tryBind at 1, sendInvitation, addInvitation, tryBind at 1.
    rewrite (request_answers _ Hfaults). unfold does at 1.
    set (w1 := withDb _ w).
    destruct (IH w1 Hfaults) as (w' & -> & Hd & Hf & Hc & Hu & Hch & Hinv).
    exists w'. split_and!; try done.
    rewrite Hinv. simpl. by rewrite <- app_assoc.
Qed.

(** X15.  [handleInvite], by a signed-in user with the database available,
    creates a private chat with the inviter as its only participant,
    whatever the dialog's chat type and whoever is selected, writes one
    invitation for the typed address, shows the invitation link, hides the
    invitation box and closes the dialog; no success message is set. *)
Theorem invite_creates_private_chat w me :
  signedIn props = Some me ->
  faults w = [] ->
  let w' := handleInvite props w in
  let chatId := Props.newDocId props (Firestore.chats (db w)) in
  let link := invitationLinkOf props chatId in
  Firestore.chats (db w') = <[chatId := invitedChatDoc me]> (Firestore.chats (db w))
  /\ Firestore.invitations (db w')
     = Firestore.invitations (db w)
       ++ [invitationFor link (Dialog.inviteEmail (dialog w))]
  /\ Dialog.chatLink (dialog w') = link
  /\ Dialog.showInvite (dialog w') = false
  /\ Dialog.isLoading (dialog w') = false
  /\ closeCalls w' = S (closeCalls w)
  /\ Dialog.successMessage (dialog w') = Dialog.successMessage (dialog w)
  /\ Dialog.error (dialog w') = Dialog.error (dialog w)
  /\ Dialog.selectedUsers (dialog w') = Dialog.selectedUsers (dialog w).
Proof.
  intros Hme Hfaults w' chatId link. subst w'. unfold handleInvite. rewrite Hme.
  unfold tryBind, addChat, sendInvitation, addInvitation, tryBind, does.
  rewrite (request_answers (setIsLoading true w)) by done.
  rewrite request_answers by done. simpl. by split_and!.
Qed.

(** X16.  Creating a private chat with the one selected user, by a
    signed-in user with the database available: the chat document is
    written with the creator as first participant and the selected user
    added by set-union, the dialog shows the link to the chat itself, no
    invitation is written, the success message is set and the loading flag
    is down again. *)
Theorem private_chat_with_selected_user w me user :
  signedIn props = Some me ->
  Props.chatType props = private ->
  Dialog.selectedUsers (dialog w) = [user] ->
  Dialog.showInvite (dialog w) = false ->
  Dialog.createWithoutUsers (dialog w) = false ->
  faults w = [] ->
  let w' := handleCreateChat props w in
  let chatId := Props.newDocId props (Firestore.chats (db w)) in
  (exists c,
     Firestore.chats (db w') = <[chatId := c]> (Firestore.chats (db w))
     /\ ChatDoc.type c = private /\ ChatDoc.createdBy c = me
     /\ ChatDoc.participants c = arrayUnion (User.id user) [me]
     /\ (User.id user <> me -> ChatDoc.participants c = [me; User.id user])
     /\ ChatDoc.name c = None /\ ChatDoc.aiModel c = None)
  /\ Firestore.invitations (db w') = Firestore.invitations (db w)
  /\ Dialog.chatLink (dialog w') = chatLinkOf props chatId
  /\ Dialog.successMessage (dialog w') = "Chat created successfully!"
  /\ Dialog.isLoading (dialog w') = false
  /\ Dialog.error (dialog w') = Dialog.error (dialog w)
  /\ closeCalls w' = closeCalls w.
Proof.
  intros Hme Hty Hsel Hinv Hwithout Hfaults w' chatId. subst w'.
  unfold handleCreateChat. rewrite Hme, Hty, Hsel, Hinv, Hwithout.
  cbn [isPrivate isGroup isAi length Nat.eqb negb andb lookup list_lookup].
  unfold tryBind, addChat, addParticipant, tryBind, does.
  rewrite (request_answers (setIsLoading true w)) by done.
  rewrite request_answers by done.
  cbn [db withDb Firestore.chats]. rewrite lookup_insert_eq.
  cbn -[arrayUnion]. rewrite insert_insert_eq.
  split_and!; try done.
  eexists. split; [done|]. cbn -[arrayUnion]. split_and!; try done.
  intros Hne. unfold arrayUnion.
  destruct (decide _) as [Hin|]; [|done].
  by apply list_elem_of_singleton in Hin.
Qed.

(** X17.  Creating a chat in every other case that passes the guards (a
    group, an AI chat, or a private chat "without adding users"), by a
    signed-in user with the database available: the chat document has the
    creator as its only participant (the selected users are invited, they
    are not added), a group gets its name or "New Group Chat", an AI chat
    its model; the dialog shows the invitation link; and unless "create
    without adding users" is ticked, one invitation per selected user is
    written, in the order of the selection. *)
Theorem chat_with_invitations w me :
  signedIn props = Some me ->
  createGuardsPass props (dialog w) = true ->
  isPrivate (Props.chatType props) && Dialog.showInvite (dialog w) = false ->
  isPrivate (Props.chatType props) && (length (Dialog.selectedUsers (dialog w)) =? 1)%nat
    && negb (Dialog.createWithoutUsers (dialog w)) = false ->
  faults w = [] ->
  let w' := handleCreateChat props w in
  let chatId := Props.newDocId props (Firestore.chats (db w)) in
  let link := invitationLinkOf props chatId in
  Firestore.chats (db w')
  = <[chatId := newChatDoc props me (dialog w)]> (Firestore.chats (db w))
  /\ Firestore.invitations (db w')
     = Firestore.invitations (db w)
       ++ (if Dialog.createWithoutUsers (dialog w) then []
           else (fun user => invitationFor link (User.email user))
                <$> Dialog.selectedUsers (dialog w))
  /\ Dialog.chatLink (dialog w') = link
  /\ Dialog.successMessage (dialog w') = "Chat created successfully!"
  /\ Dialog.isLoading (dialog w') = false
  /\ Dialog.error (dialog w') = Dialog.error (dialog w).
Proof.
  intros Hme Hguards Hnoinvite Hnodirect Hfaults w' chatId link.
  unfold createGuardsPass in Hguards. rewrite Hme in Hguards.
  apply andb_prop in Hguards as [[_ Hg1]%andb_prop Hg2].
  apply negb_true_iff in Hg1, Hg2.
  assert (Hfinal : w' = handleCreateChat props w) by done.
  clearbody w'. rename w' into final.
  unfold handleCreateChat in Hfinal.
  rewrite Hme, Hg1, Hg2, Hnoinvite, Hnodirect in Hfinal.
  unfold tryBind at 1 2, addChat, tryBind at 1 in Hfinal.
  rewrite (request_answers (setIsLoading true w)) in Hfinal by done.
  unfold tryBind at 1, does at 1 in Hfinal.
  change (db (setIsLoading true w)) with (db w) in Hfinal.
  fold chatId link in Hfinal.
  destruct (Dialog.createWithoutUsers (dialog w)) eqn:Hwithout; cbn [negb] in Hfinal.
  - unfold does in Hfinal. cbn in Hfinal. subst final. cbn.
    rewrite app_nil_r. by split_and!.
  - set (w1 := setChatLink link _) in Hfinal.
    destruct (sendInvitations_run link (Dialog.selectedUsers (dialog w)) w1)
      as (w2 & Hrun & Hd & Hf & Hc & Hu & Hch & Hinvs); [done|].
    rewrite Hrun in Hfinal. unfold does in Hfinal. cbn [fst snd] in Hfinal.
    subst final. cbn. rewrite Hch, Hinvs, Hd. by split_and!.
Qed.

(** X18.  In a private dialog with the invitation box open, "Create Chat"
    does exactly what "Invite" does: the selection is not looked at. *)
Theorem create_with_invite_box_open_is_invite w :
  Props.chatType props = private ->
  Dialog.showInvite (dialog w) = true ->
  handleCreateChat props w = handleInvite props w.
Proof.
  intros Hty Hinv. unfold handleCreateChat. rewrite Hty, Hinv.
  destruct (signedIn props) as [me|] eqn:Hme; [|by unfold handleInvite; rewrite Hme].
  cbn [isPrivate isGroup negb andb]. rewrite !andb_false_r. cbn [andb].
  unfold does. unfold handleInvite. rewrite Hme.
  change (Dialog.inviteEmail (dialog (setIsLoading true w)))
    with (Dialog.inviteEmail (dialog w)).
  assert (Htwice : setIsLoading true (setIsLoading true w) = setIsLoading true w) by done.
  rewrite Htwice.
  by destruct (tryBind _ _ (setIsLoading true w)) as [[[]|] w1].
Qed.

(** [handleCreateChat] does nothing at all (no cell, no document, no
    request) when nobody is signed in, when a private chat has not exactly
    one selected user while the invitation box is closed and "create without
    adding users" is not ticked, and when a group has no selected user and
    that box is not ticked. *)
Lemma create_guards_do_nothing w :
  createGuardsPass props (dialog w) = false ->
  handleCreateChat props w = w.
Proof.
  unfold createGuardsPass, handleCreateChat.
  destruct (signedIn props) as [me|]; [|done].
  rewrite bool_decide_eq_true_2 by (by eexists). cbn [andb].
  destruct (isPrivate _ && _ && _ && _); [done|]. cbn [negb andb].
  by destruct (isGroup _ && _ && _).
Qed.

(** ** What a handler may write, whatever the database answers *)

Lemma sendInvitations_cons link user rest w :
  sendInvitations link (user :: rest) w
  = match request w with
    | (Some _, w1) =>
        sendInvitations link rest
          (withDb (fun s => {| Firestore.users := Firestore.users s;
                               Firestore.chats := Firestore.chats s;
                               Firestore.invitations :=
                                 Firestore.invitations s
                                 ++ [invitationFor link (User.email user)] |}) w1)
    | (None, w1) => (None, w1)
    end.
Proof.
  simpl. unfold tryBind at 1, sendInvitation, addInvitation, tryBind at 1.
  by destruct (request w) as [[[]|] w1].
Qed.

Lemma sendInvitations_frame link users w :
  exists sent,
    dialog (sendInvitations link users w).2 = dialog w
    /\ closeCalls (sendInvitations link users w).2 = closeCalls w
    /\ Firestore.users (db (sendInvitations link users w).2) = Firestore.users (db w)
    /\ Firestore.chats (db (sendInvitations link users w).2) = Firestore.chats (db w)
    /\ Firestore.invitations (db (sendInvitations link users w).2)
       = Firestore.invitations (db w) ++ (invitationFor link <$> sent).
Proof.
  revert w. induction users as [|user rest IH]; intros w.
  - exists []. simpl. rewrite app_nil_r. by split_and!.
  - assert (Hstep : forall w1,
      dialog w1 = dialog w -> closeCalls w1 = closeCalls w ->
      Firestore.users (db w1) = Firestore.users (db w) ->
      Firestore.chats (db w1) = Firestore.chats (db w) ->
      Firestore.invitations (db w1)
      = Firestore.invitations (db w) ++ [invitationFor link (User.email user)] ->
      exists sent,
        dialog (sendInvitations link rest w1).2 = dialog w
        /\ closeCalls (sendInvitations link rest w1).2 = closeCalls w
        /\ Firestore.users (db (sendInvitations link rest w1).2) = Firestore.users (db w)
        /\ Firestore.chats (db (sendInvitations link rest w1).2) = Firestore.chats (db w)
        /\ Firestore.invitations (db (sendInvitations link rest w1).2)
           = Firestore.invitations (db w) ++ (invitationFor link <$> sent)).
    { intros w1 Hd1 Hc1 Hu1 Hch1 Hinv1.
      destruct (IH w1) as (sent & Hd & Hc & Hu & Hch & Hinv).
      exists (User.email user :: sent).
      rewrite Hd, Hc, Hu, Hch, Hinv, Hd1, Hc1, Hu1, Hch1, Hinv1.
      split_and!; try done. simpl. by rewrite <- app_assoc. }
    rewrite sendInvitations_cons. unfold request.
    destruct (faults w) as [|[] more].
    + by apply Hstep.
    + exists []. simpl. rewrite app_nil_r. by split_and!.
    + by apply Hstep.
Qed.

Lemma wroteAtMostOneChat_same_db w w' : db w' = db w -> wroteAtMostOneChat props w w'.
Proof.
  intros Hdb. unfold wroteAtMostOneChat. rewrite Hdb. split_and!; try done; [by left|].
  exists []. simpl. by rewrite app_nil_r.
Qed.

Lemma wroteAtMostOneChat_refl w : wroteAtMostOneChat props w w.
Proof. by apply wroteAtMostOneChat_same_db. Qed.

(** Answering the requests of a run one after the other. *)
Ltac answer_requests :=
  repeat (first [ rewrite request_answers by (cbn; done)
                | erewrite request_rejected by (cbn; done)
                | erewrite request_granted by (cbn; done) ];
          cbv beta iota).

Lemma handleInvite_writes w :
  Dialog.selectedUsers (dialog (handleInvite props w)) = Dialog.selectedUsers (dialog w)
  /\ wroteAtMostOneChat props w (handleInvite props w).
Proof.
  unfold handleInvite.
  destruct (signedIn props) as [me|] eqn:Hme;
    [|split; [done|apply wroteAtMostOneChat_refl]].
  unfold wroteAtMostOneChat. rewrite Hme.
  unfold tryBind, addChat, sendInvitation, addInvitation, tryBind, does.
  destruct (faults w) as [|[] [|[] more]] eqn:Hf; answer_requests; cbn.
  all: split_and!; try done.
  all: try (left; done).
  all: try (right; exists me; eexists; split_and!; [done|done|done|by left]).
  all: try (exists []; simpl; by rewrite app_nil_r).
  all: exists [Dialog.inviteEmail (dialog w)]; split; [done|];
       intros _; by rewrite lookup_insert_eq.
Qed.

Lemma handleCreateChat_writes w :
  Dialog.selectedUsers (dialog (handleCreateChat props w))
  = Dialog.selectedUsers (dialog w)
  /\ wroteAtMostOneChat props w (handleCreateChat props w).
Proof.
  unfold handleCreateChat.
  destruct (signedIn props) as [me|] eqn:Hme;
    [|split; [done|apply wroteAtMostOneChat_refl]].
  destruct (isPrivate _ && negb _ && _ && _);
    [split; [done|apply wroteAtMostOneChat_refl]|].
  destruct (isGroup _ && _ && _); [split; [done|apply wroteAtMostOneChat_refl]|].
  destruct (isPrivate (Props.chatType props) && Dialog.showInvite (dialog w)).
  - unfold does. cbv beta iota.
    pose proof (handleInvite_writes (setIsLoading true w)) as Hw.
    unfold wroteAtMostOneChat in *. cbn in *. exact Hw.
  - unfold wroteAtMostOneChat. rewrite Hme.
    destruct (isPrivate (Props.chatType props)
              && (length (Dialog.selectedUsers (dialog w)) =? 1)%nat
              && negb (Dialog.createWithoutUsers (dialog w))) eqn:Hdirect.
    + apply andb_prop in Hdirect as [[Hty _]%andb_prop _].
      destruct (Props.chatType props); try done.
      unfold tryBind, addChat, addParticipant, tryBind, does, throws.
      destruct (Dialog.selectedUsers (dialog w) !! 0%nat) as [user|];
        destruct (faults w) as [|[] [|[] more]] eqn:Hf; answer_requests; cbn;
        rewrite ?lookup_insert_eq; cbn -[arrayUnion]; rewrite ?insert_insert_eq.
      all: split_and!; try done.
      all: try (left; done).
      all: try (exists []; simpl; by rewrite app_nil_r).
      all: right; exists me; eexists; split_and!; [done|done|done|];
           first [by left | right; eexists; by split].
    + match goal with
      | |- context [setIsLoading false ?t] => remember t as final eqn:Hfinal
      end.
      revert Hfinal. unfold tryBind at 1 2, addChat, tryBind at 1.
      destruct (faults w) as [|[] more] eqn:Hf; answer_requests.
      2:{ intros ->. cbn. split_and!; try done; [by left|].
          exists []. simpl. by rewrite app_nil_r. }
      all: unfold tryBind, does at 1; cbv beta iota;
        destruct (negb (Dialog.createWithoutUsers (dialog w))).
      all: try (unfold does; intros ->; cbn; split_and!; try done;
                [right; exists me; eexists; split_and!; [done|done|done|by left]
                |exists []; simpl; by rewrite app_nil_r]).
      all: match goal with
           | |- context [sendInvitations ?link ?users ?W] =>
               destruct (sendInvitations_frame link users W)
                 as (sent & Hd & Hc & Hu & Hch & Hinv);
               destruct (sendInvitations link users W) as [[[]|] w2]
           end; cbn in Hd, Hc, Hu, Hch, Hinv; unfold does; intros ->; cbn;
           rewrite ?Hd, ?Hu, ?Hch, ?Hinv; cbn.
      all: split_and!; try done;
        [right; exists me; eexists; split_and!; [done|done|done|by left]
        |exists sent; split; [done|]; intros _; by rewrite lookup_insert_eq].
Qed.

(** ** The selection *)

Lemma existsb_id_elem (users : list User.t) (userId : string) :
  existsb (fun u => String.eqb (User.id u) userId) users = true
  <-> userId ∈ User.id <$> users.
Proof.
  induction users as [|u rest IH]; simpl.
  - split; [done|by intros ?%elem_of_nil].
  - rewrite orb_true_iff, IH, elem_of_cons, String.eqb_eq. naive_solver.
Qed.

Lemma handleSelectUser_selection user w :
  cleanSelection props (dialog w) ->
  Some (User.id user) <> Props.sessionUserId props ->
  cleanSelection props (dialog (handleSelectUser user w)).
Proof.
  intros [Hnodup Hme] Hother. unfold handleSelectUser, cleanSelection.
  destruct (existsb _ _) eqn:Hexists; cbn; [done|].
  rewrite fmap_app. simpl. split.
  - apply NoDup_app. split_and!; [done| |apply NoDup_singleton].
    intros x Hx ->%list_elem_of_singleton.
    apply existsb_id_elem in Hx. congruence.
  - intros me Hsession [Hin|Hin%list_elem_of_singleton]%elem_of_app.
    + by eapply Hme.
    + congruence.
Qed.

Lemma handleRemoveUser_selection userId w :
  cleanSelection props (dialog w) ->
  cleanSelection props (dialog (handleRemoveUser userId w)).
Proof.
  intros [Hnodup Hme]. unfold handleRemoveUser, cleanSelection. cbn.
  assert (Hsub : forall x,
    x ∈ User.id <$> List.filter (fun user => negb (String.eqb (User.id user) userId))
                                (Dialog.selectedUsers (dialog w)) ->
    x ∈ User.id <$> Dialog.selectedUsers (dialog w)).
  { intros x (u & -> & Hu)%list_elem_of_fmap. apply list_elem_of_fmap.
    exists u. split; [done|]. apply list_elem_of_In in Hu.
    apply filter_In in Hu as [Hu _]. by apply list_elem_of_In. }
  split.
  - clear Hme Hsub. induction (Dialog.selectedUsers (dialog w)) as [|u rest IH]; [done|].
    simpl in *. apply NoDup_cons in Hnodup as [Hu Hrest].
    destruct (negb _); [|by apply IH]. simpl. apply NoDup_cons. split; [|by apply IH].
    intros (u' & Hid & Hin)%list_elem_of_fmap. apply Hu. apply list_elem_of_fmap.
    exists u'. split; [done|]. apply list_elem_of_In in Hin.
    apply filter_In in Hin as [Hin _]. by apply list_elem_of_In.
  - intros me Hsession Hin. by eapply Hme, Hsub.
Qed.

Lemma handleSearch_selection w :
  cleanSelection props (dialog w) ->
  cleanSelection props (dialog (handleSearch props w).2).
Proof.
  intros Hclean. unfold handleSearch.
  destruct (negb (truthy _)); [done|].
  unfold tryBind, getUsersWhere, tryBind, does, request.
  destruct (faults w) as [|[] more]; cbv beta iota; cbn [snd]; try done.
  all: destruct (List.filter _ _) as [|user rest]; [done|].
  all: destruct (negb (bool_decide _)) eqn:Hself; [|done].
  all: apply negb_true_iff, bool_decide_eq_false in Hself.
  all: match goal with
       | |- cleanSelection _ (dialog (setSearchTerm _ ?x)) =>
           change (cleanSelection props (dialog x))
       end; by apply handleSelectUser_selection.
Qed.

Lemma perform_selection a w :
  cleanSelection props (dialog w) ->
  cleanSelection props (dialog (perform props a w)).
Proof.
  intros Hclean. unfold perform. destruct (rendered props (dialog w) a); [|done].
  destruct a; try done.
  - by apply handleSearch_selection.
  - by apply handleRemoveUser_selection.
  - unfold cleanSelection. by rewrite (proj1 (handleInvite_writes w)).
  - unfold cleanSelection. by rewrite (proj1 (handleCreateChat_writes w)).
Qed.

(** X20.  Whatever is done in the dialog, in whatever order and whatever
    the database answers, no user is selected twice and the session's own
    user is never selected. *)
Theorem selection_stays_clean actions w :
  cleanSelection props (dialog w) ->
  cleanSelection props (dialog (interact props actions w)).
Proof.
  revert w. induction actions as [|a rest IH]; intros w Hclean; [done|].
  simpl. apply IH. by apply perform_selection.
Qed.

(** ** What a session with the dialog writes *)

Lemma handleSearch_db w : db (handleSearch props w).2 = db w.
Proof.
  unfold handleSearch. destruct (negb (truthy _)); [done|].
  unfold tryBind, getUsersWhere, tryBind, does, request.
  destruct (faults w) as [|[] more]; cbv beta iota; cbn [snd]; try done.
  all: destruct (List.filter _ _) as [|user rest]; [done|].
  all: unfold handleSelectUser; by repeat destruct (negb _).
Qed.

Lemma perform_writes a w : wroteAtMostOneChat props w (perform props a w).
Proof.
  unfold perform. destruct (rendered props (dialog w) a);
    [|apply wroteAtMostOneChat_refl].
  destruct a; try (by apply wroteAtMostOneChat_same_db).
  - apply wroteAtMostOneChat_same_db, handleSearch_db.
  - apply handleInvite_writes.
  - apply handleCreateChat_writes.
Qed.

Lemma string_length_append (s1 s2 : string) :
  String.length (s1 +:+ s2) = (String.length s1 + String.length s2)%nat.
Proof.
  induction s1 as [|c s1 IH]; [done|].
  change (String c s1 +:+ s2) with (String c (s1 +:+ s2)). simpl. by rewrite IH.
Qed.

(** A session never removes a chat document. *)
Lemma interact_keeps_chats actions w id :
  is_Some (Firestore.chats (db w) !! id) ->
  is_Some (Firestore.chats (db (interact props actions w)) !! id).
Proof.
  revert w. induction actions as [|a rest IH]; intros w Hid; [done|].
  simpl. apply IH.
  destruct (perform_writes a w) as (_ & [->|(me & c & _ & -> & _)] & _); [done|].
  destruct (decide (Props.newDocId props (Firestore.chats (db w)) = id)) as [->|Hne].
  - by rewrite lookup_insert_eq.
  - by rewrite lookup_insert_ne.
Qed.

(** X21.  When the ids picked for chat documents contain no "/", every
    invitation written during a session with the dialog records as its
    [chatId] the text "invite?token=" followed by the id of a chat document
    of the database: the last segment of the link, not the chat's id. *)
Theorem invitations_record_link_segment actions w :
  (forall chats, occurs "/" (Props.newDocId props chats) = false) ->
  let w' := interact props actions w in
  exists new,
    Firestore.invitations (db w') = Firestore.invitations (db w) ++ new
    /\ Forall (fun invitation =>
                 exists id,
                   is_Some (Firestore.chats (db w') !! id)
                   /\ Invitation.chatId invitation = "invite?token=" +:+ id
                   /\ Invitation.chatId invitation <> id) new.
Proof.
  intros Hids. revert w. induction actions as [|a rest IH]; intros w.
  - exists []. simpl. by rewrite app_nil_r.
  - simpl. destruct (IH (perform props a w)) as (new2 & Hinv2 & Hnew2).
    destruct (perform_writes a w) as (_ & _ & sent & Hinv1 & Hexists).
    eexists. split.
    + rewrite Hinv2, Hinv1, <- app_assoc. done.
    + apply Forall_app. split; [|done].
      apply Forall_forall. intros invitation (email & -> & Hin)%list_elem_of_fmap.
      exists (Props.newDocId props (Firestore.chats (db w))). split_and!.
      * apply interact_keeps_chats, Hexists. by intros ->; apply elem_of_nil in Hin.
      * simpl. by apply invitation_link_last_segment.
      * simpl. rewrite invitation_link_last_segment by done.
        intros Heq. apply (f_equal String.length) in Heq.
        rewrite string_length_append in Heq. simpl in Heq. lia.
Qed.

(** ** Private chats stay within two *)

Lemma perform_within_two a w :
  privateDocsWithinTwo (Firestore.chats (db w)) ->
  privateDocsWithinTwo (Firestore.chats (db (perform props a w))).
Proof.
  intros Hinv.
  destruct (perform_writes a w) as (_ & [->|(me & c & _ & -> & _ & Hc)] & _); [done|].
  intros id c' Hid Hty.
  destruct (decide (Props.newDocId props (Firestore.chats (db w)) = id)) as [Heq|Hne].
  - rewrite Heq, lookup_insert_eq in Hid. injection Hid as <-.
    destruct Hc as [->|(other & _ & ->)]; [simpl; lia|].
    pose proof (arrayUnion_length other [me]). simpl in *. lia.
  - rewrite lookup_insert_ne in Hid by done. by eapply Hinv.
Qed.

Lemma interact_within_two actions w :
  privateDocsWithinTwo (Firestore.chats (db w)) ->
  privateDocsWithinTwo (Firestore.chats (db (interact props actions w))).
Proof.
  revert w. induction actions as [|a rest IH]; intros w Hinv; [done|].
  simpl. by apply IH, perform_within_two.
Qed.

(** X22.  As long as acceptance runs do not overlap, a private chat never
    has more than two participants, through creation and acceptance together:
    starting from a database whose private chats have at most two
    participants, after any session with the dialog followed by any series of
    visits of the invitation page in which the two requests of each run
    settle one right after the other, whatever the store rejects, every
    private chat still has at most two. *)
Theorem private_chats_stay_within_two actions visitors order w :
  privateDocsWithinTwo (Firestore.chats (db w)) ->
  privateWithinTwo
    (acceptOverlapping visitors (oneAfterTheOther order)
       (chatDataOf <$> Firestore.chats (db (interact props actions w)))).2.
Proof.
  intros Hinv. apply oneAfterTheOther_within_two.
  pose proof (interact_within_two actions w Hinv) as Hdocs.
  intros id chat Hid Hty. rewrite lookup_fmap in Hid.
  destruct (Firestore.chats (db (interact props actions w)) !! id) as [c|] eqn:Hc;
    [|done].
  injection Hid as <-. by eapply Hdocs.
Qed.

(** ** Rejected requests *)

(** X23.  When the database rejects the first request of "Create Chat",
    nothing is written and nothing is announced: the database, the link and
    the success message are as they were and the dialog stays open; the
    error cell names the failure and the loading flag is down again. *)
Theorem rejected_creation_writes_nothing w rest :
  createGuardsPass props (dialog w) = true ->
  faults w = true :: rest ->
  let w' := handleCreateChat props w in
  db w' = db w
  /\ Dialog.chatLink (dialog w') = Dialog.chatLink (dialog w)
  /\ Dialog.successMessage (dialog w') = Dialog.successMessage (dialog w)
  /\ closeCalls w' = closeCalls w
  /\ Dialog.isLoading (dialog w') = false
  /\ Dialog.error (dialog w')
     = Some (if isPrivate (Props.chatType props) && Dialog.showInvite (dialog w)
             then "Failed to send invitation. Please try again."
             else "Failed to create chat. Please try again.").
Proof.
  intros Hguards Hf w'. unfold createGuardsPass in Hguards.
  apply andb_prop in Hguards as [[Hme Hg1]%andb_prop Hg2].
  apply bool_decide_eq_true in Hme as [me Hme]. apply negb_true_iff in Hg1, Hg2.
  assert (Hw' : w' = handleCreateChat props w) by done. clearbody w'.
  unfold handleCreateChat in Hw'. rewrite Hme, Hg1, Hg2 in Hw'.
  destruct (isPrivate (Props.chatType props) && Dialog.showInvite (dialog w)).
  - unfold does, handleInvite in Hw'. rewrite Hme in Hw'.
    unfold tryBind, addChat, tryBind in Hw'.
    erewrite request_rejected in Hw' by (cbn; done). subst w'. by cbn.
  - unfold tryBind, addChat, tryBind in Hw'.
    erewrite request_rejected in Hw' by (cbn; done). subst w'. by cbn.
Qed.

(** X24.  Nothing is rolled back: when a private chat is created with the
    selected user and the database accepts the chat document but rejects
    adding the participant, the chat document stays, with its creator as
    only participant; the dialog shows the failure and no link, so "Create
    Chat" stays available. *)
Theorem chat_stays_when_participant_is_rejected w me user rest :
  signedIn props = Some me ->
  Props.chatType props = private ->
  Dialog.selectedUsers (dialog w) = [user] ->
  Dialog.showInvite (dialog w) = false ->
  Dialog.createWithoutUsers (dialog w) = false ->
  faults w = false :: true :: rest ->
  let w' := handleCreateChat props w in
  let chatId := Props.newDocId props (Firestore.chats (db w)) in
  Firestore.chats (db w') = <[chatId := newChatDoc props me (dialog w)]>
                              (Firestore.chats (db w))
  /\ ChatDoc.participants (newChatDoc props me (dialog w)) = [me]
  /\ Dialog.error (dialog w') = Some "Failed to create chat. Please try again."
  /\ Dialog.chatLink (dialog w') = Dialog.chatLink (dialog w)
  /\ Dialog.successMessage (dialog w') = Dialog.successMessage (dialog w)
  /\ Dialog.isLoading (dialog w') = false.
Proof.
  intros Hme Hty Hsel Hinv Hwithout Hf w' chatId.
  assert (Hw' : w' = handleCreateChat props w) by done. clearbody w'.
  unfold handleCreateChat in Hw'. rewrite Hme, Hty, Hsel, Hinv, Hwithout in Hw'.
  cbn [isPrivate isGroup isAi length Nat.eqb negb andb lookup list_lookup] in Hw'.
  unfold tryBind, addChat, addParticipant, tryBind, does in Hw'.
  erewrite request_granted in Hw' by (cbn; done). cbv beta iota in Hw'.
  erewrite request_rejected in Hw' by (cbn; done). subst w'.
  unfold newChatDoc. rewrite Hty. by cbn.
Qed.

End ChatCreation.

(** ** Worked scenarios of chat creation *)

Example dialog_fixtures :
  Dialog.selectedUsers (dialog (bobSelected [])) = [bobProfile]
  /\ Dialog.selectedUsers (dialog teamSelected) = [bobProfile; carolProfile]
  /\ Dialog.showInvite (dialog strangerSearched) = true
  /\ Dialog.inviteEmail (dialog strangerSearched) = "dave@nimbus.test"
  /\ Dialog.searchTerm (dialog strangerSearched) = "".
Proof. vm_compute. by split_and!. Qed.

Lemma invite_creates_private_chat_witness :
  let props := dialogProps group in
  let w := strangerSearched in
  let w' := handleInvite props w in
  signedIn props = Some "alice"
  /\ faults w = []
  /\ Firestore.chats (db w') = <["c1" := invitedChatDoc "alice"]> (Firestore.chats (db w))
  /\ Firestore.invitations (db w')
     = Firestore.invitations (db w)
       ++ [invitationFor (invitationLinkOf props "c1") (Dialog.inviteEmail (dialog w))]
  /\ Dialog.chatLink (dialog w') = invitationLinkOf props "c1"
  /\ Dialog.showInvite (dialog w') = false
  /\ Dialog.isLoading (dialog w') = false
  /\ closeCalls w' = S (closeCalls w)
  /\ Dialog.successMessage (dialog w') = Dialog.successMessage (dialog w)
  /\ Dialog.error (dialog w') = Dialog.error (dialog w)
  /\ Dialog.selectedUsers (dialog w') = Dialog.selectedUsers (dialog w).
Proof.
  intros props w w'.
  assert (Hme : signedIn props = Some "alice") by reflexivity.
  assert (Hfaults : faults w = []) by reflexivity.
  split; [exact Hme|]. split; [exact Hfaults|].
  exact (invite_creates_private_chat props w "alice" Hme Hfaults).
Defined.

(** The invitation written for Dave names "invite?token=c1" as its chat. *)
Example invitation_scenario :
  Firestore.invitations (db (handleInvite (dialogProps private) strangerSearched))
  = [{| Invitation.chatId := "invite?token=c1"; Invitation.email := "dave@nimbus.test";
        Invitation.sentAt := serverTimestamp |}].
Proof. vm_compute. reflexivity. Qed.

Lemma private_chat_with_selected_user_witness :
  let props := dialogProps private in
  let w := bobSelected [] in
  let w' := handleCreateChat props w in
  signedIn props = Some "alice"
  /\ Props.chatType props = private
  /\ Dialog.selectedUsers (dialog w) = [bobProfile]
  /\ Dialog.showInvite (dialog w) = false
  /\ Dialog.createWithoutUsers (dialog w) = false
  /\ faults w = []
  /\ (exists c,
        Firestore.chats (db w') = <["c1" := c]> (Firestore.chats (db w))
        /\ ChatDoc.type c = private /\ ChatDoc.createdBy c = "alice"
        /\ ChatDoc.participants c = arrayUnion (User.id bobProfile) ["alice"]
        /\ (User.id bobProfile <> "alice" ->
            ChatDoc.participants c = ["alice"; User.id bobProfile])
        /\ ChatDoc.name c = None /\ ChatDoc.aiModel c = None)
  /\ Firestore.invitations (db w') = Firestore.invitations (db w)
  /\ Dialog.chatLink (dialog w') = chatLinkOf props "c1"
  /\ Dialog.successMessage (dialog w') = "Chat created successfully!"
  /\ Dialog.isLoading (dialog w') = false
  /\ Dialog.error (dialog w') = Dialog.error (dialog w)
  /\ closeCalls w' = closeCalls w.
Proof.
  intros props w w'.
  assert (Hme : signedIn props = Some "alice") by reflexivity.
  assert (Hty : Props.chatType props = private) by reflexivity.
  assert (Hsel : Dialog.selectedUsers (dialog w) = [bobProfile])
    by (vm_compute; reflexivity).
  assert (Hinv : Dialog.showInvite (dialog w) = false) by (vm_compute; reflexivity).
  assert (Hwithout : Dialog.createWithoutUsers (dialog w) = false)
    by (vm_compute; reflexivity).
  assert (Hfaults : faults w = []) by (vm_compute; reflexivity).
  split; [exact Hme|]. split; [exact Hty|]. split; [exact Hsel|]. split; [exact Hinv|].
  split; [exact Hwithout|]. split; [exact Hfaults|].
  exact (private_chat_with_selected_user props w "alice" bobProfile
           Hme Hty Hsel Hinv Hwithout Hfaults).
Defined.

Lemma chat_with_invitations_witness :
  let props := dialogProps group in
  let w := teamSelected in
  let w' := handleCreateChat props w in
  let link := invitationLinkOf props "c1" in
  signedIn props = Some "alice"
  /\ createGuardsPass props (dialog w) = true
  /\ isPrivate (Props.chatType props) && Dialog.showInvite (dialog w) = false
  /\ isPrivate (Props.chatType props)
     && (length (Dialog.selectedUsers (dialog w)) =? 1)%nat
     && negb (Dialog.createWithoutUsers (dialog w)) = false
  /\ faults w = []
  /\ Firestore.chats (db w')
     = <["c1" := newChatDoc props "alice" (dialog w)]> (Firestore.chats (db w))
  /\ Firestore.invitations (db w')
     = Firestore.invitations (db w)
       ++ (if Dialog.createWithoutUsers (dialog w) then []
           else (fun user => invitationFor link (User.email user))
                <$> Dialog.selectedUsers (dialog w))
  /\ Dialog.chatLink (dialog w') = link
  /\ Dialog.successMessage (dialog w') = "Chat created successfully!"
  /\ Dialog.isLoading (dialog w') = false
  /\ Dialog.error (dialog w') = Dialog.error (dialog w).
Proof.
  intros props w w' link.
  assert (Hme : signedIn props = Some "alice") by reflexivity.
  assert (Hguards : createGuardsPass props (dialog w) = true)
    by (vm_compute; reflexivity).
  assert (Hnoinvite : isPrivate (Props.chatType props) && Dialog.showInvite (dialog w)
                      = false) by reflexivity.
  assert (Hnodirect : isPrivate (Props.chatType props)
                      && (length (Dialog.selectedUsers (dialog w)) =? 1)%nat
                      && negb (Dialog.createWithoutUsers (dialog w)) = false)
    by reflexivity.
  assert (Hfaults : faults w = []) by (vm_compute; reflexivity).
  split; [exact Hme|]. split; [exact Hguards|]. split; [exact Hnoinvite|].
  split; [exact Hnodirect|]. split; [exact Hfaults|].
  exact (chat_with_invitations props w "alice" Hme Hguards Hnoinvite Hnodirect Hfaults).
Defined.

(** The group "Team": Alice alone is a participant, Bob and Carol are
    invited. *)
Example group_creation_scenario :
  let w' := handleCreateChat (dialogProps group) teamSelected in
  Firestore.chats (db w') !! "c1"
  = Some {| ChatDoc.type := group; ChatDoc.participants := ["alice"];
            ChatDoc.createdAt := serverTimestamp; ChatDoc.createdBy := "alice";
            ChatDoc.name := Some "Team"; ChatDoc.aiModel := None |}
  /\ Invitation.email <$> Firestore.invitations (db w')
     = ["bob@nimbus.test"; "carol@nimbus.test"]
  /\ Dialog.chatLink (dialog w') = "https://nimbus.test/invite?token=c1".
Proof. vm_compute. by split_and!. Qed.

Lemma create_with_invite_box_open_witness :
  let props := dialogProps private in
  Props.chatType props = private
  /\ Dialog.showInvite (dialog strangerSearched) = true
  /\ handleCreateChat props strangerSearched = handleInvite props strangerSearched.
Proof.
  intros props.
  assert (Hty : Props.chatType props = private) by reflexivity.
  assert (Hinv : Dialog.showInvite (dialog strangerSearched) = true)
    by (vm_compute; reflexivity).
  split; [exact Hty|]. split; [exact Hinv|].
  exact (create_with_invite_box_open_is_invite props strangerSearched Hty Hinv).
Defined.

(** "Create Chat" in a private dialog with nobody selected does nothing. *)
Example create_guards_scenario :
  handleCreateChat (dialogProps private) (openedDialog []) = openedDialog [].
Proof. reflexivity. Qed.

Lemma selection_stays_clean_witness :
  let props := dialogProps group in
  let actions := [TypeSearchTerm "bob"; ClickAdd; TypeSearchTerm "bob"; ClickAdd;
                  TypeSearchTerm "alice"; ClickAdd; ClickRemove "bob"; ClickCreate] in
  cleanSelection props (dialog (openedDialog []))
  /\ cleanSelection props (dialog (interact props actions (openedDialog []))).
Proof.
  intros props actions.
  assert (Hclean : cleanSelection props (dialog (openedDialog []))).
  { split; [apply NoDup_nil_2|]. intros me _ Hin. by apply elem_of_nil in Hin. }
  split; [exact Hclean|].
  exact (selection_stays_clean props actions (openedDialog []) Hclean).
Defined.

Lemma invitations_record_link_segment_witness :
  let props := dialogProps group in
  let actions := [TypeSearchTerm "bob"; ClickAdd; ClickCreate] in
  let w' := interact props actions (openedDialog []) in
  (forall chats, occurs "/" (Props.newDocId props chats) = false)
  /\ exists new,
       Firestore.invitations (db w') = Firestore.invitations (db (openedDialog [])) ++ new
       /\ Forall (fun invitation =>
                    exists id,
                      is_Some (Firestore.chats (db w') !! id)
                      /\ Invitation.chatId invitation = "invite?token=" +:+ id
                      /\ Invitation.chatId invitation <> id) new.
Proof.
  intros props actions w'.
  assert (Hids : forall chats, occurs "/" (Props.newDocId props chats) = false)
    by (intros chats; reflexivity).
  split; [exact Hids|].
  exact (invitations_record_link_segment props actions (openedDialog []) Hids).
Defined.

Lemma private_chats_stay_within_two_witness :
  let props := dialogProps private in
  let actions := [TypeSearchTerm "bob"; ClickAdd; ClickCreate] in
  let visitors := [(Some "c1", Some "carol"); (Some "c1", Some "bob")] in
  let order := [(0, None, None); (1, None, None)]%nat in
  privateDocsWithinTwo (Firestore.chats (db (openedDialog [])))
  /\ privateWithinTwo
       (acceptOverlapping visitors (oneAfterTheOther order)
          (chatDataOf
             <$> Firestore.chats (db (interact props actions (openedDialog []))))).2.
Proof.
  intros props actions visitors order.
  assert (Hinv : privateDocsWithinTwo (Firestore.chats (db (openedDialog [])))).
  { intros id c Hid. cbn in Hid. by rewrite lookup_empty in Hid. }
  split; [exact Hinv|].
  exact (private_chats_stay_within_two props actions visitors order (openedDialog [])
           Hinv).
Defined.

Lemma rejected_creation_witness :
  let props := dialogProps private in
  let w := bobSelected [false; true] in
  let w' := handleCreateChat props w in
  createGuardsPass props (dialog w) = true
  /\ faults w = [true]
  /\ db w' = db w
  /\ Dialog.chatLink (dialog w') = Dialog.chatLink (dialog w)
  /\ Dialog.successMessage (dialog w') = Dialog.successMessage (dialog w)
  /\ closeCalls w' = closeCalls w
  /\ Dialog.isLoading (dialog w') = false
  /\ Dialog.error (dialog w')
     = Some (if isPrivate (Props.chatType props) && Dialog.showInvite (dialog w)
             then "Failed to send invitation. Please try again."
             else "Failed to create chat. Please try again.").
Proof.
  intros props w w'.
  assert (Hguards : createGuardsPass props (dialog w) = true)
    by (vm_compute; reflexivity).
  assert (Hfaults : faults w = [true]) by (vm_compute; reflexivity).
  split; [exact Hguards|]. split; [exact Hfaults|].
  exact (rejected_creation_writes_nothing props w [] Hguards Hfaults).
Defined.

Lemma chat_stays_when_participant_is_rejected_witness :
  let props := dialogProps private in
  let w := bobSelected [false; false; true] in
  let w' := handleCreateChat props w in
  signedIn props = Some "alice"
  /\ Props.chatType props = private
  /\ Dialog.selectedUsers (dialog w) = [bobProfile]
  /\ Dialog.showInvite (dialog w) = false
  /\ Dialog.createWithoutUsers (dialog w) = false
  /\ faults w = [false; true]
  /\ Firestore.chats (db w') = <["c1" := newChatDoc props "alice" (dialog w)]>
                                 (Firestore.chats (db w))
  /\ ChatDoc.participants (newChatDoc props "alice" (dialog w)) = ["alice"]
  /\ Dialog.error (dialog w') = Some "Failed to create chat. Please try again."
  /\ Dialog.chatLink (dialog w') = Dialog.chatLink (dialog w)
  /\ Dialog.successMessage (dialog w') = Dialog.successMessage (dialog w)
  /\ Dialog.isLoading (dialog w') = false.
Proof.
  intros props w w'.
  assert (Hme : signedIn props = Some "alice") by reflexivity.
  assert (Hty : Props.chatType props = private) by reflexivity.
  assert (Hsel : Dialog.selectedUsers (dialog w) = [bobProfile])
    by (vm_compute; reflexivity).
  assert (Hinv : Dialog.showInvite (dialog w) = false) by (vm_compute; reflexivity).
  assert (Hwithout : Dialog.createWithoutUsers (dialog w) = false)
    by (vm_compute; reflexivity).
  assert (Hfaults : faults w = [false; true]) by (vm_compute; reflexivity).
  split; [exact Hme|]. split; [exact Hty|]. split; [exact Hsel|]. split; [exact Hinv|].
  split; [exact Hwithout|]. split; [exact Hfaults|].
  exact (chat_stays_when_participant_is_rejected props w "alice" bobProfile []
           Hme Hty Hsel Hinv Hwithout Hfaults).
Defined.

(** * Properties of the message list *)

Section MessageListProperties.

Context {M Date : Type}.
Variable toDate : M -> option Date.
Variable format : Date -> string.

Lemma pushTo_keys key (message : M) groups :
  (pushTo key message groups).*1
  = if decide (key ∈ groups.*1) then groups.*1 else groups.*1 ++ [key].
Proof.
  induction groups as [|[k g] rest IH]; [done|]. cbn [pushTo].
  destruct (String.eqb_spec k key) as [->|Hne]; rewrite !fmap_cons; cbn [fst].
  - rewrite decide_True by apply list_elem_of_here. done.
  - rewrite IH. destruct (decide (key ∈ rest.*1)) as [Hin|Hnin].
    + rewrite decide_True; [done|]. by apply list_elem_of_further.
    + rewrite decide_False; [done|]. intros [?|?]%elem_of_cons; congruence.
Qed.

Lemma filter_isOfDay_snoc key seen (message : M) :
  List.filter (isOfDay toDate format key) (seen ++ [message])
  = List.filter (isOfDay toDate format key) seen
    ++ (if isOfDay toDate format key message then [message] else []).
Proof. by rewrite List.filter_app. Qed.

Lemma groupsOf_undated seen groups (message : M) :
  toDate message = None ->
  groupsOf toDate format seen groups ->
  groupsOf toDate format (seen ++ [message]) groups.
Proof.
  intros Hnone (Hnodup & Hgroups & Hkeys).
  assert (Hday : dayKey toDate format message = None)
    by (unfold dayKey; by rewrite Hnone).
  split_and!; [done| |].
  - eapply Forall_impl; [exact Hgroups|]. intros [key listed] [Hne Heq].
    split; [done|]. simpl in *. rewrite filter_isOfDay_snoc, <- Heq.
    unfold isOfDay. rewrite Hday.
    rewrite bool_decide_eq_false_2 by done. by rewrite app_nil_r.
  - intros m key [Hin|Heq%list_elem_of_singleton]%elem_of_app Hm; [by eapply Hkeys|].
    congruence.
Qed.

Lemma groupsOf_dated seen groups (message : M) date :
  toDate message = Some date ->
  groupsOf toDate format seen groups ->
  groupsOf toDate format (seen ++ [message]) (pushTo (format date) message groups).
Proof.
  intros Hdate (Hnodup & Hgroups & Hkeys).
  assert (Hday : dayKey toDate format message = Some (format date))
    by (unfold dayKey; by rewrite Hdate).
  assert (Hof : forall key, isOfDay toDate format key message
                            = bool_decide (format date = key)).
  { intros key. unfold isOfDay. rewrite Hday. apply bool_decide_ext. naive_solver. }
  split_and!.
  - rewrite pushTo_keys. destruct (decide _); [done|].
    apply NoDup_app. split_and!; [done| |apply NoDup_singleton].
    intros x Hx Heq%list_elem_of_singleton. by subst x.
  - assert (Hnew : format date ∉ groups.*1 ->
                   List.filter (isOfDay toDate format (format date)) seen = []).
    { intros Hnotin. destruct (List.filter _ seen) as [|m rest] eqn:Hfilter; [done|].
      exfalso. apply Hnotin.
      assert (Hin : In m (List.filter (isOfDay toDate format (format date)) seen))
        by (rewrite Hfilter; by left).
      apply filter_In in Hin as [Hin Hm]. apply bool_decide_eq_true in Hm.
      apply (Hkeys m); [by apply list_elem_of_In|done]. }
    clear Hkeys. induction groups as [|[k listed] rest IH]; simpl.
    + repeat constructor; [done|]. simpl. rewrite filter_isOfDay_snoc, Hof.
      rewrite bool_decide_eq_true_2 by done. rewrite Hnew; [done|]. apply not_elem_of_nil.
    + apply Forall_cons in Hgroups as [[Hne Heq] Hrest]. simpl in *.
      apply NoDup_cons in Hnodup as [Hk Hnodup].
      destruct (String.eqb_spec k (format date)) as [->|Hkne].
      * constructor; simpl.
        -- split; [by destruct listed|].
           rewrite filter_isOfDay_snoc, Hof, bool_decide_eq_true_2 by done.
           by rewrite <- Heq.
        -- apply Forall_forall. intros [k' listed'] Hin.
           rewrite Forall_forall in Hrest. destruct (Hrest _ Hin) as [Hne' Heq'].
           simpl in *. split; [done|].
           rewrite filter_isOfDay_snoc, Hof, <- Heq'.
           rewrite bool_decide_eq_false_2; [by rewrite app_nil_r|].
           intros <-. apply Hk. apply list_elem_of_fmap. by exists (format date, listed').
      * constructor; simpl.
        -- split; [done|]. rewrite filter_isOfDay_snoc, Hof, <- Heq.
           rewrite bool_decide_eq_false_2 by done. by rewrite app_nil_r.
        -- apply IH; [done|done|]. intros Hnotin. apply Hnew.
           intros [?|?]%elem_of_cons; [congruence|done].
  - intros m key [Hin|Heq%list_elem_of_singleton]%elem_of_app Hm.
    + rewrite pushTo_keys. destruct (decide _); [by eapply Hkeys|].
      apply elem_of_app. left. by eapply Hkeys.
    + subst m. rewrite Hday in Hm. injection Hm as <-.
      rewrite pushTo_keys. destruct (decide _); [done|].
      apply elem_of_app. right. apply list_elem_of_here.
Qed.

Lemma fold_groupsOf (messages seen : list M) groups :
  groupsOf toDate format seen groups ->
  groupsOf toDate format (seen ++ messages)
    (fold_left (fun groups message =>
                  match toDate message with
                  | Some date => pushTo (format date) message groups
                  | None => groups
                  end) messages groups).
Proof.
  revert seen groups. induction messages as [|message rest IH]; intros seen groups Hinv.
  - by rewrite app_nil_r.
  - simpl. rewrite cons_middle, (assoc_L (++)). apply IH.
    destruct (toDate message) as [date|] eqn:Hdate.
    + by apply groupsOf_dated.
    + by apply groupsOf_undated.
Qed.

(** X25.  [groupMessagesByDay] makes one entry per day that has a message:
    the keys are distinct, the entry of a day lists exactly the messages of
    that day, in the order they came in, and every message that has a date
    is listed under its day. *)
Theorem messages_are_grouped_by_day (messages : list M) :
  let groups := groupMessagesByDay toDate format messages in
  NoDup groups.*1
  /\ (forall key listed,
        (key, listed) ∈ groups ->
        listed <> [] /\ listed = List.filter (isOfDay toDate format key) messages)
  /\ (forall message key,
        message ∈ messages -> dayKey toDate format message = Some key ->
        exists listed, (key, listed) ∈ groups /\ message ∈ listed).
Proof.
  intros groups.
  assert (Hinv : groupsOf toDate format messages groups).
  { apply (fold_groupsOf messages [] []). split_and!; [apply NoDup_nil_2|done|].
    by intros m key Hin%elem_of_nil. }
  destruct Hinv as (Hnodup & Hgroups & Hkeys). rewrite Forall_forall in Hgroups.
  split_and!; [done| |].
  - intros key listed Hin. apply (Hgroups _ Hin).
  - intros message key Hin Hday.
    destruct (proj1 (list_elem_of_fmap _ _ _) (Hkeys message key Hin Hday))
      as ([k listed] & -> & Hentry).
    exists listed. split; [done|].
    destruct (Hgroups _ Hentry) as [_ Heq]. simpl in Heq. rewrite Heq.
    apply list_elem_of_In, filter_In. split; [by apply list_elem_of_In|].
    by apply bool_decide_eq_true.
Qed.

Lemma pushTo_concat key (message : M) groups :
  concat (pushTo key message groups).*2 ≡ₚ concat groups.*2 ++ [message].
Proof.
  induction groups as [|[k listed] rest IH]; [done|]. cbn [pushTo].
  destruct (String.eqb k key); rewrite !fmap_cons; cbn [snd concat].
  - rewrite <- !(assoc_L (++)). f_equiv. apply Permutation_app_comm.
  - rewrite IH. by rewrite (assoc_L (++)).
Qed.

(** X26.  The entries together hold every message that has a date exactly
    once, and no message without one: a message whose timestamp is still
    pending is not listed. *)
Theorem dated_messages_are_listed_once (messages : list M) :
  concat (groupMessagesByDay toDate format messages).*2
  ≡ₚ List.filter (hasDate toDate) messages.
Proof.
  unfold groupMessagesByDay.
  assert (Hgen : forall groups,
    concat (fold_left (fun groups message =>
                         match toDate message with
                         | Some date => pushTo (format date) message groups
                         | None => groups
                         end) messages groups).*2
    ≡ₚ concat groups.*2 ++ List.filter (hasDate toDate) messages).
  { induction messages as [|message rest IH]; intros groups.
    - simpl. by rewrite app_nil_r.
    - simpl. rewrite IH. unfold hasDate at 2.
      destruct (toDate message) as [date|].
      + rewrite bool_decide_eq_true_2 by (by eexists).
        rewrite pushTo_concat. by rewrite <- (assoc_L (++)).
      + by rewrite bool_decide_eq_false_2 by (by intros [? ?]). }
  by rewrite Hgen.
Qed.

End MessageListProperties.


(** Five messages, given as text and day; the fourth has no date yet. *)
Example grouping_scenario :
  groupMessagesByDay snd (fun day : string => day)
    [("a", Some "2024-05-01"); ("b", Some "2024-05-02"); ("c", Some "2024-05-01");
     ("d", None); ("e", Some "2024-05-02")]
  = [("2024-05-01", [("a", Some "2024-05-01"); ("c", Some "2024-05-01")]);
     ("2024-05-02", [("b", Some "2024-05-02"); ("e", Some "2024-05-02")])].
Proof. reflexivity. Qed.

(** * Properties of the message input *)

(** ** Trimming *)

Lemma trimStart_startsClean s : startsClean (trimStart s).
Proof.
  induction s as [|c r IH]; [done|]. simpl.
  by destruct (isWhiteSpace c) eqn:Hc.
Qed.

Lemma trimStart_clean s : startsClean s -> trimStart s = s.
Proof. destruct s as [|c r]; [done|]. simpl. by intros ->. Qed.

Lemma trimEnd_startsClean s : startsClean s -> startsClean (trimEnd s).
Proof.
  destruct s as [|c r]; [done|]. simpl. intros Hc.
  destruct (trimEnd r); [by rewrite Hc|done].
Qed.

Lemma trimEnd_idempotent s : trimEnd (trimEnd s) = trimEnd s.
Proof.
  induction s as [|c r IH]; [done|]. simpl.
  destruct (trimEnd r) as [|c' t] eqn:Ht.
  - destruct (isWhiteSpace c) eqn:Hc; [done|]. simpl. by rewrite Hc.
  - change (trimEnd (String c (String c' t)))
      with (match trimEnd (String c' t) with
            | EmptyString => if isWhiteSpace c then EmptyString else String c EmptyString
            | r' => String c r'
            end).
    by rewrite IH.
Qed.

(** Trimming a trimmed string changes nothing. *)
Lemma trim_idempotent s : trim (trim s) = trim s.
Proof.
  unfold trim.
  rewrite (trimStart_clean (trimEnd (trimStart s)))
    by apply trimEnd_startsClean, trimStart_startsClean.
  apply trimEnd_idempotent.
Qed.

Section MessageInputProperties.

Context {P : Type}.
Variable onSendMessage : string -> option File.t -> option Blob.t -> P -> bool * P.
Variable transcribeUpload : Blob.t -> option string.

(** X27.  The input box never asks for an empty send: it calls
    [onSendMessage] at most once per submission, never with an audio blob,
    with the empty string beside a file (the typed text is not sent along)
    and otherwise with the trimmed text, which is not empty.  So for a
    present user the arguments always get past the guard of [sendMessage]. *)
Theorem input_box_never_sends_nothing i p userId :
  userId <> "" ->
  let calls := (handleSendMessage onSendMessage i p).2 in
  (length calls <= 1)%nat
  /\ Forall (fun call =>
               sentAudio call = None
               /\ (is_Some (sentFile call) -> sentContent call = "")
               /\ (sentFile call = None -> sentContent call = trim (MessageInput.message i))
               /\ nothingToSend (sentContent call) (sentFile call) (sentAudio call)
                    userId = false) calls.
Proof.
  intros Huser calls. subst calls. unfold handleSendMessage.
  destruct (_ || _) eqn:Hguard; [by split; [simpl; lia|]|].
  apply orb_false_elim in Hguard as [Hguard _].
  assert (Hcall : forall call,
    call = match head (MessageInput.files i) with
           | Some file => {| sentContent := ""; sentFile := Some file; sentAudio := None |}
           | None => {| sentContent := trim (MessageInput.message i); sentFile := None;
                        sentAudio := None |}
           end ->
    sentAudio call = None
    /\ (is_Some (sentFile call) -> sentContent call = "")
    /\ (sentFile call = None -> sentContent call = trim (MessageInput.message i))
    /\ nothingToSend (sentContent call) (sentFile call) (sentAudio call) userId = false).
  { intros call ->. unfold nothingToSend. rewrite (truthy_nonempty _ Huser).
    destruct (MessageInput.files i) as [|file rest]; simpl in *.
    - rewrite andb_true_r in Hguard. apply negb_false_iff in Hguard.
      rewrite trim_idempotent, Hguard. split_and!; try done; by intros [? [=]].
    - by split_and!. }
  destruct (onSendMessage _ _ _ p) as [[] p']; cbn [snd length];
    (split; [lia|]); repeat constructor; by apply Hcall.
Qed.

(** X28.  After a submission that reaches [onSendMessage] the sending flag
    is down again, whatever the outcome.  When the parent resolves, the text
    box and the file input are cleared (also the text typed beside a file,
    which was not sent); when it rejects, the error is swallowed and the
    draft and the chosen files stay as they were. *)
Theorem draft_is_kept_when_send_is_rejected i p call :
  let r := handleSendMessage onSendMessage i p in
  r.2 = [call] ->
  let resolved :=
    (onSendMessage (sentContent call) (sentFile call) (sentAudio call) p).1 in
  MessageInput.isSending r.1.1 = false
  /\ r.1.2 = (onSendMessage (sentContent call) (sentFile call) (sentAudio call) p).2
  /\ MessageInput.message r.1.1 = (if resolved then "" else MessageInput.message i)
  /\ MessageInput.files r.1.1 = (if resolved then [] else MessageInput.files i)
  /\ MessageInput.audioSendingError r.1.1 = MessageInput.audioSendingError i.
Proof.
  intros r. subst r. unfold handleSendMessage.
  destruct (_ || _); [done|].
  set (c := match head (MessageInput.files i) with Some _ => _ | None => _ end).
  destruct (onSendMessage (sentContent c) (sentFile c) (sentAudio c) p)
    as [[] p'] eqn:Hsend; cbn [fst snd]; intros [= <-]; rewrite Hsend; by cbn.
Qed.

(** X29.  A voice note is handed to [onSendMessage] only after the input
    box's own transcription request succeeded: when that request fails,
    nothing is sent, the parent's state is untouched and the error line is
    shown; when it succeeds, exactly one call is made, with the transcript
    as content, no file and the recorded blob, and the error line is shown
    exactly when the parent rejects.  The processing flag is down again in
    every case. *)
Theorem voice_note_needs_the_first_transcript blob i p :
  let r := handleRecordingComplete onSendMessage transcribeUpload blob i p in
  let failure := Some "Failed to send audio message. Please try again." in
  MessageInput.isAudioSending r.1.1 = false
  /\ MessageInput.message r.1.1 = MessageInput.message i
  /\ match transcribeUpload blob with
     | None =>
         r.2 = [] /\ r.1.2 = p /\ MessageInput.audioSendingError r.1.1 = failure
     | Some transcript =>
         r.2 = [{| sentContent := transcript; sentFile := None; sentAudio := Some blob |}]
         /\ r.1.2 = (onSendMessage transcript None (Some blob) p).2
         /\ MessageInput.audioSendingError r.1.1
            = (if (onSendMessage transcript None (Some blob) p).1 then None else failure)
     end.
Proof.
  intros r failure. subst r. unfold handleRecordingComplete.
  destruct (transcribeUpload blob) as [transcript|]; [|by cbn].
  by destruct (onSendMessage transcript None (Some blob) p) as [[] p'].
Qed.

End MessageInputProperties.

(** ** Worked scenarios of the message input *)

Lemma input_box_never_sends_nothing_witness :
  let calls := (handleSendMessage pageSendMessage typedHello (worldOf noUsage)).2 in
  "alice" <> ""
  /\ (length calls <= 1)%nat
  /\ Forall (fun call =>
               sentAudio call = None
               /\ (is_Some (sentFile call) -> sentContent call = "")
               /\ (sentFile call = None ->
                   sentContent call = trim (MessageInput.message typedHello))
               /\ nothingToSend (sentContent call) (sentFile call) (sentAudio call)
                    "alice" = false) calls.
Proof.
  intros calls.
  assert (Huser : "alice" <> "") by discriminate.
  split; [exact Huser|].
  exact (input_box_never_sends_nothing pageSendMessage typedHello (worldOf noUsage)
           "alice" Huser).
Defined.

(** Alice, at her message limit, submits "hello": the send is rejected and
    the draft stays in the box. *)
Lemma draft_is_kept_witness :
  let w := worldOf (usageWith 100 0 0 0) in
  let call := {| sentContent := "hello"; sentFile := None; sentAudio := None |} in
  let r := handleSendMessage pageSendMessage typedHello w in
  let resolved :=
    (pageSendMessage (sentContent call) (sentFile call) (sentAudio call) w).1 in
  r.2 = [call]
  /\ MessageInput.isSending r.1.1 = false
  /\ r.1.2 = (pageSendMessage (sentContent call) (sentFile call) (sentAudio call) w).2
  /\ MessageInput.message r.1.1
     = (if resolved then "" else MessageInput.message typedHello)
  /\ MessageInput.files r.1.1 = (if resolved then [] else MessageInput.files typedHello)
  /\ MessageInput.audioSendingError r.1.1 = MessageInput.audioSendingError typedHello.
Proof.
  intros w call r resolved.
  assert (Hcall : r.2 = [call]) by (vm_compute; reflexivity).
  split; [exact Hcall|].
  exact (draft_is_kept_when_send_is_rejected pageSendMessage typedHello w call Hcall).
Defined.

Example rejected_submission_scenario :
  let r := handleSendMessage pageSendMessage typedHello (worldOf (usageWith 100 0 0 0)) in
  MessageInput.message r.1.1 = " hello "
  /\ messagesOf "c1" r.1.2 = [].
Proof. vm_compute. done. Qed.

Example accepted_submission_scenario :
  let r := handleSendMessage pageSendMessage typedHello (worldOf noUsage) in
  MessageInput.message r.1.1 = ""
  /\ content <$> messagesOf "c1" r.1.2 = [Some (Plain "[fr] hello")].
Proof. vm_compute. done. Qed.

(** * Properties of the recording time *)

Lemma string_app_inj_suffix (s1 s1' s2 s2' : string) :
  s1 +:+ s2 = s1' +:+ s2' -> String.length s2 = String.length s2' ->
  s1 = s1' /\ s2 = s2'.
Proof.
  revert s1'. induction s1 as [|c s1 IH]; intros [|c' s1'] Heq Hlen.
  - done.
  - exfalso. apply (f_equal String.length) in Heq.
    rewrite !string_length_append in Heq. simpl in Heq. lia.
  - exfalso. apply (f_equal String.length) in Heq.
    rewrite !string_length_append in Heq. simpl in Heq. lia.
  - change (String c s1 +:+ s2) with (String c (s1 +:+ s2)) in Heq.
    change (String c' s1' +:+ s2') with (String c' (s1' +:+ s2')) in Heq.
    injection Heq as -> Heq. destruct (IH _ Heq Hlen) as [-> ->]. done.
Qed.

(** The sixty seconds fields have two characters each and differ from one
    another. *)
Lemma secondsShown_table :
  forallb (fun n =>
             (String.length (secondsShown n) =? 2)%nat
             && forallb (fun m => implb (String.eqb (secondsShown n) (secondsShown m))
                                        (n =? m)%nat) (seq 0 60))
          (seq 0 60) = true.
Proof. vm_compute. reflexivity. Qed.

Lemma secondsShown_spec n m :
  (n < 60)%nat -> (m < 60)%nat ->
  String.length (secondsShown n) = 2%nat
  /\ (secondsShown n = secondsShown m -> n = m).
Proof.
  intros Hn Hm. pose proof secondsShown_table as Htable.
  rewrite forallb_forall in Htable.
  assert (Hin : In n (seq 0 60)) by (apply in_seq; lia).
  apply Htable, andb_prop in Hin as [Hlen Hinj].
  split; [by apply Nat.eqb_eq|].
  rewrite forallb_forall in Hinj.
  assert (Hinm : In m (seq 0 60)) by (apply in_seq; lia).
  apply Hinj in Hinm. intros Heq. rewrite Heq, String.eqb_refl in Hinm.
  by apply Nat.eqb_eq.
Qed.

Lemma recordingTimeShown_seconds t :
  recordingTimeShown t
  = pretty (t / 60) +:+ ":" +:+ secondsShown (N.to_nat (t mod 60)).
Proof. unfold recordingTimeShown, secondsShown. by rewrite N2Nat.id. Qed.

(** X30.  The time shown while recording is unambiguous: it ends in a colon
    and exactly two digits of seconds (padded with "0"), and two different
    recording times are never shown as the same text. *)
Theorem recording_time_is_shown_unambiguously t t' :
  recordingTimeShown t = recordingTimeShown t' ->
  t = t'
  /\ exists seconds,
       recordingTimeShown t = pretty (t / 60) +:+ ":" +:+ seconds
       /\ String.length seconds = 2%nat.
Proof.
  assert (Hbound : forall x, (N.to_nat (x mod 60) < 60)%nat).
  { intros x. pose proof (N.mod_lt x 60). lia. }
  intros Heq. split.
  - rewrite !recordingTimeShown_seconds in Heq.
    destruct (secondsShown_spec _ _ (Hbound t) (Hbound t')) as [Hlen Hinj].
    destruct (secondsShown_spec _ _ (Hbound t') (Hbound t)) as [Hlen' _].
    apply string_app_inj_suffix in Heq as [Hmin Hsec].
    + apply (inj pretty) in Hmin.
      change (":" +:+ ?s) with (String ":" s) in Hsec. injection Hsec as Hsec.
      apply Hinj in Hsec.
      rewrite (N.div_mod t 60), (N.div_mod t' 60) by done. lia.
    + change (":" +:+ ?s) with (String ":" s). simpl. by rewrite Hlen, Hlen'.
  - exists (secondsShown (N.to_nat (t mod 60))).
    split; [apply recordingTimeShown_seconds|].
    by apply (secondsShown_spec _ _ (Hbound t) (Hbound t)).
Qed.

Lemma recording_time_witness :
  recordingTimeShown 65 = recordingTimeShown 65
  /\ 65 = 65
  /\ exists seconds,
       recordingTimeShown 65 = pretty (65 / 60) +:+ ":" +:+ seconds
       /\ String.length seconds = 2%nat.
Proof.
  assert (Heq : recordingTimeShown 65 = recordingTimeShown 65) by reflexivity.
  split; [exact Heq|].
  exact (recording_time_is_shown_unambiguously 65 65 Heq).
Defined.

Example recording_time_scenario :
  recordingTimeShown 0 = "0:00" /\ recordingTimeShown 65 = "1:05"
  /\ recordingTimeShown 600 = "10:00" /\ recordingTimeShown 3725 = "62:05".
Proof. vm_compute. done. Qed.
